(** * Giverep automation scripts: keyword scraper and reply dispatcher

    A shallow embedding of the two Node scripts of the repository
    (the scraper that collects tweet URLs for the configured keywords and
    the dispatcher that posts canned replies to them), followed by the
    properties of their specification.

    Conventions of the embedding.
    - A JavaScript string is a [string]: each [ascii] stands for one code
      unit, so the strings covered are those whose code units are below 256.
    - A JavaScript number that the code only uses as an integer (a scroll
      height, a length, a count of milliseconds) is a [Z]; the doubles
      produced by [Math.random] are modelled exactly, see [JsNumber].
    - Every call that leaves the script (browser, file system, console,
      timers, random source) is an [event]; a run is driven by an [oracle]
      that answers each call, and produces the list of the calls made with
      their answers.  A call on the browser or the file system may reject;
      [await] then throws at the call site. *)

From Stdlib Require Import String Ascii List ZArith Lia Bool Arith DecimalString.
From Stdlib Require SpecFloat.
Import ListNotations.

Local Open Scope string_scope.
Local Open Scope list_scope.

(* ================================================================== *)
(** * Part I: the embedding *)
(* ================================================================== *)

(** ** Strings as JavaScript sees them *)

Module JsString.

Definition code (c : ascii) : nat := nat_of_ascii c.

(** [\d] of a regular expression without the unicode flag: [0-9]. *)
Definition is_digit (c : ascii) : bool :=
  (48 <=? code c)%nat && (code c <=? 57)%nat.

(** White space and line terminators removed by [String.prototype.trim],
    among the code units below 256: TAB, LF, VT, FF, CR, SP, NBSP. *)
Definition is_space (c : ascii) : bool :=
  let n := code c in
  ((9 <=? n)%nat && (n <=? 13)%nat) || (n =? 32)%nat || (n =? 160)%nat.

Definition is_upper (c : ascii) : bool :=
  let n := code c in
  ((65 <=? n)%nat && (n <=? 90)%nat)
  || ((192 <=? n)%nat && (n <=? 222)%nat && negb (n =? 215)%nat).

Definition lower (c : ascii) : ascii :=
  if is_upper c then ascii_of_nat (code c + 32) else c.

Fixpoint toLowerCase (s : string) : string :=
  match s with
  | EmptyString => EmptyString
  | String c r => String (lower c) (toLowerCase r)
  end.

Definition is_empty (s : string) : bool :=
  match s with EmptyString => true | String _ _ => false end.

Fixpoint trimStart (s : string) : string :=
  match s with
  | EmptyString => EmptyString
  | String c r => if is_space c then trimStart r else s
  end.

Fixpoint trimEnd (s : string) : string :=
  match s with
  | EmptyString => EmptyString
  | String c r =>
      let r' := trimEnd r in
      if is_space c && is_empty r' then EmptyString else String c r'
  end.

Definition trim (s : string) : string := trimEnd (trimStart s).

Definition LF : ascii := ascii_of_nat 10.
Definition newline : string := String LF EmptyString.

(** [s.split('\n')]: never the empty array, [''.split('\n')] is [['']]. *)
Fixpoint split_lines (s : string) : list string :=
  match s with
  | EmptyString => [EmptyString]
  | String c r =>
      if Ascii.eqb c LF then EmptyString :: split_lines r
      else match split_lines r with
           | h :: t => String c h :: t
           | [] => [String c EmptyString]
           end
  end.

(** [arr.join(sep)]. *)
Definition join (sep : string) (l : list string) : string :=
  String.concat sep l.

(** [strip_prefix p s] is what follows [p] in [s] when [s] starts with
    [p]: matching a literal at the current position. *)
Fixpoint strip_prefix (p s : string) : option string :=
  match p with
  | EmptyString => Some s
  | String a p' =>
      match s with
      | EmptyString => None
      | String b s' => if Ascii.eqb a b then strip_prefix p' s' else None
      end
  end.

(** The longest prefix of [s] whose code units satisfy [f], and the rest:
    a greedy character class. *)
Fixpoint span (f : ascii -> bool) (s : string) : string * string :=
  match s with
  | EmptyString => (EmptyString, EmptyString)
  | String c r =>
      if f c then let (a, b) := span f r in (String c a, b)
      else (EmptyString, s)
  end.

Fixpoint all_chars (f : ascii -> bool) (s : string) : bool :=
  match s with
  | EmptyString => true
  | String c r => f c && all_chars f r
  end.

Definition not_slash (c : ascii) : bool := negb (Ascii.eqb c "/"%char).

(** [/^https:\/\/x\.com\/[^\/]+\/status\/\d+$/.test(href)].  The class
    [[^\/]+] cannot cross a slash and the next literal starts with one,
    so the only split that can succeed is the greedy one. *)
Definition is_tweet_url (href : string) : bool :=
  match strip_prefix "https://x.com/" href with
  | None => false
  | Some r =>
      let (user, r1) := span not_slash r in
      negb (is_empty user) &&
      match strip_prefix "/status/" r1 with
      | None => false
      | Some d => negb (is_empty d) && all_chars is_digit d
      end
  end.

(** The regular expression [/status\/(\d+)/] tried at the start of [s]:
    the captured group when it matches there. *)
Definition status_here (s : string) : option string :=
  match strip_prefix "status/" s with
  | None => None
  | Some r =>
      let d := fst (span is_digit r) in
      if is_empty d then None else Some d
  end.

(** [tweetUrl.match(/status\/(\d+)/)]: the leftmost match, [match[1]]
    being the greedy run of digits; [None] is [null]. *)
Fixpoint match_status (s : string) : option string :=
  match status_here s with
  | Some d => Some d
  | None =>
      match s with
      | EmptyString => None
      | String _ r => match_status r
      end
  end.

Definition is_alnum (c : ascii) : bool :=
  let n := code c in
  is_digit c || ((65 <=? n)%nat && (n <=? 90)%nat)
             || ((97 <=? n)%nat && (n <=? 122)%nat).

(** [s.replace(/[^a-z0-9]/gi, '_')]. *)
Fixpoint sanitize (s : string) : string :=
  match s with
  | EmptyString => EmptyString
  | String c r => String (if is_alnum c then c else "_"%char) (sanitize r)
  end.

(** Template literals print numbers in decimal. *)
Definition show_nat (n : nat) : string :=
  NilZero.string_of_uint (Nat.to_uint n).

Definition show_Z (n : Z) : string :=
  NilZero.string_of_int (Z.to_int n).

(** [`${v}`] for a value that may be [undefined]. *)
Definition show_opt (v : option string) : string :=
  match v with Some s => s | None => "undefined" end.

Definition dquote : string := String (ascii_of_nat 34) EmptyString.

Definition hex_digit (n : nat) : ascii :=
  ascii_of_nat (if (n <? 10)%nat then 48 + n else 55 + n).

Definition percent (n : nat) : string :=
  String "%"%char
    (String (hex_digit (n / 16)) (String (hex_digit (n mod 16)) EmptyString)).

Definition is_uri_unreserved (c : ascii) : bool :=
  is_alnum c ||
  existsb (Ascii.eqb c)
    ["-"; "_"; "."; "!"; "~"; "*"; "'"; "("; ")"]%char.

(** [encodeURIComponent] on code units below 256: the unreserved
    characters stand for themselves, every other one is written as the
    escaped bytes of its UTF-8 encoding. *)
Fixpoint encodeURIComponent (s : string) : string :=
  match s with
  | EmptyString => EmptyString
  | String c r =>
      let n := code c in
      let enc :=
        if is_uri_unreserved c then String c EmptyString
        else if (n <? 128)%nat then percent n
        else (percent (192 + n / 64) ++ percent (128 + n mod 64))%string in
      (enc ++ encodeURIComponent r)%string
  end.

(** Insertion-ordered [Set] of strings: [add] keeps the first occurrence. *)
Definition set_add (x : string) (s : list string) : list string :=
  if in_dec string_dec x s then s else s ++ [x].

(** [xs.forEach(x => set.add(x))]. *)
Definition set_add_all (xs : list string) (s : list string) : list string :=
  fold_left (fun acc x => set_add x acc) xs s.

(** [Array.from(new Set(xs))]. *)
Definition uniq (xs : list string) : list string := set_add_all xs [].

End JsString.

(** ** Numbers: the doubles of [Math.random] *)

Module JsNumber.

Local Open Scope Z_scope.

(** Every finite double is an integer multiple of [2^-1074] (the smallest
    subnormal), and a non-negative integer [n] counts such units of a
    double exactly when its binary expansion spans at most 53 bits.  A
    non-negative double is represented by that count, so the arithmetic of
    the scripts is computed exactly, IEEE rounding included. *)
Definition one : Z := 2 ^ 1074.

Definition digits (n : Z) : Z := if n =? 0 then 0 else Z.log2 n + 1.

Definition fits53 (n : Z) : bool :=
  let s := digits n - 53 in
  if s <=? 0 then true else n mod 2 ^ s =? 0.

(** Rounding to nearest, ties to even, of an exact non-negative value
    given in units: what the hardware does to the exact product. *)
Definition round53 (n : Z) : Z :=
  let s := digits n - 53 in
  if s <=? 0 then n
  else
    let q := n / 2 ^ s in
    let rem := n mod 2 ^ s in
    let half := 2 ^ (s - 1) in
    let up := (half <? rem) || ((rem =? half) && Z.odd q) in
    (if up then q + 1 else q) * 2 ^ s.

(** [x * n] for a double [x] (in units) and an integer-valued double [n]:
    the exact product [x * n] is a whole number of units. *)
Definition mul_int (x n : Z) : Z := round53 (x * n).

(** [Math.floor] of a non-negative double, as an integer. *)
Definition floor (x : Z) : Z := x / one.

(** A value of [Math.random()]: a double [r] with [0 <= r < 1]. *)
Record draw : Type := Draw {
  units : Z;
  draw_ok : (0 <=? units) && (units <? one) && fits53 units = true
}.

Definition draw_zero : draw := Draw 0 eq_refl.

(** [Math.floor(Math.random() * n)]. *)
Definition random_below (r : draw) (n : Z) : Z :=
  floor (mul_int (units r) n).

(** [a / b] for two integer-valued doubles, [0 <= a] and [0 < b]: the
    exact quotient, [a * one / b] units, rounded to nearest, ties to
    even. *)
Definition div_int (a b : Z) : Z :=
  let num := a * one in
  let s := Z.max 0 (digits (num / b) - 53) in
  let d := b * 2 ^ s in
  let q := num / d in
  let rem := num mod d in
  let up := (d <? 2 * rem) || ((2 * rem =? d) && Z.odd q) in
  (if up then q + 1 else q) * 2 ^ s.

Definition two_digits (k : Z) : string :=
  (JsString.show_Z (k / 10) ++ JsString.show_Z (k mod 10))%string.

(** [x.toFixed(2)] for a double [0 <= x < 10^21]: the integer [n] for
    which [n / 100] is nearest to the exact value of [x], the larger one
    when there are two, written with its last two digits as decimals. *)
Definition toFixed2 (x : Z) : string :=
  let n := (200 * x + one) / (2 * one) in
  (JsString.show_Z (n / 100) ++ "." ++ two_digits (n mod 100))%string.

(** The same doubles in the IEEE 754 model of the standard library
    (binary64: precision 53, maximal exponent 1024), to compare the
    rounding above with its multiplication. *)
Definition to_spec (x : Z) : SpecFloat.spec_float :=
  if x <=? 0 then SpecFloat.S754_zero false
  else
    let s := Z.max 0 (digits x - 53) in
    SpecFloat.S754_finite false (Z.to_pos (x / 2 ^ s)) (s - 1074).

Definition of_spec (f : SpecFloat.spec_float) : Z :=
  match f with
  | SpecFloat.S754_finite false m e => Z.pos m * 2 ^ (e + 1074)
  | _ => 0
  end.

Definition ieee_mul (x y : Z) : Z :=
  of_spec (SpecFloat.SFmul 53 1024 (to_spec x) (to_spec y)).

Definition ieee_div (x y : Z) : Z :=
  of_spec (SpecFloat.SFdiv 53 1024 (to_spec x) (to_spec y)).

(** Delays, in milliseconds, on which the division by 1000 is compared
    and the decimals are shown: quotients that lie just below or just
    above a half of the second decimal, a tie, and the ends of the
    range. *)
Definition sample_delays : list Z :=
  [5000; 5005; 5125; 8345; 9995; 11999].

(** Draws and integers on which the two are compared: the largest double
    below 1, a tie, a subnormal, a small and a middling draw. *)
Definition sample_draws : list Z :=
  [ one - 2 ^ 1021; 2 ^ 1073; 5; 3 * 2 ^ 1020; 6004799503160661 * 2 ^ 1020;
    (2 ^ 53 - 1) * 2 ^ 900; 2 ^ 1073 + 2 ^ 1021 ].

Definition sample_factors : list Z := [1; 2; 3; 8; 100; 7000; 2 ^ 32 - 1].

End JsNumber.

(** ** The page as the scripts observe it *)

Module Dom.

(** What [clickReplyButtonByLabel] reads of a candidate element.
    [textContent] and the attributes are [None] where the DOM gives
    [null]; [visibility] and [display] come from the computed style. *)
Record element : Type := Element {
  textContent : option string;
  aria_label : option string;
  visibility : string;
  display : string;
  disabled : bool;
  aria_disabled : option string
}.

End Dom.

(** ** Calls, answers and runs *)

Inductive duration : Type :=
| Millis (ms : Z)
| ScrollPause (r : JsNumber.draw).   (* 1200 + r * 600 *)

Inductive event : Type :=
| ELog (err : bool) (msg : string)
| EExit (code : Z)
| ERandom
| EDelay (d : duration)
| ELaunch (args : list string)
| ENewPage
| ESetUserAgent (ua : option string)
| ESetDefaultNavigationTimeout (ms : Z)
| EGoto (url : string)
| ESetCookie (ct0 auth_token : string)
| EReload
| EWaitForSelector (selector : string) (timeout : Z)
| EScrollHeight
| ELinks
| EScrollToBottom
| EScrollIntoView
| EClick (selector : string)
| EType (selector : string) (text : option string)
| EDialogCandidates
| EElementClick (index : nat)
| EScreenshot (path : string)
| EPageClose
| EBrowserClose
| EWriteFile (path : string) (data : string).

(** What the world answers to a call.  [throws] says that the call rejects,
    and [error] is then the text of the exception, as the conversion to a
    string gives it; the other fields carry the value for the calls that
    return one: a number for [EScrollHeight], the [href]s of the matched
    anchors for [ELinks], the elements matched inside the dialog for
    [EDialogCandidates], the draw for [ERandom]. *)
Record answer : Type := Answer {
  throws : bool;
  error : string;
  number : Z;
  strings : list string;
  elements : list Dom.element;
  drawn : JsNumber.draw
}.

(** The answer to the [n]-th call of the run. *)
Definition oracle : Type := nat -> event -> answer.

Definition entry : Type := (event * answer)%type.

Inductive res (A : Type) : Type :=
| Val (a : A)        (* the computation returns *)
| Throw (e : string) (* an exception escapes; [e] is its text *)
| Diverge.           (* the loop bound of the model is exhausted *)

Arguments Val {A} a.
Arguments Throw {A} e.
Arguments Diverge {A}.

(** A computation reads the oracle from call number [n] on and yields its
    result with the calls it made, in order. *)
Definition M (A : Type) : Type := oracle -> nat -> res A * list entry.

Definition ret {A} (a : A) : M A := fun _ _ => (Val a, []).

Definition throw {A} (e : string) : M A := fun _ _ => (Throw e, []).

Definition diverge {A} : M A := fun _ _ => (Diverge, []).

Definition bind {A B} (m : M A) (k : A -> M B) : M B :=
  fun o n =>
    match m o n with
    | (Val a, t1) =>
        let (r, t2) := k a o (n + length t1)%nat in (r, t1 ++ t2)
    | (Throw e, t1) => (Throw e, t1)
    | (Diverge, t1) => (Diverge, t1)
    end.

Declare Scope js_scope.
Delimit Scope js_scope with js.
Notation "x <- m ;; k" := (bind m (fun x => k))
  (at level 100, m at next level, right associativity) : js_scope.
Notation "m ;; k" := (bind m (fun _ => k))
  (at level 100, right associativity) : js_scope.
Local Open Scope js_scope.

(** A call that cannot fail (console, timers, random source). *)
Definition perform (ev : event) : M answer :=
  fun o n => let a := o n ev in (Val a, [(ev, a)]).

(** A call on the browser or the file system: when it rejects, or throws,
    the exception escapes at the call site. *)
Definition call (ev : event) : M answer :=
  fun o n =>
    let a := o n ev in
    ((if throws a then Throw (error a) else Val a), [(ev, a)]).

(** [try { m } catch (e) { h e }]. *)
Definition try_catch {A} (m : M A) (h : string -> M A) : M A :=
  fun o n =>
    match m o n with
    | (Throw e, t1) =>
        let (r, t2) := h e o (n + length t1)%nat in (r, t1 ++ t2)
    | other => other
    end.

(** [try { m; ok = true } catch { ok = false }]. *)
Definition attempt {A} (m : M A) : M bool :=
  try_catch (m ;; ret true) (fun _ => ret false).

(** [try { m } catch (e) { ... }] seen from what follows it: the exception
    caught, or [None] when the block went through. *)
Definition caught {A} (m : M A) : M (option string) :=
  try_catch (m ;; ret None) (fun e => ret (Some e)).

Definition log (err : bool) (msg : string) : M unit :=
  perform (ELog err msg) ;; ret tt.

(** [await delay(ms)]. *)
Definition delay (d : duration) : M unit :=
  perform (EDelay d) ;; ret tt.

(** [await Promise.race([call, delay(ms)])]: the call is started, then the
    timer, and the race settles with the first of the two.  It rejects
    when the call rejects before the timer fires, which is what [throws]
    says of a call that is raced. *)
Definition race (ev : event) (d : duration) : M unit :=
  fun o n =>
    let a := o n ev in
    let b := o (S n) (EDelay d) in
    ((if throws a then Throw (error a) else Val tt),
     [(ev, a); (EDelay d, b)]).

Definition random : M JsNumber.draw :=
  a <- perform ERandom ;; ret (drawn a).

(** [for (const x of xs) { body(x) }]; the values of the body are kept. *)
Fixpoint for_of {A B} (xs : list A) (body : A -> M B) : M (list B) :=
  match xs with
  | [] => ret []
  | x :: xs' => b <- body x ;; bs <- for_of xs' body ;; ret (b :: bs)
  end.

(** The calls of a run, without their answers. *)
Definition calls (t : list entry) : list event := map fst t.

(** *** What is said of a computation *)

(** Every call of [m] satisfies [P], whatever the world answers. *)
Definition only {A} (P : event -> Prop) (m : M A) : Prop :=
  forall o n, Forall (fun e : entry => P (fst e)) (snd (m o n)).

(** Every value that [m] returns satisfies [Q]. *)
Definition yields {A} (Q : A -> Prop) (m : M A) : Prop :=
  forall o n a t, m o n = (Val a, t) -> Q a.

(** Under the oracle [o], [m] always comes to an end. *)
Definition settles {A} (o : oracle) (m : M A) : Prop :=
  forall n, fst (m o n) <> Diverge.

(** Under the oracle [o], [m] always returns a value. *)
Definition succeeds {A} (o : oracle) (m : M A) : Prop :=
  forall n, exists a t, m o n = (Val a, t).

(** ** What both scripts share *)

Module Common.

Import JsString.

Definition chromiumPath : string := "/usr/bin/chromium".

Definition userAgents : list string :=
  [ "Mozilla/5.0 (Windows NT 10.0; Win64; x64) AppleWebKit/537.36 (KHTML, like Gecko) Chrome/124.0.0.0 Safari/537.36";
    "Mozilla/5.0 (X11; Linux x86_64) AppleWebKit/537.36 (KHTML, like Gecko) Chrome/123.0.0.0 Safari/537.36";
    "Mozilla/5.0 (Macintosh; Intel Mac OS X 10_15_7) AppleWebKit/605.1.15 (KHTML, like Gecko) Version/17.0 Safari/605.1.15" ].

(** [xs[Math.floor(r * xs.length)]]; [None] is [undefined]. *)
Definition pick {A} (xs : list A) (r : JsNumber.draw) : option A :=
  nth_error xs (Z.to_nat (JsNumber.random_below r (Z.of_nat (length xs)))).

Definition getRandomUserAgent : M (option string) :=
  r <- random ;; ret (pick userAgents r).

(** [auth.json] as the script finds it.  [AuthInvalid] stands for a file
    on which reading, [JSON.parse] or the access to the fields throws; a
    field is [None] when the object lacks it, and the fields present are
    strings. *)
Inductive auth_file : Type :=
| AuthMissing
| AuthInvalid
| AuthJson (auth_token ct0 : option string).

(** [!!v] for a field that is absent or a string. *)
Definition truthy (v : option string) : bool :=
  match v with Some s => negb (is_empty s) | None => false end.

Record cookies : Type := Cookies { ct0_value : string; auth_token_value : string }.

(** How a process ends: its top-level code and [main] run to completion,
    [process.exit(code)] is called, an exception or a rejection is left
    unhandled, or it never ends. *)
Inductive outcome : Type :=
| Completed
| Exited (code : Z)
| Uncaught
| Hangs.

(** Node reports 0 for a process that runs to completion and 1 for one
    that dies of an uncaught exception. *)
Definition exit_code (o : outcome) : option Z :=
  match o with
  | Completed => Some 0%Z
  | Exited c => Some c
  | Uncaught => Some 1%Z
  | Hangs => None
  end.

Definition process : Type := oracle -> nat -> outcome * list entry.

(** [before; process.exit(code)]. *)
Definition exit_after (before : M unit) (code : Z) : process :=
  fun o n =>
    let (_, t) := (before ;; perform (EExit code)) o n in (Exited code, t).

(** The end of a process whose last act is the call of [main()]. *)
Definition run_main (main : M unit) : process :=
  fun o n =>
    match main o n with
    | (Val _, t) => (Completed, t)
    | (Throw _, t) => (Uncaught, t)
    | (Diverge, t) => (Hangs, t)
    end.

Definition is_browser_call (ev : event) : bool :=
  match ev with
  | ELog _ _ | EExit _ | ERandom | EDelay _ | EWriteFile _ _ => false
  | _ => true
  end.

(** The calls that cannot reject: the console, the timers, the random
    source, [process.exit], and the click that the callback of
    [page.evaluate] makes inside the page. *)
Definition never_rejects (ev : event) : bool :=
  match ev with
  | ELog _ _ | EExit _ | ERandom | EDelay _ | EElementClick _ => true
  | _ => false
  end.

(** The call of an entry was rejected. *)
Definition rejected (e : entry) : bool :=
  negb (never_rejects (fst e)) && throws (snd e).

(** Calls that create or change a file. *)
Definition is_file_write (ev : event) : bool :=
  match ev with
  | EWriteFile _ _ | EScreenshot _ => true
  | _ => false
  end.

End Common.

(** ** The scraper *)

Module Scraper.

Import JsString Common.

Definition targetKeywords : list string := ["Giverep"; "giverep"].
(** [path.join(process.cwd(), 'tweets_to_reply.txt')]: the file of that
    name in the working directory, where the dispatcher looks for it. *)
Definition outputFile : string := "tweets_to_reply.txt".
Definition maxTweetsPerKeyword : nat := 100.
Definition maxScrollTries : nat := 20.

(** [logAny] picks one of the eight styles at random for each message. *)
Definition logAny (msg : string) : M unit :=
  random ;; log false msg.

Definition launchArgs (proxy : string) : list string :=
  ["--no-sandbox"; "--disable-dev-shm-usage"; "--window-size=1920,1080"]
  ++ (if is_empty proxy then [] else [("--proxy-server=" ++ proxy)%string]).

Definition initializeBrowser (proxy : string) (c : cookies) : M unit :=
  (if is_empty proxy then ret tt
   else logAny ("Using proxy: " ++ proxy)%string) ;;
  userAgent <- getRandomUserAgent ;;
  logAny ("User-Agent: " ++ show_opt userAgent)%string ;;
  logAny "Launching browser..." ;;
  call (ELaunch (launchArgs proxy)) ;;
  call ENewPage ;;
  call (ESetUserAgent userAgent) ;;
  call (ESetDefaultNavigationTimeout 60000) ;;
  logAny "Opening https://x.com/ for login..." ;;
  call (EGoto "https://x.com/") ;;
  logAny "Setting Twitter auth cookies..." ;;
  call (ESetCookie (ct0_value c) (auth_token_value c)) ;;
  logAny "Reloading page to apply authentication..." ;;
  call EReload ;;
  delay (Millis 1000) ;;
  logAny "Should be logged in now!".

(** The href filter and the [new Set] of the [$$eval] callback. *)
Definition page_urls (hrefs : list string) : list string :=
  uniq (filter is_tweet_url hrefs).

Inductive step : Type :=
| Stop (tweetUrlSet : list string)
| Again (tweetUrlSet : list string) (lastHeight : Z) (scrollTries : nat).

(** The end of a turn of the [while] loop that does not [break]: scroll,
    wait, measure, count the stalls. *)
Definition scroll_on (tweetUrlSet : list string) (lastHeight : Z)
    (scrollTries : nat) : M step :=
  call EScrollToBottom ;;
  r <- random ;;
  delay (ScrollPause r) ;;
  h <- call EScrollHeight ;;
  let newHeight := number h in
  if (newHeight =? lastHeight)%Z then
    ret (Again tweetUrlSet lastHeight (S scrollTries))
  else
    ret (Again tweetUrlSet newHeight 0%nat).

(** One turn of the [while] loop of [scrapeUrlsForKeyword]. *)
Definition loop_body (tweetUrlSet : list string) (lastHeight : Z)
    (scrollTries : nat) : M step :=
  a <- call ELinks ;;
  let tweetUrlSet := set_add_all (page_urls (strings a)) tweetUrlSet in
  logAny ("Collected " ++ show_nat (length tweetUrlSet)
          ++ " unique tweets so far...")%string ;;
  if (maxTweetsPerKeyword <=? length tweetUrlSet)%nat then
    ret (Stop tweetUrlSet)
  else
    scroll_on tweetUrlSet lastHeight scrollTries.

(** The [while] loop; [fuel] bounds the number of turns of the model. *)
Fixpoint collect_loop (fuel : nat) (tweetUrlSet : list string)
    (lastHeight : Z) (scrollTries : nat) : M (list string) :=
  if (length tweetUrlSet <? maxTweetsPerKeyword)%nat
     && (scrollTries <? maxScrollTries)%nat
  then
    match fuel with
    | O => diverge
    | S fuel' =>
        s <- loop_body tweetUrlSet lastHeight scrollTries ;;
        match s with
        | Stop set' => ret set'
        | Again set' h tries => collect_loop fuel' set' h tries
        end
    end
  else ret tweetUrlSet.

Definition search_url (keyword : string) : string :=
  ("https://x.com/search?q=" ++ encodeURIComponent keyword
   ++ "&src=spelling_expansion_revert_click")%string.

Definition tweetText_selector : string :=
  ("[data-testid=" ++ dquote ++ "tweetText" ++ dquote ++ "]")%string.

Definition scrapeUrlsForKeyword (fuel : nat) (keyword : string)
    : M (list string) :=
  logAny ("Navigating to search page for keyword: " ++ keyword)%string ;;
  failure <- caught (call (EGoto (search_url keyword))) ;;
  match failure with
  | Some e => logAny ("Error: " ++ e)%string ;; ret []
  | None =>
    attempt (race (EWaitForSelector tweetText_selector 8000) (Millis 8000)) ;;
    h <- call EScrollHeight ;;
    tweetUrlSet <- collect_loop fuel [] (number h) 0 ;;
    logAny ("Found " ++ show_nat (length tweetUrlSet)
            ++ " tweet URLs for keyword: " ++ keyword)%string ;;
    (if (length tweetUrlSet =? 0)%nat then
       logAny ("No tweets found for " ++ dquote ++ keyword ++ dquote
               ++ ". Screenshotting for debug...")%string ;;
       call (EScreenshot ("no_tweets_" ++ sanitize keyword ++ ".png")%string) ;;
       ret tt
     else ret tt) ;;
    ret (firstn maxTweetsPerKeyword tweetUrlSet)
  end.

(** The loop of [main] over the keywords, [allUrls] being the set. *)
Fixpoint scrape_all (fuel : nat) (keywords : list string)
    (allUrls : list string) : M (list string) :=
  match keywords with
  | [] => ret allUrls
  | keyword :: rest =>
      urls <- scrapeUrlsForKeyword fuel keyword ;;
      scrape_all fuel rest (set_add_all urls allUrls)
  end.

(** [main] up to the point where the set of all URLs is complete. *)
Definition gather (fuel : nat) (proxy : string) (c : cookies)
    (keywordList : list string) : M (list string) :=
  initializeBrowser proxy c ;;
  let keywords := uniq (map toLowerCase keywordList) in
  scrape_all fuel keywords [].

(** The rest of [main]: save, close. *)
Definition save (allUrls : list string) : M unit :=
  (if (0 <? length allUrls)%nat then
     call (EWriteFile outputFile (join newline allUrls)) ;;
     logAny ("Saved " ++ show_nat (length allUrls) ++ " tweet URLs to "
             ++ outputFile)%string
   else logAny "No tweet URLs found for any keyword.") ;;
  call EBrowserClose ;;
  logAny "Exited gracefully. Goodbye!".

Definition main (fuel : nat) (proxy : string) (c : cookies)
    (keywordList : list string) : M unit :=
  allUrls <- gather fuel proxy c keywordList ;;
  save allUrls.

(** The script from its first line: the check of [auth.json], then
    [main()]. *)
Definition script (fuel : nat) (proxy : string) (auth : auth_file)
    (keywordList : list string) : process :=
  match auth with
  | AuthMissing => exit_after (logAny "Missing auth.json file!") 1
  | AuthInvalid => fun _ _ => (Uncaught, [])
  | AuthJson auth_token ct0 =>
      if negb (truthy auth_token) || negb (truthy ct0) then
        exit_after
          (logAny "auth.json must have both 'auth_token' and 'ct0'!") 1
      else
        run_main (main fuel proxy
                    (Cookies (show_opt ct0) (show_opt auth_token))
                    keywordList)
  end.

End Scraper.

(** ** The reply dispatcher *)

Module Dispatcher.

Import JsString Common Dom.

Definition logInfo (msg : string) : M unit := log false msg.
Definition logError (msg : string) : M unit := log true msg.

(** [readFileSync(f).split('\n').map(line => line.trim()).filter(Boolean)] *)
Definition read_lines (content : string) : list string :=
  filter (fun line => negb (is_empty line)) (map trim (split_lines content)).

Definition getCannedReply (cannedComments : list string)
    : M (option string) :=
  r <- random ;; ret (pick cannedComments r).

Definition launchArgs (proxy : string) : list string :=
  ["--no-sandbox"; "--disable-dev-shm-usage"; "--window-size=1920,1080"]
  ++ (if is_empty proxy then [] else [("--proxy-server=" ++ proxy)%string]).

Definition initializeBrowser (proxy : string) (c : cookies) : M unit :=
  (if is_empty proxy then ret tt
   else logInfo ("Using proxy: " ++ proxy)%string) ;;
  userAgent <- getRandomUserAgent ;;
  logInfo ("User-Agent: " ++ show_opt userAgent)%string ;;
  logInfo "Launching browser..." ;;
  call (ELaunch (launchArgs proxy)) ;;
  call ENewPage ;;
  call (ESetUserAgent userAgent) ;;
  call (ESetDefaultNavigationTimeout 60000) ;;
  logInfo "Opening https://x.com/ for login..." ;;
  call (EGoto "https://x.com/") ;;
  logInfo "Setting Twitter auth cookies..." ;;
  call (ESetCookie (ct0_value c) (auth_token_value c)) ;;
  logInfo "Reloading page to apply authentication..." ;;
  call EReload ;;
  delay (Millis 2000) ;;
  logInfo "Should be logged in now!".

(** [isVisibleAndEnabled]; the computed style of an element is an object,
    hence truthy. *)
Definition isVisibleAndEnabled (btn : element) : bool :=
  negb (visibility btn =? "hidden")%string
  && negb (display btn =? "none")%string
  && negb (disabled btn)
  && match aria_disabled btn with
     | None => true
     | Some v => (v =? "false")%string
     end.

(** [v ? v.trim().toLowerCase() : ''] *)
Definition normalized (v : option string) : string :=
  match v with
  | Some t => if is_empty t then "" else toLowerCase (trim t)
  | None => ""
  end.

(** The test of the [for] loop of [clickReplyButtonByLabel]. *)
Definition is_reply_control (btn : element) : bool :=
  ((normalized (textContent btn) =? "reply")%string
   || (normalized (aria_label btn) =? "reply")%string)
  && isVisibleAndEnabled btn.

(** The loop over the candidates, in document order: the position of the
    element that is clicked, counted from [i]. *)
Fixpoint first_reply_control (i : nat) (candidates : list element)
    : option nat :=
  match candidates with
  | [] => None
  | btn :: rest =>
      if is_reply_control btn then Some i
      else first_reply_control (S i) rest
  end.

(** [clickReplyButtonByLabel]: one [page.evaluate] whose callback walks
    over the candidates of the dialog and clicks. *)
Definition clickReplyButtonByLabel : M bool :=
  a <- call EDialogCandidates ;;
  match first_reply_control 0 (elements a) with
  | Some i => perform (EElementClick i) ;; ret true
  | None => ret false
  end.

Definition reply_selector : string :=
  ("[data-testid=" ++ dquote ++ "reply" ++ dquote ++ "]")%string.

Definition textarea_selector : string :=
  ("[data-testid=" ++ dquote ++ "tweetTextarea_0" ++ dquote ++ "]")%string.

(** The body of the [try] block of [replyToTweet]. *)
Definition reply_steps (tweetId replyUrl : string)
    (replyText : option string) : M bool :=
  call (EGoto replyUrl) ;;
  loaded <- attempt (call (EWaitForSelector "article" 30000)) ;;
  if negb loaded then
    logError "Tweet article did not load within 30s. Skipping..." ;;
    call (EScreenshot ("no_article_" ++ tweetId ++ ".png")%string) ;;
    call EPageClose ;;
    ret false
  else
    delay (Millis 1000) ;;
    call EScrollIntoView ;;
    delay (Millis 800) ;;
    call (EWaitForSelector reply_selector 15000) ;;
    call (EClick reply_selector) ;;
    delay (Millis 1000) ;;
    call (EWaitForSelector textarea_selector 15000) ;;
    call (EType textarea_selector replyText) ;;
    clicked <- clickReplyButtonByLabel ;;
    if clicked then
      logInfo ("Reply button detected and clicked for tweet " ++ tweetId
               ++ ".")%string ;;
      delay (Millis 3000) ;;
      call (EScreenshot ("reply_sent_" ++ tweetId ++ ".png")%string) ;;
      call EPageClose ;;
      logInfo ("Replied to tweet: " ++ replyUrl)%string ;;
      ret true
    else
      logError ("Reply button NOT found by label for tweet " ++ tweetId
                ++ ".")%string ;;
      call (EScreenshot ("reply_error_" ++ tweetId ++ ".png")%string) ;;
      call EPageClose ;;
      ret false.

(** The [catch] block of [replyToTweet]. *)
Definition reply_failed (tweetUrl tweetId : string) (e : string) : M bool :=
  logError ("Error replying to tweet " ++ tweetUrl ++ ": " ++ e)%string ;;
  call (EScreenshot ("reply_error_" ++ tweetId ++ ".png")%string) ;;
  call EPageClose ;;
  ret false.

(** What [replyToTweet] does before its [try] block: the page of the
    item. *)
Definition open_page (replyUrl : string) : M unit :=
  logInfo ("Opening tweet to reply: " ++ replyUrl)%string ;;
  call ENewPage ;;
  ua <- getRandomUserAgent ;;
  call (ESetUserAgent ua) ;;
  ret tt.

Definition replyToTweet (tweetUrl : string) (replyText : option string)
    : M bool :=
  match match_status tweetUrl with
  | None =>
      logError ("Could not extract tweetId from url: " ++ tweetUrl)%string ;;
      ret false
  | Some tweetId =>
      let replyUrl := ("https://x.com/i/web/status/" ++ tweetId)%string in
      open_page replyUrl ;;
      try_catch (reply_steps tweetId replyUrl replyText)
                (reply_failed tweetUrl tweetId)
  end.

(** [Math.floor(Math.random() * 7000) + 5000] *)
Definition replyDelay (r : JsNumber.draw) : Z :=
  (JsNumber.random_below r 7000 + 5000)%Z.

(** The body of the [for] loop of [main]; its value is [success]. *)
Definition reply_round (cannedComments : list string) (tweetUrl : string)
    : M bool :=
  replyText <- getCannedReply cannedComments ;;
  logInfo ("Preparing to reply to tweet " ++ tweetUrl ++ " with: " ++ dquote
           ++ show_opt replyText ++ dquote)%string ;;
  success <- replyToTweet tweetUrl replyText ;;
  (if negb success then logError ("Failed to reply to " ++ tweetUrl)%string
   else ret tt) ;;
  r <- random ;;
  logInfo ("Waiting "
           ++ JsNumber.toFixed2 (JsNumber.div_int (replyDelay r) 1000)
           ++ " seconds before next reply...")%string ;;
  delay (Millis (replyDelay r)) ;;
  ret success.

(** The [for] loop of [main]. *)
Definition reply_all (tweetUrls cannedComments : list string)
    : M (list bool) :=
  for_of tweetUrls (reply_round cannedComments).

Definition main (proxy : string) (c : cookies)
    (tweetUrls cannedComments : list string) : M unit :=
  initializeBrowser proxy c ;;
  reply_all tweetUrls cannedComments ;;
  call EBrowserClose ;;
  logInfo "Exited gracefully. Goodbye!".

(** The three input files: [None] when [existsSync] answers false. *)
Record files : Type := Files {
  tweetsFile : option string;
  commentsFile : option string;
  authFile : auth_file
}.

(** The script from its first line: the checks of the input files, then
    [main()]. *)
Definition script (proxy : string) (fs : files) : process :=
  match tweetsFile fs with
  | None =>
      exit_after
        (logError
           "Missing tweets_to_reply.txt file! Run the scraping script first.")
        1
  | Some tweets =>
  match commentsFile fs with
  | None => exit_after (logError "Missing comments.txt file!") 1
  | Some comments =>
  match authFile fs with
  | AuthMissing => exit_after (logError "Missing auth.json file!") 1
  | AuthInvalid => fun _ _ => (Uncaught, [])
  | AuthJson auth_token ct0 =>
      if negb (truthy auth_token) || negb (truthy ct0) then
        exit_after
          (logError "auth.json must have both 'auth_token' and 'ct0'!") 1
      else
        run_main (main proxy (Cookies (show_opt ct0) (show_opt auth_token))
                    (read_lines tweets) (read_lines comments))
  end end end.

End Dispatcher.

(** ** The words of the specification *)

Module Spec.

Import JsString.

(** The canonical detail URL: [https://x.com/<user>/status/<digits>],
    with a non-empty user without slash and a non-empty run of digits. *)
Definition canonical_url (s : string) : Prop :=
  exists user id : string,
    s = ("https://x.com/" ++ user ++ "/status/" ++ id)%string
    /\ user <> "" /\ all_chars not_slash user = true
    /\ id <> "" /\ all_chars is_digit id = true.

(** A string that contains [status/] followed by at least one digit. *)
Definition has_status_id (s : string) : Prop :=
  exists (pre : string) (d : ascii) (rest : string),
    s = (pre ++ "status/" ++ String d rest)%string /\ is_digit d = true.

(** A string without line feed. *)
Definition no_LF (s : string) : bool :=
  all_chars (fun c => negb (Ascii.eqb c LF)) s.

(** A blank line: nothing but white space. *)
Definition blank (s : string) : Prop := all_chars is_space s = true.

Definition first_char (s : string) : option ascii :=
  match s with EmptyString => None | String c _ => Some c end.

Fixpoint last_char (s : string) : option ascii :=
  match s with
  | EmptyString => None
  | String c EmptyString => Some c
  | String _ r => last_char r
  end.

(** Equal to [reply] up to the case of the letters, with no trimming. *)
Definition says_reply (v : option string) : bool :=
  match v with
  | Some t => (toLowerCase t =? "reply")%string
  | None => false
  end.

(** The same, after the surrounding white space is removed. *)
Definition says_reply_trimmed (v : option string) : bool :=
  match v with
  | Some t => (toLowerCase (trim t) =? "reply")%string
  | None => false
  end.

(** The submit control of the specification: the text or the label says
    [reply], and the element is visible, not disabled and not marked
    disabled for accessibility. *)
Definition enabled_control (btn : Dom.element) : Prop :=
  Dom.visibility btn <> "hidden" /\ Dom.display btn <> "none"
  /\ Dom.disabled btn = false
  /\ (Dom.aria_disabled btn = None \/ Dom.aria_disabled btn = Some "false").

Definition submit_control_exact (btn : Dom.element) : Prop :=
  (says_reply (Dom.textContent btn) = true
   \/ says_reply (Dom.aria_label btn) = true)
  /\ enabled_control btn.

Definition submit_control (btn : Dom.element) : Prop :=
  (says_reply_trimmed (Dom.textContent btn) = true
   \/ says_reply_trimmed (Dom.aria_label btn) = true)
  /\ enabled_control btn.

(** The hrefs that passed the filter of the scraper, in the order in
    which a run saw them. *)
Definition links_seen (t : list entry) : list string :=
  flat_map (fun e : entry =>
              match fst e with
              | ELinks => filter is_tweet_url (strings (snd e))
              | _ => []
              end) t.

(** The run of [replyToTweet] from call [n] on, cut where the [try]
    block begins and ends: the calls made before the [try] block, those
    made inside it, and those of the [catch] block, which runs when the
    [try] block throws.  For a URL without identifier there is no [try]
    block: all the calls come before it. *)
Record reply_run : Type := ReplyRun {
  before_try : list entry;
  inside_try : list entry;
  in_catch : list entry
}.

Definition reply_parts (tweetUrl : string) (replyText : option string)
    (o : oracle) (n : nat) : reply_run :=
  match match_status tweetUrl with
  | None =>
      ReplyRun (snd (Dispatcher.replyToTweet tweetUrl replyText o n)) [] []
  | Some tweetId =>
      let replyUrl := ("https://x.com/i/web/status/" ++ tweetId)%string in
      let (r1, t1) := Dispatcher.open_page replyUrl o n in
      match r1 with
      | Val _ =>
          let k := (n + length t1)%nat in
          let (r2, t2) :=
            Dispatcher.reply_steps tweetId replyUrl replyText o k in
          match r2 with
          | Throw e =>
              ReplyRun t1 t2
                (snd (Dispatcher.reply_failed tweetUrl tweetId e o
                        (k + length t2)%nat))
          | _ => ReplyRun t1 t2 []
          end
      | _ => ReplyRun t1 [] []
      end
  end.

(** The calls that no [try] block encloses. *)
Definition outside_try (run : reply_run) : list entry :=
  before_try run ++ in_catch run.

(** No call of the list was rejected. *)
Definition all_accepted (t : list entry) : Prop :=
  Forall (fun e => Common.rejected e = false) t.

(** Some call of the list was rejected. *)
Definition some_rejected (t : list entry) : Prop :=
  Exists (fun e => Common.rejected e = true) t.

(** [m] stops at the first call that is rejected, and only there: a run
    that returns has seen no call rejected; a run that throws has seen its
    last call rejected, and no other, and throws what that call was
    rejected with; and [m] never runs for ever. *)
Definition stops_at_rejection {A} (m : M A) : Prop :=
  forall o n,
    match m o n with
    | (Val _, t) => all_accepted t
    | (Throw e, t) =>
        exists t' x,
          t = t' ++ [x] /\ Common.rejected x = true /\ e = error (snd x)
          /\ all_accepted t'
    | (Diverge, _) => False
    end.

(** The runs of [replyToTweet] in the loop of [main] started at call [n],
    one for each round that the loop reaches: a round draws its text with
    its first call, logs, and calls [replyToTweet]. *)
Fixpoint batch_parts (cannedComments tweetUrls : list string)
    (o : oracle) (n : nat) : list reply_run :=
  match tweetUrls with
  | [] => []
  | tweetUrl :: rest =>
      let replyText := Common.pick cannedComments (drawn (o n ERandom)) in
      reply_parts tweetUrl replyText o (n + 2)
      :: match Dispatcher.reply_round cannedComments tweetUrl o n with
         | (Val _, t) => batch_parts cannedComments rest o (n + length t)
         | _ => []
         end
  end.

(** The delay of the pacing computed on the reals, without the rounding
    of the product: [floor (r * 7000) + 5000]. *)
Definition exact_delay (r : JsNumber.draw) : Z :=
  ((JsNumber.units r * 7000) / JsNumber.one + 5000)%Z.

(** A list of canonical URLs without repetition. *)
Definition good_urls (l : list string) : Prop :=
  Forall canonical_url l /\ NoDup l.

Definition not_links (ev : event) : Prop := ev <> ELinks.

(** A call that neither touches the browser nor writes a file. *)
Definition harmless (e : entry) : Prop :=
  Common.is_browser_call (fst e) = false
  /\ Common.is_file_write (fst e) = false.

(** From the [n0]-th call on, every measure of the scroll height is [h]. *)
Definition stable_from (o : oracle) (n0 : nat) (h : Z) : Prop :=
  forall i, (n0 <= i)%nat -> number (o i EScrollHeight) = h.

(** A call that, if it writes a file, writes the list [allUrls], which is
    not empty, to the output file of the scraper. *)
Definition writes_list (allUrls : list string) (ev : event) : Prop :=
  match ev with
  | EWriteFile p data =>
      p = Scraper.outputFile /\ data = join newline allUrls /\ allUrls <> []
  | _ => True
  end.

(** A call that does not write the output list. *)
Definition not_write (ev : event) : Prop :=
  match ev with EWriteFile _ _ => False | _ => True end.

End Spec.

(** ** Some worlds *)

Module Worlds.

Import JsNumber.

(** A page that never changes: one tweet link, always the same height. *)
Definition still_page : oracle :=
  fun _ _ => Answer false "" 0 ["https://x.com/a/status/1"] [] draw_zero.

(** A page that grows for ever and shows no tweet: the height measured by
    the [i]-th call is [i]. *)
Definition growing_page : oracle :=
  fun i _ => Answer false "" (Z.of_nat i) [] [] draw_zero.

(** The largest value of [Math.random()]: [1 - 2^-53]. *)
Definition largest_draw : draw := Draw (one - 2 ^ 1021) eq_refl.

Definition some_cookies : Common.cookies := Common.Cookies "c" "t".

(** A dialog whose only candidate shows the text [Reply] between spaces. *)
Definition padded_button : Dom.element :=
  Dom.Element (Some " Reply ") None "visible" "block" false None.

Definition padded_dialog : oracle :=
  fun _ _ => Answer false "" 0 [] [padded_button] draw_zero.

(** A tab that has crashed: navigation and screenshots reject, the rest
    of the browser works. *)
Definition crashed_tab : oracle :=
  fun _ ev =>
    Answer (match ev with EGoto _ | EScreenshot _ => true | _ => false end)
           "Error: Page crashed!" 0 [] [] draw_zero.

(** A browser that refuses to open a page. *)
Definition no_new_page : oracle :=
  fun _ ev =>
    Answer (match ev with ENewPage => true | _ => false end)
           "Error: Target closed" 0 [] [] draw_zero.

(** Pages that open and close and let their screenshot be taken, and
    reject every other call: the navigation, the first call of the [try]
    block, fails for each item. *)
Definition failing_pages : oracle :=
  fun _ ev =>
    Answer (match ev with
            | ENewPage | ESetUserAgent _ | EPageClose | EScreenshot _ => false
            | _ => true
            end)
           "Error: Navigation timeout of 60000 ms exceeded"
           0 [] [] draw_zero.

(** A dialog with a plain reply button. *)
Definition reply_button : Dom.element :=
  Dom.Element (Some "Reply") None "visible" "block" false None.

(** Pages on which every step of a reply works, except that the close of
    the page is rejected once, at call [k]. *)
Definition stubborn_page (k : nat) : oracle :=
  fun i ev =>
    Answer (match ev with EPageClose => (i =? k)%nat | _ => false end)
           "Error: Protocol error (Target.closeTarget)"
           0 [] [reply_button] draw_zero.

(** A page that shows a hundred and fifty tweets at once. *)
Definition crowded_page : oracle :=
  fun _ _ =>
    Answer false "" 0
      (map (fun i => ("https://x.com/a/status/" ++ JsString.show_nat i)%string)
           (seq 1 150))
      [] draw_zero.

Definition two_tweets : list string :=
  ["https://x.com/a/status/1"; "https://x.com/b/status/2"].

(** A pool file with a padded line, an empty line and a plain line. *)
Definition some_pool : string :=
  ("  hi  " ++ JsString.newline ++ JsString.newline ++ "yo")%string.

End Worlds.

(** ** More words, for the properties of the rest of the code *)

Module MoreSpec.

Import JsString.

(** A character that [sanitize] lets through or writes. *)
Definition name_char (c : ascii) : bool :=
  is_alnum c || Ascii.eqb c "_"%char.

(** The URLs of the navigations of a run, in order. *)
Definition gotos (t : list entry) : list string :=
  flat_map (fun e : entry =>
              match fst e with EGoto u => [u] | _ => [] end) t.

(** The calls of a run that the world let succeed. *)
Definition succeeded (ev : event) (t : list entry) : nat :=
  length (filter (fun e : entry =>
                    match ev, fst e with
                    | EPageClose, EPageClose => negb (throws (snd e))
                    | EBrowserClose, EBrowserClose => negb (throws (snd e))
                    | _, _ => false
                    end) t).

(** The time, in milliseconds, that a run spends in the sleeps of fixed
    or drawn length (the pause of the scroll loop is not counted). *)
Definition slept (t : list entry) : Z :=
  fold_right (fun (e : entry) acc =>
                match fst e with
                | EDelay (Millis ms) => (ms + acc)%Z
                | _ => acc
                end) 0%Z t.

(** The calls on the browser of a run, in order. *)
Definition browser_calls (t : list entry) : list event :=
  filter Common.is_browser_call (calls t).

(** A call that acts on the content of the page of an item. *)
Definition touches_tweet (ev : event) : bool :=
  match ev with
  | EClick _ | EType _ _ | EDialogCandidates | EElementClick _
  | EScrollIntoView => true
  | _ => false
  end.

(** The calls on the browser of [initializeBrowser], in order. *)
Definition login_sequence (args : list string) (ua : string)
    (c : Common.cookies) : list event :=
  [ ELaunch args; ENewPage; ESetUserAgent (Some ua);
    ESetDefaultNavigationTimeout 60000; EGoto "https://x.com/";
    ESetCookie (Common.ct0_value c) (Common.auth_token_value c); EReload ].

(** The calls on the browser of [m] are the list [L] when it returns, and
    a beginning of [L] when it throws; [m] never runs for ever. *)
Definition plays {A} (L : list event) (m : M A) : Prop :=
  forall o n,
    exists k,
      browser_calls (snd (m o n)) = firstn k L
      /\ (k <= length L)%nat
      /\ match fst (m o n) with
         | Val _ => k = length L
         | Throw _ => True
         | Diverge => False
         end.

(** [m] makes the call [ev] succeed once when it returns, and never when
    it does not. *)
Definition once_iff_returns {A} (ev : event) (m : M A) : Prop :=
  forall o n,
    match m o n with
    | (Val _, t) => succeeded ev t = 1%nat
    | (_, t) => succeeded ev t = 0%nat
    end.

(** [m] returns, and never makes the call [ev] succeed. *)
Definition returns_without {A} (ev : event) (m : M A) : Prop :=
  forall o n,
    succeeded ev (snd (m o n)) = 0%nat
    /\ exists a, fst (m o n) = Val a.

Definition not_goto (ev : event) : Prop := forall u, ev <> EGoto u.

Definition not_screenshot (ev : event) : Prop := forall p, ev <> EScreenshot p.

(** The file names of the screenshots of a run, in order. *)
Definition screenshots (t : list entry) : list string :=
  flat_map (fun e : entry =>
              match fst e with EScreenshot p => [p] | _ => [] end) t.

(** Some navigation of the run succeeded. *)
Definition navigated (t : list entry) : bool :=
  existsb (fun e : entry =>
             match fst e with
             | EGoto _ => negb (throws (snd e))
             | _ => false
             end) t.

(** A call that is not a sleep of a given length. *)
Definition no_sleep (ev : event) : Prop :=
  forall ms, ev <> EDelay (Millis ms).

(** Every run of [m] sleeps [hi] milliseconds at most. *)
Definition sleeps_at_most {A} (hi : Z) (m : M A) : Prop :=
  forall o n, (0 <= slept (snd (m o n)) <= hi)%Z.

(** The calls of a run that act on the content of the page of an item. *)
Definition touched (t : list entry) : list event :=
  filter touches_tweet (calls t).

Definition leaves_tweet (ev : event) : Prop := touches_tweet ev = false.

(** The number of times that a run has collected the links of the page. *)
Definition collections (t : list entry) : nat :=
  length (filter (fun e : entry =>
                    match fst e with ELinks => true | _ => false end) t).

(** A call that types nothing but [text]. *)
Definition types_only (text : option string) (ev : event) : Prop :=
  forall selector x, ev = EType selector x -> x = text.

Definition off_browser (ev : event) : Prop :=
  Common.is_browser_call ev = false.

(** A run of [m] that acts on the content of the page has seen the
    article of the tweet load. *)
Definition waits_for_article {A} (m : M A) : Prop :=
  forall o n,
    touched (snd (m o n)) = []
    \/ exists a, In (EWaitForSelector "article" 30000, a) (snd (m o n))
                 /\ throws a = false.

(** The calls on the browser of a reply that succeeds. *)
Definition reply_sequence (id ua : string) (text : option string) (i : nat)
    : list event :=
  [ ENewPage; ESetUserAgent (Some ua);
    EGoto ("https://x.com/i/web/status/" ++ id)%string;
    EWaitForSelector "article" 30000;
    EScrollIntoView;
    EWaitForSelector Dispatcher.reply_selector 15000;
    EClick Dispatcher.reply_selector;
    EWaitForSelector Dispatcher.textarea_selector 15000;
    EType Dispatcher.textarea_selector text;
    EDialogCandidates; EElementClick i;
    EScreenshot ("reply_sent_" ++ id ++ ".png")%string;
    EPageClose ].

Definition has_id (url : string) : bool :=
  match match_status url with Some _ => true | None => false end.

End MoreSpec.

Module MoreWorlds.

Import JsNumber.

(** A page that shows no tweet and never changes. *)
Definition empty_page : oracle :=
  fun _ _ => Answer false "" 0 [] [] draw_zero.

End MoreWorlds.

(* ================================================================== *)
(** * Part II: properties *)
(* ================================================================== *)

(** ** Strings *)

Module StringFacts.

Import JsString Spec.

Lemma is_empty_true (s : string) : is_empty s = true <-> s = "".
Proof. destruct s; simpl; split; congruence. Qed.

Lemma is_empty_false (s : string) : is_empty s = false <-> s <> "".
Proof. destruct s; simpl; split; congruence. Qed.

Lemma strip_prefix_app (p s : string) :
  strip_prefix p (p ++ s)%string = Some s.
Proof.
  induction p as [|a p IH]; simpl; [reflexivity|].
  now rewrite Ascii.eqb_refl.
Qed.

Lemma strip_prefix_inv (p s r : string) :
  strip_prefix p s = Some r -> s = (p ++ r)%string.
Proof.
  revert s; induction p as [|a p IH]; simpl; intros s H.
  - congruence.
  - destruct s as [|b s]; [discriminate|].
    destruct (Ascii.eqb a b) eqn:E; [|discriminate].
    apply Ascii.eqb_eq in E; subst b. now rewrite (IH _ H).
Qed.

Lemma span_app (f : ascii -> bool) (s : string) :
  s = (fst (span f s) ++ snd (span f s))%string.
Proof.
  induction s as [|c r IH]; simpl; [reflexivity|].
  destruct (f c); simpl; [|reflexivity].
  destruct (span f r); simpl in *. now rewrite <- IH.
Qed.

Lemma span_all (f : ascii -> bool) (s : string) :
  all_chars f (fst (span f s)) = true.
Proof.
  induction s as [|c r IH]; simpl; [reflexivity|].
  destruct (f c) eqn:E; simpl; [|reflexivity].
  destruct (span f r); simpl in *. now rewrite E.
Qed.

(** A greedy class followed by something that it rejects. *)
Lemma span_stop (f : ascii -> bool) (a : string) (c : ascii) (r : string) :
  all_chars f a = true -> f c = false ->
  span f (a ++ String c r)%string = (a, String c r).
Proof.
  intros Ha Hc. induction a as [|x a IH]; simpl in *.
  - now rewrite Hc.
  - apply andb_true_iff in Ha as [Hx Ha]. rewrite Hx, (IH Ha). reflexivity.
Qed.

Lemma span_whole (f : ascii -> bool) (a : string) :
  all_chars f a = true -> span f a = (a, "").
Proof.
  intros Ha. induction a as [|x a IH]; simpl in *; [reflexivity|].
  apply andb_true_iff in Ha as [Hx Ha]. now rewrite Hx, (IH Ha).
Qed.

Lemma span_rest_stops (f : ascii -> bool) (s : string) (c : ascii)
    (r : string) :
  snd (span f s) = String c r -> f c = false.
Proof.
  induction s as [|x s IH]; simpl; [discriminate|].
  destruct (f x) eqn:E.
  - destruct (span f s); simpl in *. exact IH.
  - simpl. intros H. injection H as Hx _. now subst x.
Qed.

Lemma append_assoc (a b c : string) :
  ((a ++ b) ++ c)%string = (a ++ (b ++ c))%string.
Proof. induction a; simpl; congruence. Qed.

Lemma append_nil_r (a : string) : (a ++ "")%string = a.
Proof. induction a; simpl; congruence. Qed.

(** The matcher of the scraper decides the canonical pattern. *)
Lemma is_tweet_url_spec (s : string) :
  is_tweet_url s = true <-> canonical_url s.
Proof.
  unfold is_tweet_url, canonical_url. split.
  - destruct (strip_prefix "https://x.com/" s) as [r|] eqn:Hp;
      [|discriminate].
    apply strip_prefix_inv in Hp.
    pose proof (span_app not_slash r) as Hr.
    pose proof (span_all not_slash r) as Hu.
    destruct (span not_slash r) as [user r1]; cbn [fst snd] in *.
    intros H. apply andb_true_iff in H as [Hne H].
    destruct (strip_prefix "/status/" r1) as [d|] eqn:Hs; [|discriminate].
    apply strip_prefix_inv in Hs.
    apply andb_true_iff in H as [Hd Hdig].
    exists user, d. repeat split; auto.
    + now rewrite Hp, Hr, Hs.
    + apply is_empty_false. now destruct (is_empty user).
    + apply is_empty_false. now destruct (is_empty d).
  - intros (user & id & -> & Hu & Hns & Hi & Hd).
    rewrite strip_prefix_app.
    change ("/status/" ++ id)%string
      with (String "/" ("status/" ++ id))%string.
    rewrite span_stop by (auto; reflexivity).
    apply is_empty_false in Hu, Hi. rewrite Hu. simpl.
    now rewrite Hi, Hd.
Qed.

Lemma span_nonempty (f : ascii -> bool) (s : string) :
  fst (span f s) <> "" ->
  exists c r, s = String c r /\ f c = true.
Proof.
  destruct s as [|c r]; simpl; [congruence|].
  destruct (f c) eqn:E; simpl; [|congruence].
  intros _. now exists c, r.
Qed.

Lemma status_here_spec (s d : string) :
  status_here s = Some d ->
  exists c r, s = ("status/" ++ String c r)%string /\ is_digit c = true.
Proof.
  unfold status_here.
  destruct (strip_prefix "status/" s) as [r|] eqn:Hp; [|discriminate].
  apply strip_prefix_inv in Hp.
  destruct (is_empty (fst (span is_digit r))) eqn:He; [discriminate|].
  intros _. apply is_empty_false, span_nonempty in He as (c & r' & -> & Hc).
  now exists c, r'.
Qed.

Lemma status_here_digit (c : ascii) (r : string) :
  is_digit c = true ->
  status_here ("status/" ++ String c r)%string <> None.
Proof.
  intros Hc. unfold status_here. rewrite strip_prefix_app.
  simpl span. rewrite Hc. destruct (span is_digit r). simpl. congruence.
Qed.

(** [match] finds an identifier exactly in the strings that hold one. *)
Lemma match_status_spec (s : string) :
  match_status s <> None <-> has_status_id s.
Proof.
  split.
  - induction s as [|c s IH]; intros H.
    + simpl in H. destruct (status_here "") eqn:E; [|congruence].
      apply status_here_spec in E as (x & r & E & _). discriminate.
    + cbn [match_status] in H.
      destruct (status_here (String c s)) eqn:E.
      * apply status_here_spec in E as (x & r & E & Hx).
        exists "", x, r. split; auto.
      * destruct (IH H) as (pre & x & r & -> & Hx).
        exists (String c pre), x, r. split; auto.
  - intros (pre & x & r & -> & Hx).
    induction pre as [|c pre IH].
    + pose proof (status_here_digit x r Hx) as Hh. simpl append.
      change (String "s" (String "t" (String "a" (String "t" (String "u"
               (String "s" (String "/" (String x r))))))))
        with ("status/" ++ String x r)%string.
      destruct ("status/" ++ String x r)%string eqn:Es; [discriminate|].
      cbn [match_status].
      destruct (status_here (String a s)); congruence.
    + simpl append. cbn [match_status].
      destruct (status_here _); [congruence|exact IH].
Qed.

Lemma match_status_none (s : string) :
  ~ has_status_id s -> match_status s = None.
Proof.
  intros H. destruct (match_status s) eqn:E; [|reflexivity].
  exfalso. apply H, match_status_spec. congruence.
Qed.

(** *** [trim] *)

Lemma trimStart_blank (s : string) :
  trimStart s = "" <-> blank s.
Proof.
  unfold blank. induction s as [|c r IH]; simpl; [tauto|].
  destruct (is_space c); simpl; [exact IH|].
  split; discriminate.
Qed.

Lemma trimEnd_blank (s : string) :
  trimEnd s = "" <-> blank s.
Proof.
  unfold blank. induction s as [|c r IH]; simpl; [tauto|].
  destruct (is_space c); simpl.
  - destruct (trimEnd r) eqn:E; simpl.
    + split; auto. intros _. now apply IH.
    + split; [discriminate|]. intros H. apply IH in H. discriminate.
  - split; discriminate.
Qed.

Lemma trimStart_keeps_blank (s : string) :
  blank (trimStart s) <-> blank s.
Proof.
  unfold blank. induction s as [|c r IH]; simpl; [tauto|].
  destruct (is_space c) eqn:E; simpl; [exact IH|].
  rewrite E. tauto.
Qed.

Lemma trim_blank (s : string) : trim s = "" <-> blank s.
Proof.
  unfold trim. rewrite trimEnd_blank. apply trimStart_keeps_blank.
Qed.

Lemma trimStart_first (s : string) (c : ascii) :
  first_char (trimStart s) = Some c -> is_space c = false.
Proof.
  induction s as [|x r IH]; simpl; [discriminate|].
  destruct (is_space x) eqn:E; [exact IH|].
  simpl. intros H. injection H as <-. exact E.
Qed.

Lemma trimEnd_first (s : string) (c : ascii) :
  first_char (trimEnd s) = Some c -> first_char s = Some c.
Proof.
  destruct s as [|x r]; simpl; [discriminate|].
  destruct (is_space x && is_empty (trimEnd r)); simpl; [discriminate|auto].
Qed.

Lemma trimEnd_last (s : string) (c : ascii) :
  last_char (trimEnd s) = Some c -> is_space c = false.
Proof.
  induction s as [|x r IH]; simpl; [discriminate|].
  destruct (trimEnd r) as [|y r'] eqn:E; simpl.
  - destruct (is_space x) eqn:Ex; simpl; [discriminate|].
    intros H. injection H as <-. exact Ex.
  - rewrite andb_false_r. simpl. exact IH.
Qed.

Lemma trimStart_decompose (s : string) :
  exists pre, s = (pre ++ trimStart s)%string /\ blank pre.
Proof.
  unfold blank. induction s as [|x r (pre & E & B)]; simpl.
  - now exists "".
  - destruct (is_space x) eqn:Ex.
    + exists (String x pre). simpl. rewrite Ex, B, <- E. auto.
    + now exists "".
Qed.

Lemma trimEnd_decompose (s : string) :
  exists post, s = (trimEnd s ++ post)%string /\ blank post.
Proof.
  unfold blank. induction s as [|x r (post & E & B)]; simpl.
  - now exists "".
  - destruct (is_space x && is_empty (trimEnd r)) eqn:C.
    + apply andb_true_iff in C as [Ex Ee]. apply is_empty_true in Ee.
      exists (String x post). simpl. rewrite Ex, B.
      rewrite Ee in E. simpl in E. now rewrite <- E.
    + exists post. simpl. now rewrite <- E.
Qed.

(** [trim] removes white space at both ends and nothing else. *)
Lemma trim_spec (s : string) :
  (exists pre post,
      s = (pre ++ trim s ++ post)%string /\ blank pre /\ blank post)
  /\ (forall c, first_char (trim s) = Some c -> is_space c = false)
  /\ (forall c, last_char (trim s) = Some c -> is_space c = false).
Proof.
  unfold trim. split; [|split].
  - destruct (trimStart_decompose s) as (pre & E1 & B1).
    destruct (trimEnd_decompose (trimStart s)) as (post & E2 & B2).
    exists pre, post. repeat split; auto. now rewrite <- E2.
  - intros c H. apply trimEnd_first in H. now apply trimStart_first in H.
  - apply trimEnd_last.
Qed.

(** *** Lines *)

Lemma split_lines_cons (s : string) :
  exists h t, split_lines s = h :: t.
Proof.
  induction s as [|c r (h & t & E)]; simpl; eauto.
  destruct (Ascii.eqb c LF); eauto. rewrite E. eauto.
Qed.

Lemma split_lines_single (s : string) :
  no_LF s = true -> split_lines s = [s].
Proof.
  unfold no_LF. induction s as [|c r IH]; simpl; [reflexivity|].
  intros H. apply andb_true_iff in H as [Hc Hr].
  apply negb_true_iff in Hc. now rewrite Hc, (IH Hr).
Qed.

Lemma split_lines_app (a b : string) :
  no_LF a = true ->
  split_lines (a ++ String LF b)%string = a :: split_lines b.
Proof.
  unfold no_LF. induction a as [|c r IH]; simpl; [reflexivity|].
  intros H. apply andb_true_iff in H as [Hc Hr].
  apply negb_true_iff in Hc. now rewrite Hc, (IH Hr).
Qed.

(** Reading back what [join] wrote gives the list, when no element holds
    a line feed. *)
Lemma split_lines_join (l : list string) :
  l <> [] -> Forall (fun u => no_LF u = true) l ->
  split_lines (join newline l) = l.
Proof.
  unfold join. induction l as [|x l IH]; [congruence|].
  intros _ H. inversion H as [|? ? Hx Hl]; subst.
  destruct l as [|y l].
  - simpl. now apply split_lines_single.
  - change (String.concat newline (x :: y :: l))
      with (x ++ String LF (String.concat newline (y :: l)))%string.
    rewrite split_lines_app by assumption.
    f_equal. apply IH; [discriminate|assumption].
Qed.

(** *** Insertion-ordered sets *)

Lemma set_add_In (x y : string) (s : list string) :
  In y (set_add x s) <-> In y s \/ y = x.
Proof.
  unfold set_add. destruct (in_dec string_dec x s) as [Hi|Hn].
  - split; [tauto|]. intros [H| ->]; assumption.
  - rewrite in_app_iff. simpl. intuition congruence.
Qed.

Lemma set_add_all_In (xs s : list string) (y : string) :
  In y (set_add_all xs s) <-> In y s \/ In y xs.
Proof.
  unfold set_add_all. revert s.
  induction xs as [|x xs IH]; intros s; simpl; [tauto|].
  rewrite IH, set_add_In. intuition congruence.
Qed.

Lemma set_add_NoDup (x : string) (s : list string) :
  NoDup s -> NoDup (set_add x s).
Proof.
  unfold set_add. intros H. destruct (in_dec string_dec x s); [assumption|].
  apply NoDup_app; auto.
  - constructor; [intros []|constructor].
  - intros y Hy [<-|[]]. contradiction.
Qed.

Lemma set_add_all_NoDup (xs s : list string) :
  NoDup s -> NoDup (set_add_all xs s).
Proof.
  unfold set_add_all. revert s.
  induction xs as [|x xs IH]; intros s H; simpl; [assumption|].
  apply IH, set_add_NoDup, H.
Qed.

Lemma uniq_NoDup (xs : list string) : NoDup (uniq xs).
Proof. apply set_add_all_NoDup. constructor. Qed.

Lemma set_add_all_Forall (P : string -> Prop) (xs s : list string) :
  Forall P s -> Forall P xs -> Forall P (set_add_all xs s).
Proof.
  intros Hs Hx. apply Forall_forall. intros y Hy.
  apply set_add_all_In in Hy as [Hy|Hy];
    [eapply Forall_forall in Hs | eapply Forall_forall in Hx]; eauto.
Qed.

Lemma set_add_all_app (xs ys s : list string) :
  set_add_all (xs ++ ys) s = set_add_all ys (set_add_all xs s).
Proof. unfold set_add_all. apply fold_left_app. Qed.

Lemma set_add_all_cons (x : string) (xs s : list string) :
  set_add_all (x :: xs) s = set_add_all xs (set_add x s).
Proof. reflexivity. Qed.

Lemma set_add_present (x : string) (s : list string) :
  In x s -> set_add x s = s.
Proof.
  unfold set_add. intros H. destruct (in_dec string_dec x s); tauto.
Qed.

Lemma set_add_absent (x : string) (s : list string) :
  ~ In x s -> set_add x s = s ++ [x].
Proof.
  unfold set_add. intros H. destruct (in_dec string_dec x s); tauto.
Qed.

Lemma set_add_all_snoc (x : string) (acc s : list string) :
  set_add_all (set_add x acc) s = set_add x (set_add_all acc s).
Proof.
  destruct (in_dec string_dec x acc) as [Hi|Hn].
  - rewrite (set_add_present x acc Hi).
    symmetry. apply set_add_present, set_add_all_In. auto.
  - rewrite (set_add_absent x acc Hn), set_add_all_app. reflexivity.
Qed.

(** Adding the elements of a set built from [xs] over [acc] is adding
    [acc] and then [xs]. *)
Lemma set_add_all_nested (xs acc s : list string) :
  set_add_all (set_add_all xs acc) s = set_add_all xs (set_add_all acc s).
Proof.
  revert acc. induction xs as [|x xs IH]; intros acc; [reflexivity|].
  rewrite !set_add_all_cons, IH, set_add_all_snoc. reflexivity.
Qed.

Lemma set_add_all_uniq (xs s : list string) :
  set_add_all (uniq xs) s = set_add_all xs s.
Proof. unfold uniq. now rewrite set_add_all_nested. Qed.

Lemma set_add_all_length (xs s : list string) :
  (length s <= length (set_add_all xs s))%nat.
Proof.
  unfold set_add_all. revert s.
  induction xs as [|x xs IH]; intros s; simpl; [lia|].
  etransitivity; [|apply IH].
  unfold set_add. destruct (in_dec string_dec x s); [lia|].
  rewrite length_app. simpl. lia.
Qed.


(** *** A few values *)

Example tweet_url_accepted :
  is_tweet_url "https://x.com/someone/status/1790000000000000000" = true.
Proof. reflexivity. Qed.

Example photo_url_refused :
  is_tweet_url "https://x.com/someone/status/179/photo/1" = false.
Proof. reflexivity. Qed.

Example status_id_found :
  match_status "https://x.com/someone/status/179/photo/1" = Some "179".
Proof. reflexivity. Qed.

Example status_id_missing : match_status "https://x.com/home" = None.
Proof. reflexivity. Qed.

Example trim_both_ends :
  trim (String (ascii_of_nat 9) " Reply  ") = "Reply".
Proof. reflexivity. Qed.

Example split_keeps_empty_lines :
  split_lines ("a" ++ newline ++ newline ++ "b" ++ newline)%string
  = ["a"; ""; "b"; ""].
Proof. reflexivity. Qed.

Example set_keeps_first_occurrence :
  uniq ["b"; "a"; "b"; "c"; "a"] = ["b"; "a"; "c"].
Proof. reflexivity. Qed.

End StringFacts.

(** ** Runs *)

Module RunFacts.

Local Open Scope js_scope.

Section Bind.
Context {A B : Type} (m : M A) (k : A -> M B).

Lemma bind_inv (o : oracle) (n : nat) (r : res B) (t : list entry) :
  bind m k o n = (r, t) ->
  (exists a t1 t2,
      m o n = (Val a, t1) /\ k a o (n + length t1) = (r, t2)
      /\ t = t1 ++ t2)
  \/ (exists e, m o n = (Throw e, t) /\ r = Throw e)
  \/ (m o n = (Diverge, t) /\ r = Diverge).
Proof.
  unfold bind. destruct (m o n) as [[a|?|] t1].
  - destruct (k a o (n + length t1)) as [r2 t2] eqn:E.
    intros H; injection H as <- <-. left. now exists a, t1, t2.
  - intros H; injection H as <- <-. eauto.
  - intros H; injection H as <- <-. auto.
Qed.

Lemma bind_inv_val (o : oracle) (n : nat) (b : B) (t : list entry) :
  bind m k o n = (Val b, t) ->
  exists a t1 t2,
    m o n = (Val a, t1) /\ k a o (n + length t1) = (Val b, t2)
    /\ t = t1 ++ t2.
Proof.
  intros H. apply bind_inv in H as [H|[(e & _ & H)|[_ H]]];
    [exact H|discriminate|discriminate].
Qed.

Lemma bind_val (o : oracle) (n : nat) (a : A) (t1 : list entry) :
  m o n = (Val a, t1) ->
  bind m k o n =
  (fst (k a o (n + length t1)), t1 ++ snd (k a o (n + length t1))).
Proof.
  intros H. unfold bind. rewrite H.
  now destruct (k a o (n + length t1)).
Qed.

Lemma only_bind (P : event -> Prop) :
  only P m -> (forall a, only P (k a)) -> only P (bind m k).
Proof.
  intros Hm Hk o n. specialize (Hm o n). unfold bind.
  destruct (m o n) as [[a|?|] t1]; simpl in *; auto.
  specialize (Hk a o (n + length t1)).
  destruct (k a o (n + length t1)) as [r t2]; simpl in *.
  apply Forall_app; auto.
Qed.

Lemma yields_bind (Q1 : A -> Prop) (Q2 : B -> Prop) :
  yields Q1 m -> (forall a, Q1 a -> yields Q2 (k a)) ->
  yields Q2 (bind m k).
Proof.
  intros Hm Hk o n b t H.
  apply bind_inv_val in H as (a & t1 & t2 & H1 & H2 & _).
  eapply Hk; eauto.
Qed.

Lemma settles_bind (o : oracle) :
  settles o m -> (forall a, settles o (k a)) -> settles o (bind m k).
Proof.
  intros Hm Hk n. specialize (Hm n). unfold bind.
  destruct (m o n) as [[a|?|] t1]; simpl in *; try congruence.
  specialize (Hk a (n + length t1)).
  now destruct (k a o (n + length t1)).
Qed.

Lemma succeeds_bind (o : oracle) :
  succeeds o m -> (forall a, succeeds o (k a)) -> succeeds o (bind m k).
Proof.
  intros Hm Hk n. destruct (Hm n) as (a & t1 & E).
  destruct (Hk a (n + length t1)) as (b & t2 & E2).
  exists b, (t1 ++ t2). unfold bind. now rewrite E, E2.
Qed.
End Bind.

Section Primitives.
Context {A : Type}.

Lemma only_ret (P : event -> Prop) (a : A) : only P (ret a).
Proof. intros o n. constructor. Qed.

Lemma only_perform (P : event -> Prop) (ev : event) :
  P ev -> only P (perform ev).
Proof. intros H o n. repeat constructor. exact H. Qed.

Lemma only_call (P : event -> Prop) (ev : event) :
  P ev -> only P (call ev).
Proof. intros H o n. repeat constructor. exact H. Qed.

Lemma only_try_catch (P : event -> Prop) (m : M A) (h : string -> M A) :
  only P m -> (forall e, only P (h e)) -> only P (try_catch m h).
Proof.
  intros Hm Hh o n. specialize (Hm o n). unfold try_catch.
  destruct (m o n) as [[a|e|] t1]; simpl in *; auto.
  specialize (Hh e o (n + length t1)).
  destruct (h e o (n + length t1)) as [r t2]; simpl in *.
  apply Forall_app; auto.
Qed.

Lemma yields_ret (Q : A -> Prop) (a : A) : Q a -> yields Q (ret a).
Proof. intros H o n b t E. injection E as <- _. exact H. Qed.

Lemma yields_any (m : M A) : yields (fun _ => True) m.
Proof. intros o n a t _. exact I. Qed.

Lemma settles_ret (o : oracle) (a : A) : settles o (ret a).
Proof. intros n. discriminate. Qed.

Lemma succeeds_ret (o : oracle) (a : A) : succeeds o (ret a).
Proof. intros n. now exists a, []. Qed.

Lemma succeeds_settles (o : oracle) (m : M A) :
  succeeds o m -> settles o m.
Proof. intros H n. destruct (H n) as (a & t & ->). discriminate. Qed.

(** A [try] block whose handler always returns always returns, as long
    as its body comes to an end. *)
Lemma succeeds_try_catch (o : oracle) (m : M A) (h : string -> M A) :
  settles o m -> (forall e, succeeds o (h e)) -> succeeds o (try_catch m h).
Proof.
  intros Hm Hh n. specialize (Hm n). unfold try_catch.
  destruct (m o n) as [[a|e|] t1]; simpl in *.
  - now exists a, t1.
  - destruct (Hh e (n + length t1)) as (b & t2 & ->).
    now exists b, (t1 ++ t2).
  - congruence.
Qed.

Lemma settles_try_catch (o : oracle) (m : M A) (h : string -> M A) :
  settles o m -> (forall e, settles o (h e)) -> settles o (try_catch m h).
Proof.
  intros Hm Hh n. specialize (Hm n). unfold try_catch.
  destruct (m o n) as [[a|e|] t1]; simpl in *; try congruence.
  specialize (Hh e (n + length t1)).
  now destruct (h e o (n + length t1)).
Qed.
End Primitives.

Lemma settles_perform (o : oracle) (ev : event) : settles o (perform ev).
Proof. intros n. discriminate. Qed.

Lemma succeeds_perform (o : oracle) (ev : event) : succeeds o (perform ev).
Proof. intros n. now exists (o n ev), [(ev, o n ev)]. Qed.

Lemma settles_call (o : oracle) (ev : event) : settles o (call ev).
Proof. intros n. unfold call. simpl. destruct (throws _); discriminate. Qed.

(** A call that the world never lets fail. *)
Lemma succeeds_call (o : oracle) (ev : event) :
  (forall i, throws (o i ev) = false) -> succeeds o (call ev).
Proof.
  intros H n. exists (o n ev), [(ev, o n ev)]. unfold call. now rewrite H.
Qed.

Lemma call_inv (ev : event) (o : oracle) (n : nat) (a : answer)
    (t : list entry) :
  call ev o n = (Val a, t) ->
  a = o n ev /\ throws a = false /\ t = [(ev, a)].
Proof.
  unfold call. destruct (throws (o n ev)) eqn:E; [discriminate|].
  intros H; injection H as <- <-. auto.
Qed.

Lemma only_race (P : event -> Prop) (ev : event) (d : duration) :
  P ev -> P (EDelay d) -> only P (race ev d).
Proof. intros H1 H2 o n. repeat constructor; assumption. Qed.

Lemma settles_race (o : oracle) (ev : event) (d : duration) :
  settles o (race ev d).
Proof. intros n. unfold race. simpl. destruct (throws _); discriminate. Qed.

Lemma only_weaken {A} (P Q : event -> Prop) (m : M A) :
  (forall ev, P ev -> Q ev) -> only P m -> only Q m.
Proof.
  intros H Hm o n. eapply Forall_impl; [|apply Hm]. intros e; apply H.
Qed.

Lemma only_In {A} (P : event -> Prop) (m : M A) o n ev a :
  only P m -> In (ev, a) (snd (m o n)) -> P ev.
Proof.
  intros H Hi. specialize (H o n).
  eapply Forall_forall in H; [|exact Hi]. exact H.
Qed.

End RunFacts.

(** Proof steps shared by the developments below: [run_rules] walks down a
  computation with the rules of [RunFacts], opening the definitions that
  are not recursive. *)

Ltac head_of t :=
match t with
| ?f _ => head_of f
| _ => t
end.

Create HintDb run discriminated.

Ltac run_rules :=
repeat first
  [ assumption
  | solve [auto with run]
  | apply RunFacts.only_ret | apply RunFacts.only_perform
  | apply RunFacts.only_call
  | apply RunFacts.only_race
  | apply RunFacts.only_try_catch; [|intros ?]
  | apply RunFacts.only_bind; [|intros ?]
  | apply RunFacts.settles_ret | apply RunFacts.settles_perform
  | apply RunFacts.settles_call
  | apply RunFacts.settles_race
  | apply RunFacts.settles_try_catch; [|intros ?]
  | apply RunFacts.settles_bind; [|intros ?]
  | apply RunFacts.succeeds_ret | apply RunFacts.succeeds_perform
  | apply RunFacts.succeeds_bind; [|intros ?]
  | match goal with
    | |- only _ (if ?b then _ else _) => destruct b
    | |- settles _ (if ?b then _ else _) => destruct b
    | |- succeeds _ (if ?b then _ else _) => destruct b
    | |- only _ (match ?x with _ => _ end) => destruct x
    | |- settles _ (match ?x with _ => _ end) => destruct x
    | |- succeeds _ (match ?x with _ => _ end) => destruct x
    | |- only _ ?m => let h := head_of m in progress unfold h
    | |- settles _ ?m => let h := head_of m in progress unfold h
    | |- succeeds _ ?m => let h := head_of m in progress unfold h
    end ].

(** ** Calls that are rejected *)

Module RejectionFacts.

Import Common Spec RunFacts.
Local Open Scope js_scope.

Lemma random_run o n :
  random o n = (Val (drawn (o n ERandom)), [(ERandom, o n ERandom)]).
Proof. reflexivity. Qed.

Lemma log_run err msg o n :
  log err msg o n = (Val tt, [(ELog err msg, o n (ELog err msg))]).
Proof. reflexivity. Qed.

Lemma attempt_call_inv ev o n ok t :
  attempt (call ev) o n = (Val ok, t) ->
  t = [(ev, o n ev)] /\ ok = negb (throws (o n ev)).
Proof.
  unfold attempt, try_catch, bind, call, ret. cbv zeta.
  destruct (throws (o n ev)); intros H; injection H as <- <-; auto.
Qed.

Lemma caught_call_inv ev o n failure t :
  caught (call ev) o n = (Val failure, t) ->
  t = [(ev, o n ev)]
  /\ failure = if throws (o n ev) then Some (error (o n ev)) else None.
Proof.
  unfold caught, try_catch, bind, call, ret. cbv zeta.
  destruct (throws (o n ev)); intros H; injection H as <- <-; auto.
Qed.

Lemma try_catch_inv_val {A} (m : M A) (h : string -> M A) o n b t :
  try_catch m h o n = (Val b, t) ->
  m o n = (Val b, t)
  \/ exists e t1 t2, m o n = (Throw e, t1)
                     /\ h e o (n + length t1) = (Val b, t2) /\ t = t1 ++ t2.
Proof.
  unfold try_catch. destruct (m o n) as [[a|e|] t1].
  - intros H. left. exact H.
  - destruct (h e o (n + length t1)) as [r t2] eqn:E.
    intros H; injection H as -> <-. right. now exists e, t1, t2.
  - discriminate.
Qed.

(** If [m] returns and what follows returns, the two in a row return. *)
Lemma bind_returns {A B} (m : M A) (k : A -> M B) o n a t1 b :
  m o n = (Val a, t1) ->
  (exists t2, k a o (n + length t1) = (Val b, t2)) ->
  exists t, bind m k o n = (Val b, t).
Proof.
  intros H (t2 & H2). exists (t1 ++ t2). unfold bind. now rewrite H, H2.
Qed.

Lemma all_accepted_app (t1 t2 : list entry) :
  all_accepted (t1 ++ t2) <-> all_accepted t1 /\ all_accepted t2.
Proof. apply Forall_app. Qed.

Lemma accepted_not_rejected (t : list entry) :
  all_accepted t -> some_rejected t -> False.
Proof.
  intros H E. apply Exists_exists in E as (e & Hin & He).
  eapply Forall_forall in H; [|exact Hin]. cbv beta in H. congruence.
Qed.

Lemma accepted_call ev o n a t :
  call ev o n = (Val a, t) -> all_accepted t.
Proof.
  intros H. apply call_inv in H as (-> & Hc & ->).
  repeat constructor. unfold rejected. cbn [fst snd].
  rewrite Hc. apply andb_false_r.
Qed.

(** The calls that cannot reject are never counted as rejected. *)
Lemma accepted_quiet {A} (m : M A) o n r t :
  only (fun ev => never_rejects ev = true) m -> m o n = (r, t) ->
  all_accepted t.
Proof.
  intros H E. specialize (H o n). rewrite E in H. cbn [snd] in H.
  eapply Forall_impl; [|exact H]. intros e He. unfold rejected.
  now rewrite He.
Qed.

Lemma stops_ret {A} (a : A) : stops_at_rejection (ret a).
Proof. intros o n. constructor. Qed.

Lemma stops_perform (ev : event) :
  never_rejects ev = true -> stops_at_rejection (perform ev).
Proof.
  intros H o n. repeat constructor. unfold rejected. cbn [fst].
  now rewrite H.
Qed.

Lemma stops_call (ev : event) :
  never_rejects ev = false -> stops_at_rejection (call ev).
Proof.
  intros H o n. unfold call. cbv zeta.
  destruct (throws (o n ev)) eqn:T.
  - exists [], (ev, o n ev). unfold rejected. cbn [fst snd app].
    rewrite H, T. repeat split. constructor.
  - repeat constructor. unfold rejected. cbn [fst snd]. rewrite T.
    apply andb_false_r.
Qed.

Lemma stops_bind {A B} (m : M A) (k : A -> M B) :
  stops_at_rejection m -> (forall a, stops_at_rejection (k a)) ->
  stops_at_rejection (bind m k).
Proof.
  intros Hm Hk o n. specialize (Hm o n). unfold bind.
  destruct (m o n) as [[a|e|] t1]; [|exact Hm|exact Hm].
  specialize (Hk a o (n + length t1)).
  destruct (k a o (n + length t1)) as [[b|e|] t2]; [| |exact Hk].
  - apply all_accepted_app. auto.
  - destruct Hk as (t' & x & -> & Hx & He & Ht').
    exists (t1 ++ t'), x. rewrite app_assoc. repeat split; auto.
    apply all_accepted_app. auto.
Qed.

(** A run that stops at the first rejection returns when no call is
    rejected. *)
Lemma stops_returns {A} (m : M A) o n :
  stops_at_rejection m -> all_accepted (snd (m o n)) ->
  exists a, fst (m o n) = Val a.
Proof.
  intros H Ha. specialize (H o n).
  destruct (m o n) as [[a|e|] t]; cbn [fst snd] in *; [eauto| |contradiction].
  destruct H as (t' & x & -> & Hx & _). exfalso.
  apply all_accepted_app in Ha as [_ Ha]. inversion Ha as [|? ? Hx' _].
  congruence.
Qed.

End RejectionFacts.

Ltac stop_rules :=
repeat first
  [ apply RejectionFacts.stops_ret
  | apply RejectionFacts.stops_perform; reflexivity
  | apply RejectionFacts.stops_call; reflexivity
  | apply RejectionFacts.stops_bind; [|intros ?] ].

(** ** The scraper *)

Module ScraperFacts.

Import JsString Common Scraper Spec StringFacts RunFacts.
Local Open Scope js_scope.

Lemma links_seen_app (t1 t2 : list entry) :
  links_seen (t1 ++ t2) = links_seen t1 ++ links_seen t2.
Proof. unfold links_seen. apply flat_map_app. Qed.

Lemma links_seen_none {A} (m : M A) o n :
  only not_links m -> links_seen (snd (m o n)) = [].
Proof.
  intros H. specialize (H o n). unfold links_seen.
  induction H as [|[ev a] t Hev _ IH]; simpl; [reflexivity|].
  rewrite IH, app_nil_r. unfold not_links in Hev. simpl in Hev.
  destruct ev; congruence.
Qed.

Lemma links_seen_none' {A} (m : M A) o n r t :
  only not_links m -> m o n = (r, t) -> links_seen t = [].
Proof. intros H E. pose proof (links_seen_none m o n H) as L.
  now rewrite E in L. Qed.

Lemma links_seen_canonical (t : list entry) :
  Forall canonical_url (links_seen t).
Proof.
  apply Forall_forall. intros u Hu. unfold links_seen in Hu.
  apply in_flat_map in Hu as ([ev a] & _ & Hu). simpl in Hu.
  destruct ev; try contradiction.
  apply filter_In in Hu as [_ Hu]. now apply is_tweet_url_spec.
Qed.

Lemma only_logAny (P : event -> Prop) (msg : string) :
  P ERandom -> P (ELog false msg) -> only P (logAny msg).
Proof. intros. unfold logAny, random, log. run_rules. Qed.

Lemma scroll_on_yields set last tries :
  yields (fun s => exists l k, s = Again set l k) (scroll_on set last tries).
Proof.
  unfold scroll_on.
  repeat (eapply yields_bind; [apply yields_any|intros ? _]).
  cbv zeta. destruct (_ =? _)%Z; apply yields_ret; eauto.
Qed.

Lemma scroll_on_no_links set last tries :
  only not_links (scroll_on set last tries).
Proof. unfold scroll_on, delay, random. run_rules; discriminate. Qed.

(** What a turn that returns has done to the set. *)
Lemma loop_body_result set last tries o n s t :
  loop_body set last tries o n = (Val s, t) ->
  let set' := set_add_all (links_seen t) set in
  (s = Stop set' /\ (maxTweetsPerKeyword <= length set')%nat)
  \/ (exists l k, s = Again set' l k
                  /\ (length set' < maxTweetsPerKeyword)%nat).
Proof.
  unfold loop_body. intros H.
  apply bind_inv_val in H as (a & t1 & t2 & H1 & H2 & ->).
  apply call_inv in H1 as (-> & _ & ->).
  apply bind_inv_val in H2 as (u & t3 & t4 & H3 & H4 & ->).
  apply links_seen_none' in H3;
    [|apply only_logAny; discriminate].
  cbv zeta. rewrite !links_seen_app, H3.
  change (links_seen [(ELinks, o n ELinks)])
    with (filter is_tweet_url (strings (o n ELinks)) ++ []).
  rewrite app_nil_r. cbn [app].
  unfold page_urls in H4. rewrite set_add_all_uniq in H4.
  set (set' := set_add_all _ set) in *.
  destruct (maxTweetsPerKeyword <=? length set')%nat eqn:E.
  - injection H4 as <- <-. rewrite app_nil_r. left. split; auto.
    now apply Nat.leb_le.
  - pose proof (links_seen_none' _ _ _ _ _
                  (scroll_on_no_links set' last tries) H4) as L.
    apply scroll_on_yields in H4 as (l & k & ->).
    rewrite L, app_nil_r. right. exists l, k. split; auto.
    now apply Nat.leb_gt.
Qed.

(** The set that the loop returns: what it had, then the links seen, in
    order, each once. *)
Lemma collect_loop_result fuel :
  forall set last tries o n set' t,
    collect_loop fuel set last tries o n = (Val set', t) ->
    set' = set_add_all (links_seen t) set.
Proof.
  induction fuel as [|fuel IH]; intros set last tries o n set' t;
    cbn [collect_loop];
    destruct ((length set <? maxTweetsPerKeyword)%nat
              && (tries <? maxScrollTries)%nat)%bool;
    intros H; try discriminate;
    try (injection H as <- <-; reflexivity).
  apply bind_inv_val in H as (s & t1 & t2 & H1 & H2 & ->).
  apply loop_body_result in H1. cbv zeta in H1.
  rewrite links_seen_app, set_add_all_app.
  destruct H1 as [[-> _]|(l & k & -> & _)].
  - injection H2 as <- <-. reflexivity.
  - apply IH in H2. exact H2.
Qed.

Lemma only_attempt {A} (P : event -> Prop) (m : M A) :
  only P m -> only P (attempt m).
Proof. intros H. unfold attempt. run_rules. Qed.

Lemma only_caught {A} (P : event -> Prop) (m : M A) :
  only P m -> only P (caught m).
Proof. intros H. unfold caught. run_rules. Qed.

Lemma only_delay (P : event -> Prop) d : P (EDelay d) -> only P (delay d).
Proof. intros. unfold delay. run_rules. Qed.

#[local] Hint Resolve only_attempt only_caught only_delay : run.

(** The list that [scrapeUrlsForKeyword] returns: the first hundred of the
    distinct links seen, in the order in which they were seen. *)
Lemma scrape_result fuel keyword o n r t :
  scrapeUrlsForKeyword fuel keyword o n = (Val r, t) ->
  r = firstn maxTweetsPerKeyword (uniq (links_seen t)).
Proof.
  unfold scrapeUrlsForKeyword. intros H.
  apply bind_inv_val in H as (u & t1 & t2 & H1 & H2 & ->).
  apply links_seen_none' in H1; [|apply only_logAny; discriminate].
  apply bind_inv_val in H2 as (ok & t3 & t4 & H3 & H4 & ->).
  apply links_seen_none' in H3;
    [|apply only_caught; run_rules; discriminate].
  rewrite !links_seen_app, H1, H3. cbn [app].
  destruct ok as [e|]; [apply bind_inv_val in H4 as (w & t5 & t6 & H5 & H6 & ->);
    apply links_seen_none' in H5; [|apply only_logAny; discriminate];
    injection H6 as <- <-; rewrite links_seen_app, H5; reflexivity|].
  - apply bind_inv_val in H4 as (w & t5 & t6 & H5 & H6 & ->).
    apply links_seen_none' in H5;
      [|apply only_attempt; run_rules; discriminate].
    apply bind_inv_val in H6 as (h & t7 & t8 & H7 & H8 & ->).
    apply links_seen_none' in H7; [|run_rules; discriminate].
    apply bind_inv_val in H8 as (set & t9 & t10 & H9 & H10 & ->).
    apply collect_loop_result in H9.
    apply bind_inv_val in H10 as (x & t11 & t12 & H11 & H12 & ->).
    apply links_seen_none' in H11; [|apply only_logAny; discriminate].
    apply bind_inv_val in H12 as (y & t13 & t14 & H13 & H14 & ->).
    apply links_seen_none' in H13.
    + injection H14 as <- <-.
      rewrite !links_seen_app, H5, H7, H11, H13. cbn [app links_seen flat_map].
      rewrite !app_nil_r. now subst set.
    + destruct (length set =? 0)%nat; [|run_rules].
      apply only_bind; [apply only_logAny; discriminate|intros ?].
      run_rules; discriminate.
Qed.

Lemma uniq_links_good (t : list entry) :
  Forall canonical_url (uniq (links_seen t)) /\ NoDup (uniq (links_seen t)).
Proof.
  split; [|apply uniq_NoDup].
  apply set_add_all_Forall; [constructor|apply links_seen_canonical].
Qed.

Lemma In_firstn {A} (k : nat) (l : list A) (x : A) :
  In x (firstn k l) -> In x l.
Proof.
  revert k. induction l as [|y l IH]; intros [|k]; simpl; try tauto.
  intros [H|H]; eauto.
Qed.

Lemma Forall_firstn {A} (P : A -> Prop) (k : nat) (l : list A) :
  Forall P l -> Forall P (firstn k l).
Proof.
  intros H. apply Forall_forall. intros x Hx.
  eapply Forall_forall in H; [exact H|]. eapply In_firstn; eauto.
Qed.

Lemma NoDup_firstn {A} (k : nat) (l : list A) :
  NoDup l -> NoDup (firstn k l).
Proof.
  revert k. induction l as [|x l IH]; intros [|k] H; simpl;
    try constructor.
  - inversion H; subst. intros Hx. apply In_firstn in Hx. contradiction.
  - inversion H; subst. auto.
Qed.

Lemma scrape_good fuel keyword :
  yields good_urls (scrapeUrlsForKeyword fuel keyword).
Proof.
  intros o n r t H. apply scrape_result in H. subst r.
  destruct (uniq_links_good t) as [F N].
  split; [now apply Forall_firstn|now apply NoDup_firstn].
Qed.

Lemma scrape_all_good fuel keywords :
  forall allUrls, good_urls allUrls ->
    yields good_urls (scrape_all fuel keywords allUrls).
Proof.
  induction keywords as [|kw rest IH]; intros allUrls G; cbn [scrape_all].
  - now apply yields_ret.
  - eapply yields_bind; [apply scrape_good|].
    intros urls [F N]. apply IH. destruct G as [FA NA]. split.
    + now apply set_add_all_Forall.
    + now apply set_add_all_NoDup.
Qed.

Lemma gather_good fuel proxy c keywordList :
  yields good_urls (gather fuel proxy c keywordList).
Proof.
  unfold gather. eapply yields_bind; [apply yields_any|intros _ _].
  apply scrape_all_good. split; constructor.
Qed.


(** *** Where the output list is written *)

Lemma only_loop_body (P : event -> Prop) set last tries :
  P ELinks -> P ERandom -> (forall msg, P (ELog false msg)) ->
  P EScrollToBottom -> (forall d, P (EDelay d)) -> P EScrollHeight ->
  only P (loop_body set last tries).
Proof.
  intros. unfold loop_body, scroll_on, logAny, random, log, delay.
  run_rules.
Qed.

Lemma only_collect_loop (P : event -> Prop) fuel :
  P ELinks -> P ERandom -> (forall msg, P (ELog false msg)) ->
  P EScrollToBottom -> (forall d, P (EDelay d)) -> P EScrollHeight ->
  forall set last tries, only P (collect_loop fuel set last tries).
Proof.
  intros H1 H2 H3 H4 H5 H6.
  induction fuel as [|fuel IH]; intros set last tries; cbn [collect_loop];
    destruct (_ && _)%bool; try apply only_ret.
  - intros o n. constructor.
  - apply only_bind; [now apply only_loop_body|].
    intros [set'|set' l k]; [apply only_ret|apply IH].
Qed.

Lemma scrape_no_write fuel keyword :
  only not_write (scrapeUrlsForKeyword fuel keyword).
Proof.
  assert (forall set last tries,
             only not_write (collect_loop fuel set last tries)) as L
      by (apply only_collect_loop; intros; exact I).
  unfold scrapeUrlsForKeyword, logAny, random, log.
  run_rules; exact I.
Qed.

Lemma scrape_all_no_write fuel keywords :
  forall allUrls, only not_write (scrape_all fuel keywords allUrls).
Proof.
  induction keywords as [|kw rest IH]; intros allUrls; cbn [scrape_all].
  - apply only_ret.
  - apply only_bind; [apply scrape_no_write|intros ?; apply IH].
Qed.

Lemma gather_no_write fuel proxy c keywordList :
  only not_write (gather fuel proxy c keywordList).
Proof.
  pose proof (scrape_all_no_write fuel) as L.
  unfold gather, initializeBrowser, getRandomUserAgent, logAny, random, log,
    delay.
  run_rules; exact I.
Qed.

Lemma save_writes allUrls : only (writes_list allUrls) (save allUrls).
Proof.
  unfold save, logAny, random, log.
  destruct (0 <? length allUrls)%nat eqn:E; run_rules; try exact I.
  repeat split. destruct allUrls; [discriminate|congruence].
Qed.

Lemma canonical_not_blank (u : string) : canonical_url u -> ~ blank u.
Proof. intros (user & id & -> & _). unfold blank. simpl. discriminate. Qed.

(** What [main] writes, if it writes. *)
Lemma main_write fuel proxy c keywordList o n p data a :
  In (EWriteFile p data, a) (snd (main fuel proxy c keywordList o n)) ->
  exists urls t,
    gather fuel proxy c keywordList o n = (Val urls, t)
    /\ p = outputFile /\ data = join newline urls /\ urls <> [].
Proof.
  unfold main. intros H.
  destruct (bind _ _ o n) as [r t] eqn:E. cbn [snd] in H.
  pose proof (gather_no_write fuel proxy c keywordList o n) as G.
  apply bind_inv in E as [(urls & t1 & t2 & E1 & E2 & ->)|[(e & E & _)|[E _]]].
  - rewrite E1 in G. cbn [snd] in G. apply in_app_iff in H as [H|H].
    + eapply Forall_forall in G; [|exact H]. contradiction.
    + pose proof (save_writes urls o (n + length t1)) as S.
      rewrite E2 in S. eapply Forall_forall in S; [|exact H].
      exists urls, t1. destruct S as (-> & -> & Hne). auto.
  - rewrite E in G. eapply Forall_forall in G; [|exact H]. contradiction.
  - rewrite E in G. eapply Forall_forall in G; [|exact H]. contradiction.
Qed.

Lemma run_main_trace (m : M unit) o n : snd (run_main m o n) = snd (m o n).
Proof. unfold run_main. now destruct (m o n) as [[[]|?|] t]. Qed.

(** C1: whatever a run of the scraper writes to the output file is the
    lines of a list of URLs that all match the canonical pattern
    [https://x.com/<user>/status/<digits>], without repetition and without
    blank entry; read back line by line the file gives that list, as long
    as no URL holds a line feed. *)
Theorem output_list_is_canonical fuel proxy auth keywordList o n p data a :
  In (EWriteFile p data, a)
     (snd (Scraper.script fuel proxy auth keywordList o n)) ->
  exists urls,
    p = outputFile /\ data = join newline urls
    /\ Forall canonical_url urls
    /\ NoDup urls
    /\ Forall (fun u => ~ blank u) urls
    /\ (Forall (fun u => no_LF u = true) urls -> split_lines data = urls).
Proof.
  intros H.
  assert (exists c, In (EWriteFile p data, a)
                       (snd (main fuel proxy c keywordList o n)))
    as [c Hm].
  { unfold Scraper.script in H. destruct auth as [| |auth_token ct0].
    - exfalso. cbn in H. intuition discriminate.
    - contradiction.
    - destruct (negb (truthy auth_token) || negb (truthy ct0))%bool.
      + exfalso. cbn in H. intuition discriminate.
      + rewrite run_main_trace in H. eauto. }
  clear H. apply main_write in Hm as (urls & t & E & -> & -> & Hne).
  apply gather_good in E as [F N].
  exists urls. repeat split; auto.
  - eapply Forall_impl; [|exact F]. apply canonical_not_blank.
  - intros L. now apply split_lines_join.
Qed.

Lemma output_list_is_canonical_witness :
  exists urls,
    outputFile = outputFile
    /\ "https://x.com/a/status/1" = join newline urls
    /\ Forall canonical_url urls
    /\ NoDup urls
    /\ Forall (fun u => ~ blank u) urls
    /\ (Forall (fun u => no_LF u = true) urls ->
        split_lines "https://x.com/a/status/1" = urls).
Proof.
  apply (output_list_is_canonical 20 "" (AuthJson (Some "t") (Some "c"))
           targetKeywords Worlds.still_page 0 outputFile
           "https://x.com/a/status/1" (Worlds.still_page 0 ERandom)).
  vm_compute. repeat (first [left; reflexivity | right]).
Defined.

Lemma gather_no_keywords fuel proxy c :
  yields (fun urls => urls = []) (gather fuel proxy c []).
Proof.
  unfold gather. eapply yields_bind; [apply yields_any|intros _ _].
  now apply yields_ret.
Qed.

(** C7: the output list is written only when the set of all URLs is not
    empty; a run that gathers no URL, and so every run on an empty keyword
    list, writes no output file. *)
Theorem output_written_only_when_urls fuel proxy c keywordList o n :
  (forall p data a,
      In (EWriteFile p data, a) (snd (main fuel proxy c keywordList o n)) ->
      exists urls t,
        gather fuel proxy c keywordList o n = (Val urls, t)
        /\ urls <> [] /\ p = outputFile /\ data = join newline urls)
  /\ (forall t,
         gather fuel proxy c keywordList o n = (Val [], t) ->
         Forall (fun e : entry => not_write (fst e))
                (snd (main fuel proxy c keywordList o n)))
  /\ Forall (fun e : entry => not_write (fst e))
            (snd (main fuel proxy c [] o n)).
Proof.
  split; [|split].
  - intros p data a H.
    apply main_write in H as (urls & t & E & -> & -> & Hne).
    exists urls, t. auto.
  - intros t E. apply Forall_forall. intros [ev a] H.
    destruct ev; try exact I.
    apply main_write in H as (urls & t' & E' & _ & _ & Hne).
    rewrite E in E'. congruence.
  - apply Forall_forall. intros [ev a] H.
    destruct ev; try exact I.
    apply main_write in H as (urls & t' & E' & _ & _ & Hne).
    apply gather_no_keywords in E'. contradiction.
Qed.

Lemma output_written_only_when_urls_witness :
  exists urls t,
    gather 20 "" Worlds.some_cookies targetKeywords Worlds.still_page 0
    = (Val urls, t)
    /\ urls <> [] /\ outputFile = outputFile
    /\ "https://x.com/a/status/1" = join newline urls.
Proof.
  apply (proj1 (output_written_only_when_urls 20 "" Worlds.some_cookies
                  targetKeywords Worlds.still_page 0)
           outputFile "https://x.com/a/status/1"
           (Worlds.still_page 0 ERandom)).
  vm_compute. repeat (first [left; reflexivity | right]).
Defined.

(** C2: the list that [scrapeUrlsForKeyword] returns has at most
    [maxTweetsPerKeyword] = 100 elements; it is the beginning of the list of
    the distinct links collected, in the order in which they were
    collected, and it has exactly 100 elements when more were collected. *)
Theorem scrape_quota_and_order fuel keyword o n r t :
  scrapeUrlsForKeyword fuel keyword o n = (Val r, t) ->
  let collected := uniq (links_seen t) in
  maxTweetsPerKeyword = 100%nat
  /\ (length r <= maxTweetsPerKeyword)%nat
  /\ r = firstn maxTweetsPerKeyword collected
  /\ (exists rest, collected = r ++ rest)
  /\ ((maxTweetsPerKeyword < length collected)%nat ->
      length r = maxTweetsPerKeyword).
Proof.
  intros H collected. apply scrape_result in H. fold collected in H.
  subst r. split; [reflexivity|]. split; [apply firstn_le_length|].
  split; [reflexivity|]. split.
  - exists (skipn maxTweetsPerKeyword collected).
    symmetry. apply firstn_skipn.
  - intros L. apply firstn_length_le. lia.
Qed.

(** On the page that shows a hundred and fifty tweets the loop collects
    them all in its first turn, and the list returned is cut to the first
    hundred. *)
Lemma scrape_quota_and_order_witness :
  let t := snd (scrapeUrlsForKeyword 20 "giverep" Worlds.crowded_page 0) in
  let r := firstn 100 (strings (Worlds.crowded_page 0 ELinks)) in
  let collected := uniq (links_seen t) in
  (length collected = 150%nat /\ length r = 100%nat)
  /\ maxTweetsPerKeyword = 100%nat
  /\ (length r <= maxTweetsPerKeyword)%nat
  /\ r = firstn maxTweetsPerKeyword collected
  /\ (exists rest, collected = r ++ rest)
  /\ ((maxTweetsPerKeyword < length collected)%nat ->
      length r = maxTweetsPerKeyword).
Proof.
  split; [split; vm_compute; reflexivity|].
  apply (scrape_quota_and_order 20 "giverep" Worlds.crowded_page 0).
  vm_compute. reflexivity.
Defined.


(** *** The end of the loop *)

(** A turn of the loop comes to an end; when the loop goes on, the stall
    counter was incremented if the height measured in this turn is the
    last one, and reset to zero with the new height otherwise. *)
Lemma loop_body_step set last tries o n :
  match loop_body set last tries o n with
  | (Val (Stop _), t) => (1 <= length t)%nat
  | (Val (Again _ l k), t) =>
      exists i, (n < i < n + length t)%nat
                /\ let h := number (o i EScrollHeight) in
                   (h = last /\ l = last /\ k = S tries)
                   \/ (h <> last /\ l = h /\ k = 0%nat)
  | (Throw _, _) => True
  | (Diverge, _) => False
  end.
Proof.
  unfold loop_body, scroll_on, logAny, log, delay, random, bind, call,
    perform, ret.
  cbv zeta.
  destruct (throws (o n ELinks)); [exact I|].
  cbn [length app Nat.add fst snd].
  destruct (maxTweetsPerKeyword <=? _)%nat; [cbn; lia|].
  cbn [length app Nat.add fst snd].
  destruct (throws (o _ EScrollToBottom)); [exact I|].
  cbn [length app Nat.add fst snd].
  destruct (throws (o _ EScrollHeight)) eqn:T; [exact I|].
  cbn [length app Nat.add fst snd].
  match goal with
  | |- context [number (o ?i EScrollHeight)] =>
      destruct (number (o i EScrollHeight) =? last)%Z eqn:E;
      exists i; (split; [cbn [length app]; lia|])
  end.
  - left. apply Z.eqb_eq in E. auto.
  - right. apply Z.eqb_neq in E. auto.
Qed.


(** The loop is left at once when the quota or the limit of stalls is
    reached. *)
Lemma collect_loop_exit fuel set last tries o n :
  (maxTweetsPerKeyword <= length set)%nat \/ (maxScrollTries <= tries)%nat ->
  collect_loop fuel set last tries o n = (Val set, []).
Proof.
  intros H.
  assert ((length set <? maxTweetsPerKeyword)%nat
          && (tries <? maxScrollTries)%nat = false)%bool as C.
  { apply andb_false_iff.
    destruct H; [left|right]; apply Nat.ltb_ge; assumption. }
  destruct fuel; cbn [collect_loop]; rewrite C; reflexivity.
Qed.

(** A loop that runs out of fuel has made a turn that asks for another. *)
Lemma collect_loop_starved fuel set last tries o n :
  fst (collect_loop (S fuel) set last tries o n) = Diverge ->
  exists set' l k t,
    loop_body set last tries o n = (Val (Again set' l k), t)
    /\ (tries < maxScrollTries)%nat
    /\ fst (collect_loop fuel set' l k o (n + length t)) = Diverge.
Proof.
  cbn [collect_loop].
  destruct (_ && _)%bool eqn:C; [|discriminate].
  apply andb_true_iff in C as [_ C]. apply Nat.ltb_lt in C.
  pose proof (loop_body_step set last tries o n) as S.
  unfold bind.
  destruct (loop_body set last tries o n) as [[[set'|set' l k]|?|] t];
    try discriminate; try contradiction.
  intros H. exists set', l, k, t. repeat split; auto.
  now destruct (collect_loop fuel set' l k o (n + length t)).
Qed.

Section Stall.
Context (o : oracle) (n0 : nat) (h : Z) (Hstable : stable_from o n0 h).

(** Once the height has settled on the last one measured, the loop ends
    within what is left of the twenty stalls. *)
Lemma stalled_loop_ends fuel :
  forall tries set n,
    (n0 <= n)%nat -> (maxScrollTries <= fuel + tries)%nat ->
    fst (collect_loop fuel set h tries o n) <> Diverge.
Proof.
  induction fuel as [|fuel IH]; intros tries set n Hn Hf.
  - rewrite collect_loop_exit by (right; lia). discriminate.
  - intros D. apply collect_loop_starved in D
      as (set' & l & k & t & E & Ht & D).
    pose proof (loop_body_step set h tries o n) as S. rewrite E in S.
    destruct S as (i & Hi & S). cbv zeta in S.
    rewrite (Hstable i) in S by lia.
    destruct S as [(_ & -> & ->)|(Hne & _)]; [|congruence].
    apply (IH (S tries) set' (n + length t)); [lia|lia|exact D].
Qed.

Lemma settled_loop_ends fuel set last tries n :
  (n0 <= n)%nat -> (S maxScrollTries <= fuel)%nat ->
  fst (collect_loop fuel set last tries o n) <> Diverge.
Proof.
  intros Hn Hf. destruct fuel as [|fuel]; [unfold maxScrollTries in Hf; lia|].
  intros D. apply collect_loop_starved in D
    as (set' & l & k & t & E & Ht & D).
  pose proof (loop_body_step set last tries o n) as S. rewrite E in S.
  destruct S as (i & Hi & S). cbv zeta in S.
  rewrite (Hstable i) in S by lia.
  assert (l = h) as -> by (destruct S as [(-> & -> & _)|(_ & -> & _)]; auto).
  revert D. apply stalled_loop_ends; lia.
Qed.

Lemma loop_ends_after_stall k :
  forall fuel set last tries n,
    (n0 <= n + k)%nat -> (k + S maxScrollTries <= fuel)%nat ->
    fst (collect_loop fuel set last tries o n) <> Diverge.
Proof.
  induction k as [|k IH]; intros fuel set last tries n Hn Hf.
  - apply settled_loop_ends; lia.
  - destruct fuel as [|fuel]; [lia|].
    intros D. apply collect_loop_starved in D
      as (set' & l & j & t & E & Ht & D).
    pose proof (loop_body_step set last tries o n) as S. rewrite E in S.
    destruct S as (i & Hi & _).
    revert D. apply IH; lia.
Qed.

End Stall.


Lemma bind_diverge_inv {A B} (m : M A) (k : A -> M B) o n :
  fst (bind m k o n) = Diverge ->
  fst (m o n) = Diverge
  \/ exists a t1, m o n = (Val a, t1)
                  /\ fst (k a o (n + length t1)) = Diverge.
Proof.
  unfold bind. destruct (m o n) as [[a|?|] t1]; cbn [fst]; auto;
    [|discriminate].
  intros H. right. exists a, t1. split; auto.
  now destruct (k a o (n + length t1)).
Qed.

Lemma settles_at {A} o (m : M A) n : settles o m -> fst (m o n) <> Diverge.
Proof. intros H. apply H. Qed.

Lemma settles_logAny o msg : settles o (logAny msg).
Proof. unfold logAny, random, log. run_rules. Qed.

Lemma settles_attempt {A} o (m : M A) : settles o m -> settles o (attempt m).
Proof. intros. unfold attempt. run_rules. Qed.

Lemma settles_caught {A} o (m : M A) : settles o m -> settles o (caught m).
Proof. intros. unfold caught. run_rules. Qed.

#[local] Hint Resolve settles_logAny settles_attempt settles_caught : run.

(** A page whose height never changes is left after twenty turns at most,
    whatever else happens. *)
Lemma scrape_ends_on_still_page o h keyword :
  stable_from o 0 h ->
  settles o (scrapeUrlsForKeyword maxScrollTries keyword).
Proof.
  intros Hs n D. unfold scrapeUrlsForKeyword in D.
  apply bind_diverge_inv in D as [D|(u & t1 & _ & D)];
    [revert D; apply settles_logAny|].
  apply bind_diverge_inv in D as [D|(ok & t2 & _ & D)];
    [revert D; apply settles_caught, settles_call|].
  destruct ok as [e|]; [revert D; apply settles_at; run_rules|].
  - apply bind_diverge_inv in D as [D|(w & t3 & _ & D)];
      [revert D; apply settles_attempt, settles_race|].
    apply bind_diverge_inv in D as [D|(a & t4 & E & D)];
      [revert D; apply settles_call|].
    apply call_inv in E as (-> & _ & ->).
    rewrite (Hs _ (Nat.le_0_l _)) in D.
    apply bind_diverge_inv in D as [D|(set & t5 & _ & D)].
    + revert D. apply (stalled_loop_ends o 0 h Hs); lia.
    + revert D. apply settles_at. run_rules.
Qed.

(** On the growing page the loop asks for another turn for ever. *)
Lemma growing_page_starves fuel :
  forall n last,
    (last <= Z.of_nat n)%Z ->
    fst (collect_loop fuel [] last 0 Worlds.growing_page n) = Diverge.
Proof.
  induction fuel as [|fuel IH]; intros n last Hl; [reflexivity|].
  cbn [collect_loop]. cbn [length Nat.ltb Nat.leb andb maxTweetsPerKeyword
                           maxScrollTries].
  pose proof (loop_body_step [] last 0 Worlds.growing_page n) as S.
  assert (exists st t, loop_body [] last 0 Worlds.growing_page n
                       = (Val st, t)
                       /\ match st with Stop _ => False
                                      | Again s _ _ => s = [] end)
    as (st & t & E & Hst).
  { unfold loop_body, scroll_on, logAny, log, delay, random, bind, call,
      perform, ret. cbn.
    destruct (_ =? _)%Z; do 2 eexists; (split; [reflexivity|reflexivity]). }
  rewrite E in S. unfold bind. rewrite E.
  destruct st as [|s l k]; [contradiction|]. subst s.
  destruct S as (i & Hi & S). cbn [Worlds.growing_page number] in S.
  cbv zeta in S. destruct S as [(H & _)|(_ & -> & ->)]; [lia|].
  specialize (IH (n + length t)%nat (Z.of_nat i)).
  destruct (collect_loop fuel [] (Z.of_nat i) 0 Worlds.growing_page
              (n + length t)); cbn [fst] in *.
  apply IH. lia.
Qed.


(** C3 as stated does not hold: on a page whose height changes at every
    measure and that shows no tweet, the stall counter is reset in every
    turn and the collection never ends, whatever the number of turns
    allowed. *)
Lemma scrape_may_never_end :
  ~ (exists fuel,
        fst (scrapeUrlsForKeyword fuel "giverep" Worlds.growing_page 0)
        <> Diverge).
Proof.
  intros [fuel H]. apply H. clear H.
  unfold scrapeUrlsForKeyword, caught, attempt, race, try_catch, logAny,
    log, random, bind, call, perform, ret.
  cbn -[collect_loop].
  match goal with
  | |- context [collect_loop fuel [] ?l 0%nat Worlds.growing_page ?k] =>
      pose proof (growing_page_starves fuel k l) as S;
      destruct (collect_loop fuel [] l 0%nat Worlds.growing_page k)
  end.
  cbn [fst] in *. rewrite S; [reflexivity|]. cbn. lia.
Qed.

(** C3, amended: the loop is left as soon as the set holds the quota or
    the stall counter has reached 20; a turn that goes on increments the
    counter when the height it measures is the last one, and resets it to
    zero, with the new height, otherwise.  So the loop ends at most 21
    turns after the measures of the height have stopped changing, and a
    page whose height never changes is left within 20 turns. *)
Theorem stall_detection_ends_loop :
  maxScrollTries = 20%nat
  /\ (forall fuel set last tries o n,
         (maxTweetsPerKeyword <= length set)%nat
         \/ (maxScrollTries <= tries)%nat ->
         collect_loop fuel set last tries o n = (Val set, []))
  /\ (forall set last tries o n set' l k t,
         loop_body set last tries o n = (Val (Again set' l k), t) ->
         exists i, (n < i < n + length t)%nat
                   /\ let h := number (o i EScrollHeight) in
                      (h = last /\ l = last /\ k = S tries)
                      \/ (h <> last /\ l = h /\ k = 0%nat))
  /\ (forall o n0 h,
         stable_from o n0 h ->
         forall set last tries n,
           fst (collect_loop (n0 + 21) set last tries o n) <> Diverge)
  /\ (forall o h,
         stable_from o 0 h ->
         forall keyword n,
           fst (scrapeUrlsForKeyword 20 keyword o n) <> Diverge).
Proof.
  split; [reflexivity|]. split; [|split; [|split]].
  - intros. now apply collect_loop_exit.
  - intros set last tries o n set' l k t E.
    pose proof (loop_body_step set last tries o n) as S.
    now rewrite E in S.
  - intros o n0 h Hs set last tries n.
    apply (loop_ends_after_stall o n0 h Hs n0); unfold maxScrollTries; lia.
  - intros o h Hs keyword n.
    apply (scrape_ends_on_still_page o h keyword Hs).
Qed.

Lemma stall_detection_ends_loop_witness :
  stable_from Worlds.still_page 0 0
  /\ fst (scrapeUrlsForKeyword 20 "giverep" Worlds.still_page 0) <> Diverge.
Proof.
  assert (stable_from Worlds.still_page 0 0) as Hs
      by (intros i _; reflexivity).
  split; [exact Hs|].
  exact (proj2 (proj2 (proj2 (proj2 stall_detection_ends_loop)))
           Worlds.still_page 0%Z Hs "giverep" 0%nat).
Defined.

End ScraperFacts.

(** ** Numbers *)

Module NumberFacts.

Import JsNumber.
Local Open Scope Z_scope.

Lemma one_split : one = 2 ^ 1021 * (2 * 2 ^ 52).
Proof. vm_compute. reflexivity. Qed.

Lemma digits_bounds (n : Z) :
  0 < n -> 2 ^ (digits n - 1) <= n < 2 ^ digits n.
Proof.
  intros H. unfold digits.
  destruct (Z.eqb_spec n 0) as [->|_]; [lia|].
  replace (Z.log2 n + 1 - 1) with (Z.log2 n) by lia.
  apply Z.log2_spec, H.
Qed.

Lemma digits_nonneg (n : Z) : 0 <= digits n.
Proof.
  unfold digits. destruct (n =? 0); [lia|].
  pose proof (Z.log2_nonneg n). lia.
Qed.

(** The largest double below 1 is [1 - 2^-53]. *)
Lemma draw_bound (r : draw) : 0 <= units r <= one - 2 ^ 1021.
Proof.
  destruct r as [u ok]. cbn [units].
  apply andb_true_iff in ok as [ok Hfit].
  apply andb_true_iff in ok as [H0 H1].
  apply Z.leb_le in H0. apply Z.ltb_lt in H1.
  split; [exact H0|].
  destruct (Z.eq_dec u 0) as [->|Hu]; [vm_compute; discriminate|].
  pose proof (digits_bounds u ltac:(lia)) as [Hlo Hhi].
  pose proof (digits_nonneg u) as Hd.
  assert (digits u <= 1074) as Hd'.
  { destruct (Z_le_gt_dec (digits u) 1074) as [|G]; [assumption|].
    exfalso. unfold one in H1.
    assert (2 ^ 1074 <= 2 ^ (digits u - 1))
      by (apply Z.pow_le_mono_r; lia).
    lia. }
  destruct (Z_le_gt_dec (digits u) 1073) as [L|G].
  - assert (2 ^ digits u <= 2 ^ 1073) by (apply Z.pow_le_mono_r; lia).
    assert (2 ^ 1073 <= one - 2 ^ 1021) by (vm_compute; discriminate).
    lia.
  - assert (digits u = 1074) as E by lia.
    unfold fits53 in Hfit. rewrite E in Hfit.
    change (1074 - 53 <=? 0) with false in Hfit.
    change (1074 - 53) with 1021 in Hfit.
    apply Z.eqb_eq in Hfit.
    pose proof (Z.div_mod u (2 ^ 1021) ltac:(vm_compute; discriminate)) as D.
    rewrite Hfit in D. rewrite one_split in *.
    set (Q := 2 ^ 1021) in *. set (K := 2 ^ 52) in *.
    assert (0 < Q) by (vm_compute; reflexivity).
    set (q := u / Q) in *.
    assert (q < 2 * K) by nia.
    nia.
Qed.

(** The rounded product of a double below 1 and a positive integer [n]
    stays below [n]: no rounding reaches [n] itself. *)
Lemma round53_below (a n : Z) :
  0 <= a <= one - 2 ^ 1021 -> 1 <= n < 2 ^ 53 ->
  0 <= round53 (a * n) < n * one.
Proof.
  intros Ha Hn.
  assert (0 < 2 ^ 1021) as HQ by (vm_compute; reflexivity).
  assert (0 < 2 ^ 52) as HK by (vm_compute; reflexivity).
  pose proof one_split as E1.
  set (Q := 2 ^ 1021) in *. set (K := 2 ^ 52) in *.
  assert (0 <= a * n <= n * one - n * Q) as HP by nia.
  set (P := a * n) in *.
  unfold round53.
  destruct (Z.leb_spec (digits P - 53) 0) as [Hs|Hs]; [nia|].
  assert (0 < P) as Hpos.
  { destruct (Z.eq_dec P 0) as [E|]; [|lia].
    rewrite E in Hs. cbn in Hs. lia. }
  pose proof (digits_bounds P Hpos) as [Hlo Hhi].
  set (s := digits P - 53) in *.
  replace (digits P - 1) with ((s - 1) + 1 + 52) in Hlo by lia.
  rewrite !Z.pow_add_r in Hlo by lia.
  change (2 ^ 1) with 2 in Hlo. fold K in Hlo.
  assert (2 ^ s = 2 * 2 ^ (s - 1)) as ES.
  { replace s with (1 + (s - 1)) at 1 by lia.
    rewrite Z.pow_add_r by lia. reflexivity. }
  assert (0 < 2 ^ (s - 1)) as HH by (apply Z.pow_pos_nonneg; lia).
  assert (s <= 1074) as Hs'.
  { destruct (Z_le_gt_dec s 1074) as [|G]; [assumption|]. exfalso.
    assert (2 ^ 1074 <= 2 ^ (s - 1)) by (apply Z.pow_le_mono_r; lia).
    fold one in H.
    assert (n < 2 * K) by (unfold K; change (2 * 2 ^ 52) with (2 ^ 53); lia).
    nia. }
  assert (one = 2 ^ s * 2 ^ (1074 - s)) as EW.
  { unfold one. rewrite <- Z.pow_add_r by lia. f_equal. lia. }
  assert (0 < 2 ^ (1074 - s)) as HW by (apply Z.pow_pos_nonneg; lia).
  pose proof (Z.div_mod P (2 ^ s) ltac:(lia)) as D.
  pose proof (Z.mod_pos_bound P (2 ^ s) ltac:(lia)) as R.
  set (q := P / 2 ^ s) in *. set (rem := P mod 2 ^ s) in *.
  set (H2 := 2 ^ (s - 1)) in *. set (W := 2 ^ (1074 - s)) in *.
  rewrite ES in *. clearbody q rem H2 W Q K P. clear ES.
  assert (0 <= q) by nia.
  destruct ((H2 <? rem) || ((rem =? H2) && Z.odd q))%bool eqn:U.
  - assert (H2 <= rem) as Hr.
    { apply orb_true_iff in U as [U|U].
      - apply Z.ltb_lt in U. lia.
      - apply andb_true_iff in U as [U _]. apply Z.eqb_eq in U. lia. }
    split; [nia|].
    destruct (Z_lt_ge_dec (q + 1) (n * W)) as [L|G]; [nia|].
    exfalso.
    assert (n * one - H2 <= P) by nia.
    assert (n * Q <= H2) by lia.
    assert (H2 < n * Q) by nia.
    lia.
  - split; nia.
Qed.

(** [Math.floor(Math.random() * n)] is an index below [n]. *)
Lemma random_below_range (r : draw) (n : Z) :
  1 <= n < 2 ^ 53 -> 0 <= random_below r n < n.
Proof.
  intros Hn. unfold random_below, mul_int, floor.
  pose proof (round53_below (units r) n (draw_bound r) Hn) as [L U].
  assert (0 < one) by (vm_compute; reflexivity).
  split.
  - apply Z.div_pos; lia.
  - apply Z.div_lt_upper_bound; lia.
Qed.


(** On the samples the rounded product is the product of the IEEE model
    of the standard library. *)
Example mul_int_is_ieee_product :
  forallb (fun x =>
             forallb (fun n => mul_int x n =? ieee_mul x (n * one))
                     sample_factors)
          sample_draws = true.
Proof. vm_compute. reflexivity. Qed.

(** On the samples the quotient is the quotient of the IEEE model, and
    the decimals shown are those of the exact value of the double: the
    doubles nearest to [5.005] and [9.995] lie below the half and are cut,
    the one nearest to [8.345] lies above it, [5.125] is a tie and goes
    up. *)
Example div_int_is_ieee_quotient :
  forallb (fun a => div_int a 1000 =? ieee_div (a * one) (1000 * one))
          sample_delays = true.
Proof. vm_compute. reflexivity. Qed.

Example toFixed2_of_samples :
  map (fun a => toFixed2 (div_int a 1000)) sample_delays
  = ["5.00"; "5.00"; "5.13"; "8.35"; "9.99"; "12.00"]%string.
Proof. vm_compute. reflexivity. Qed.

Example largest_draw_stays_below :
  floor (mul_int (one - 2 ^ 1021) 7000) = 6999.
Proof. vm_compute. reflexivity. Qed.

(** The product of a draw and an integer below [2^53] has less than 1127
    binary digits. *)
Lemma digits_product (a n : Z) :
  0 <= a <= one - 2 ^ 1021 -> 1 <= n < 2 ^ 53 -> digits (a * n) - 53 <= 1074.
Proof.
  intros Ha Hn.
  destruct (Z.eq_dec (a * n) 0) as [->|Hz]; [vm_compute; discriminate|].
  assert (0 < a * n) as Hpos by nia.
  pose proof (digits_bounds (a * n) Hpos) as [Hlo _].
  destruct (Z_le_gt_dec (digits (a * n)) 1127) as [|G]; [lia|exfalso].
  assert (2 ^ 1127 <= 2 ^ (digits (a * n) - 1))
    by (apply Z.pow_le_mono_r; lia).
  assert (one * 2 ^ 53 = 2 ^ 1127) as E by (vm_compute; reflexivity).
  assert (0 < 2 ^ 1021) by (vm_compute; reflexivity).
  assert (0 < one) by (vm_compute; reflexivity).
  nia.
Qed.

(** Rounding does not cross a whole number: a value between [k] and
    [k + 1] is rounded to a double between [k] and [k + 1]. *)
Lemma round53_between (x k : Z) :
  0 <= x -> digits x - 53 <= 1074 -> 0 <= k ->
  k * one <= x < (k + 1) * one ->
  k * one <= round53 x <= (k + 1) * one.
Proof.
  intros Hx Hd Hk [Hlo Hhi]. unfold round53.
  destruct (Z.leb_spec (digits x - 53) 0) as [Hs|Hs]; [lia|].
  set (s := digits x - 53) in *.
  assert (one = 2 ^ s * 2 ^ (1074 - s)) as EW.
  { unfold one. rewrite <- Z.pow_add_r by lia. f_equal. lia. }
  assert (0 < 2 ^ s) as HS by (apply Z.pow_pos_nonneg; lia).
  assert (0 < 2 ^ (1074 - s)) as HW by (apply Z.pow_pos_nonneg; lia).
  pose proof (Z.div_mod x (2 ^ s) ltac:(lia)) as D.
  pose proof (Z.mod_pos_bound x (2 ^ s) ltac:(lia)) as R.
  set (q := x / 2 ^ s) in *. set (rem := x mod 2 ^ s) in *.
  set (W := 2 ^ (1074 - s)) in *. set (P := 2 ^ s) in *.
  rewrite EW in *. clearbody q rem W P.
  assert (k * W <= q) by nia.
  assert (q + 1 <= (k + 1) * W) by nia.
  destruct (_ || _)%bool; nia.
Qed.

(** [Math.floor(Math.random() * n)] is the whole part of the exact
    product, or one more when the rounding of the product reaches the
    next whole number. *)
Lemma random_below_near (r : draw) (n : Z) :
  1 <= n < 2 ^ 53 ->
  (units r * n) / one <= random_below r n <= (units r * n) / one + 1.
Proof.
  intros Hn. unfold random_below, mul_int, floor.
  pose proof (draw_bound r) as Hr.
  assert (0 < one) as H1 by (vm_compute; reflexivity).
  set (x := units r * n).
  assert (0 <= x) as Hx by (unfold x; nia).
  pose proof (Z.div_mod x one ltac:(lia)) as D.
  pose proof (Z.mod_pos_bound x one H1) as R.
  assert (0 <= x / one) as Hk by (apply Z.div_pos; lia).
  pose proof (round53_between x (x / one) Hx
                (digits_product (units r) n Hr Hn) Hk ltac:(lia)) as [L U].
  split.
  - apply Z.div_le_lower_bound; lia.
  - apply Z.div_le_upper_bound; lia.
Qed.


End NumberFacts.

(** ** The reply dispatcher *)

Module DispatcherFacts.

Import JsString Common Dom Dispatcher Spec StringFacts RunFacts
  RejectionFacts.
Local Open Scope js_scope.

(** *** Reading the input files *)

Lemma is_empty_trim (raw : string) :
  is_empty (trim raw) = all_chars is_space raw.
Proof.
  destruct (all_chars is_space raw) eqn:E.
  - apply is_empty_true, trim_blank, E.
  - apply is_empty_false. intros H. apply trim_blank in H.
    unfold blank in H. congruence.
Qed.

Lemma filter_map_swap {A B} (f : A -> B) (p : B -> bool) (l : list A) :
  filter p (map f l) = map f (filter (fun x => p (f x)) l).
Proof.
  induction l as [|x l IH]; simpl; [reflexivity|].
  destruct (p (f x)); simpl; now rewrite IH.
Qed.

(** The lines read are the lines of the file that are not blank, in
    order, each trimmed. *)
Lemma read_lines_spec (content : string) :
  read_lines content
  = map trim (filter (fun raw => negb (all_chars is_space raw))
                (split_lines content)).
Proof.
  unfold read_lines. rewrite filter_map_swap. f_equal.
  apply filter_ext. intros raw. now rewrite is_empty_trim.
Qed.

Lemma read_lines_clean (content line : string) :
  In line (read_lines content) ->
  line <> "" /\ ~ blank line
  /\ (forall c, first_char line = Some c -> is_space c = false)
  /\ (forall c, last_char line = Some c -> is_space c = false)
  /\ exists raw, In raw (split_lines content) /\ line = trim raw.
Proof.
  unfold read_lines. intros H. apply filter_In in H as [H Hne].
  apply in_map_iff in H as (raw & <- & Hraw).
  apply negb_true_iff, is_empty_false in Hne.
  destruct (trim_spec raw) as (_ & Hf & Hl).
  repeat split; auto.
  - intros B. destruct (trim raw) as [|c r] eqn:E; [congruence|].
    unfold blank in B. simpl in B. apply andb_true_iff in B as [B _].
    rewrite (Hf c eq_refl) in B. discriminate.
  - now exists raw.
Qed.

Lemma read_lines_keeps (content raw : string) :
  In raw (split_lines content) -> ~ blank raw ->
  In (trim raw) (read_lines content).
Proof.
  intros H B. rewrite read_lines_spec. apply in_map, filter_In.
  split; [exact H|]. apply negb_true_iff.
  unfold blank in B. now destruct (all_chars is_space raw).
Qed.

(** A pool that is a JavaScript array and is not empty always gives a
    reply. *)
Lemma pick_some {A} (pool : list A) (r : JsNumber.draw) :
  pool <> [] -> (Z.of_nat (length pool) < 2 ^ 32)%Z ->
  exists x, pick pool r = Some x /\ In x pool.
Proof.
  intros Hne Hlen. unfold pick.
  assert (1 <= Z.of_nat (length pool) < 2 ^ 53)%Z as Hn.
  { assert (2 ^ 32 < 2 ^ 53)%Z by (vm_compute; reflexivity).
    destruct pool; [congruence|]. cbn [length] in *. lia. }
  pose proof (NumberFacts.random_below_range r _ Hn) as [L U].
  destruct (nth_error pool (Z.to_nat _)) as [x|] eqn:E.
  - exists x. split; auto. eapply nth_error_In; eauto.
  - apply nth_error_None in E. lia.
Qed.

(** C10: the lines read from the input list and from the reply pool are
    the lines of the file that are not blank, in order, each without its
    surrounding white space; so no blank line is a tweet to reply to, and
    a pool file with a line that is not blank never gives an empty or
    blank reply text. *)
Theorem input_lines_are_trimmed_and_nonblank (content : string) :
  read_lines content
  = map trim (filter (fun raw => negb (all_chars is_space raw))
                (split_lines content))
  /\ (forall line, In line (read_lines content) ->
        line <> "" /\ ~ blank line
        /\ (forall c, first_char line = Some c -> is_space c = false)
        /\ (forall c, last_char line = Some c -> is_space c = false))
  /\ (forall r text, pick (read_lines content) r = Some text ->
        text <> "" /\ ~ blank text)
  /\ ((exists raw, In raw (split_lines content) /\ ~ blank raw) ->
      (Z.of_nat (length (read_lines content)) < 2 ^ 32)%Z ->
      forall o n, exists text t,
        getCannedReply (read_lines content) o n = (Val (Some text), t)
        /\ text <> "" /\ ~ blank text).
Proof.
  split; [apply read_lines_spec|]. split; [|split].
  - intros line H. apply read_lines_clean in H. tauto.
  - intros r text H. unfold pick in H. apply nth_error_In in H.
    apply read_lines_clean in H. tauto.
  - intros (raw & Hraw & B) Hlen o n.
    assert (read_lines content <> []) as Hne.
    { intros E. apply (read_lines_keeps content raw Hraw) in B.
      rewrite E in B. contradiction. }
    destruct (pick_some (read_lines content) (drawn (o n ERandom)) Hne Hlen)
      as (text & Hp & Hin).
    exists text, [(ERandom, o n ERandom)]. split.
    + unfold getCannedReply, random, bind, perform, ret. cbn.
      now rewrite Hp.
    + apply read_lines_clean in Hin. tauto.
Qed.


Lemma input_lines_are_trimmed_and_nonblank_witness :
  exists text t,
    getCannedReply (read_lines Worlds.some_pool) Worlds.still_page 0
    = (Val (Some text), t)
    /\ text <> "" /\ ~ blank text.
Proof.
  apply (proj2 (proj2 (proj2
           (input_lines_are_trimmed_and_nonblank Worlds.some_pool)))).
  - exists "yo". split; [vm_compute; auto|].
    unfold blank. vm_compute. discriminate.
  - vm_compute. reflexivity.
Defined.

(** *** Malformed URLs *)

(** C9: a URL that does not hold [status/] followed by a digit makes
    [replyToTweet] return false at once: the only call made is the error
    message, no page is opened and the browser is not touched. *)
Theorem malformed_url_is_rejected tweetUrl replyText o n :
  ~ has_status_id tweetUrl ->
  (exists msg,
      replyToTweet tweetUrl replyText o n
      = (Val false, [(ELog true msg, o n (ELog true msg))]))
  /\ Forall (fun e : entry => is_browser_call (fst e) = false)
            (snd (replyToTweet tweetUrl replyText o n)).
Proof.
  intros H. apply match_status_none in H.
  unfold replyToTweet. rewrite H.
  split; [eexists; reflexivity|].
  repeat constructor.
Qed.

Lemma malformed_url_is_rejected_witness :
  (exists msg,
      replyToTweet "https://x.com/home" (Some "hi") Worlds.still_page 0
      = (Val false,
         [(ELog true msg, Worlds.still_page 0 (ELog true msg))]))
  /\ Forall (fun e : entry => is_browser_call (fst e) = false)
            (snd (replyToTweet "https://x.com/home" (Some "hi")
                    Worlds.still_page 0)).
Proof.
  apply (malformed_url_is_rejected "https://x.com/home" (Some "hi")
           Worlds.still_page 0).
  intros H. apply match_status_spec in H. vm_compute in H. congruence.
Defined.

(** *** Pacing *)

Lemma delay_run d o n :
  delay d o n = (Val tt, [(EDelay d, o n (EDelay d))]).
Proof. reflexivity. Qed.

Lemma replyDelay_range (r : JsNumber.draw) :
  (5000 <= replyDelay r < 12000)%Z.
Proof.
  unfold replyDelay.
  assert (1 <= 7000 < 2 ^ 53)%Z as H by (vm_compute; split; congruence).
  pose proof (NumberFacts.random_below_range r 7000 H). lia.
Qed.

Lemma replyDelay_near (r : JsNumber.draw) :
  (exact_delay r <= replyDelay r <= exact_delay r + 1)%Z.
Proof.
  unfold replyDelay, exact_delay.
  assert (1 <= 7000 < 2 ^ 53)%Z as H by (vm_compute; split; congruence).
  pose proof (NumberFacts.random_below_near r 7000 H). lia.
Qed.

(** C8: the delay [Math.floor(r * 7000) + 5000], computed in doubles, is
    at least 5000 ms and less than 12000 ms for every draw [r] of
    [Math.random]; it is the delay of the formula computed on the reals,
    or one millisecond more when the rounding of the product reaches the
    next whole number, so it goes from 5000 for the draw 0 to 11999 for
    the largest draw.  A round of the loop of [main] that returns has
    ended with a draw, a message and the wait of the delay computed from
    that very draw. *)
Theorem reply_delay_in_range :
  (forall r : JsNumber.draw,
      (5000 <= replyDelay r < 12000)%Z
      /\ (exact_delay r <= replyDelay r <= exact_delay r + 1)%Z)
  /\ replyDelay JsNumber.draw_zero = 5000%Z
  /\ replyDelay Worlds.largest_draw = 11999%Z
  /\ (forall cannedComments tweetUrl o n success t,
         reply_round cannedComments tweetUrl o n = (Val success, t) ->
         exists t' i msg,
           i = (n + length t')%nat
           /\ let r := drawn (o i ERandom) in
              let wait := EDelay (Millis (replyDelay r)) in
              t = t' ++ [ (ERandom, o i ERandom);
                          (ELog false msg, o (i + 1)%nat (ELog false msg));
                          (wait, o (i + 2)%nat wait) ]
              /\ (5000 <= replyDelay r < 12000)%Z).
Proof.
  split; [intros r; split; [apply replyDelay_range|apply replyDelay_near]|].
  split; [vm_compute; reflexivity|].
  split; [vm_compute; reflexivity|].
  intros pool url o n success t H. unfold reply_round in H.
  apply bind_inv_val in H as (text & t1 & t2 & _ & H & ->).
  apply bind_inv_val in H as (u1 & t3 & t4 & _ & H & ->).
  apply bind_inv_val in H as (ok & t5 & t6 & _ & H & ->).
  apply bind_inv_val in H as (u2 & t7 & t8 & _ & H & ->).
  apply bind_inv_val in H as (r & t9 & t10 & Hr & H & ->).
  rewrite random_run in Hr. injection Hr as <- <-.
  apply bind_inv_val in H as (u3 & t11 & t12 & Hl & H & ->).
  unfold logInfo in Hl. rewrite log_run in Hl. injection Hl as _ <-.
  apply bind_inv_val in H as (u4 & t13 & t14 & Hd & H & ->).
  rewrite delay_run in Hd. injection Hd as _ <-. injection H as _ <-.
  cbn [length] in *.
  set (i := (n + length t1 + length t3 + length t5 + length t7)%nat).
  exists (t1 ++ t3 ++ t5 ++ t7), i. eexists.
  split; [rewrite !length_app; unfold i; lia|].
  cbv zeta. split; [|apply replyDelay_range].
  rewrite <- !app_assoc. cbn [app]. rewrite <- !Nat.add_assoc.
  reflexivity.
Qed.

Lemma reply_delay_in_range_witness :
  exists t' i msg,
    i = (0 + length t')%nat
    /\ let r := drawn (Worlds.still_page i ERandom) in
       let wait := EDelay (Millis (replyDelay r)) in
       snd (reply_round ["hi"] "https://x.com/home" Worlds.still_page 0)
       = t' ++ [ (ERandom, Worlds.still_page i ERandom);
                 (ELog false msg,
                  Worlds.still_page (i + 1)%nat (ELog false msg));
                 (wait, Worlds.still_page (i + 2)%nat wait) ]
       /\ (5000 <= replyDelay r < 12000)%Z.
Proof.
  apply (proj2 (proj2 (proj2 reply_delay_in_range)) ["hi"]
           "https://x.com/home" Worlds.still_page 0%nat false).
  vm_compute. reflexivity.
Defined.


(** *** The submit control *)

Lemma normalized_reply (v : option string) :
  (normalized v =? "reply")%string = says_reply_trimmed v.
Proof. destruct v as [[|c t]|]; reflexivity. Qed.

Lemma isVisibleAndEnabled_spec (btn : element) :
  isVisibleAndEnabled btn = true <-> enabled_control btn.
Proof.
  unfold isVisibleAndEnabled, enabled_control.
  rewrite !andb_true_iff, !negb_true_iff.
  destruct (String.eqb_spec (visibility btn) "hidden");
    destruct (String.eqb_spec (display btn) "none");
    destruct (disabled btn);
    destruct (aria_disabled btn) as [v|];
    try destruct (String.eqb_spec v "false");
    intuition congruence.
Qed.

Lemma is_reply_control_spec (btn : element) :
  is_reply_control btn = true <-> submit_control btn.
Proof.
  unfold is_reply_control, submit_control.
  rewrite andb_true_iff, orb_true_iff, !normalized_reply,
    isVisibleAndEnabled_spec. tauto.
Qed.

(** The search stops at the first candidate that passes the test. *)
Lemma first_reply_control_some candidates :
  forall i j,
    first_reply_control i candidates = Some j ->
    exists k btn,
      j = (i + k)%nat /\ nth_error candidates k = Some btn
      /\ is_reply_control btn = true
      /\ forall k' btn', (k' < k)%nat ->
           nth_error candidates k' = Some btn' ->
           is_reply_control btn' = false.
Proof.
  induction candidates as [|b rest IH]; intros i j; simpl; [discriminate|].
  destruct (is_reply_control b) eqn:E.
  - intros H; injection H as <-. exists 0%nat, b.
    split; [lia|]. split; [reflexivity|]. split; [exact E|].
    intros k' btn' Hk. lia.
  - intros H. apply IH in H as (k & btn & -> & Hn & Hb & Hfirst).
    exists (S k), btn.
    split; [lia|]. split; [exact Hn|]. split; [exact Hb|].
    intros [|k'] btn' Hk; simpl.
    + intros H; injection H as <-. exact E.
    + apply Hfirst. lia.
Qed.

Lemma first_reply_control_none candidates i :
  first_reply_control i candidates = None <->
  forall btn, In btn candidates -> is_reply_control btn = false.
Proof.
  revert i. induction candidates as [|b rest IH]; intros i; simpl.
  - split; [intros _ btn []|reflexivity].
  - destruct (is_reply_control b) eqn:E.
    + split; [discriminate|]. intros H. specialize (H b (or_introl eq_refl)).
      congruence.
    + rewrite IH. split.
      * intros H btn [<-|Hb]; auto.
      * intros H btn Hb. apply H. auto.
Qed.

(** What [clickReplyButtonByLabel] does once the page has answered. *)
Lemma click_run o n :
  throws (o n EDialogCandidates) = false ->
  clickReplyButtonByLabel o n
  = match first_reply_control 0 (elements (o n EDialogCandidates)) with
    | Some i =>
        (Val true,
         [(EDialogCandidates, o n EDialogCandidates);
          (EElementClick i, o (n + 1)%nat (EElementClick i))])
    | None => (Val false, [(EDialogCandidates, o n EDialogCandidates)])
    end.
Proof.
  intros H. unfold clickReplyButtonByLabel, bind, call, perform, ret.
  cbv zeta. rewrite H.
  destruct (first_reply_control 0 _); reflexivity.
Qed.

(** A click that returns has found what it returns. *)
Lemma click_inv o n clicked t :
  clickReplyButtonByLabel o n = (Val clicked, t) ->
  all_accepted t
  /\ exists a, In (EDialogCandidates, a) t
               /\ (clicked = true ->
                   exists i, first_reply_control 0 (elements a) = Some i).
Proof.
  unfold clickReplyButtonByLabel. intros H.
  apply bind_inv_val in H as (a & t1 & t2 & H1 & H2 & ->).
  pose proof (accepted_call _ _ _ _ _ H1) as A1.
  apply call_inv in H1 as (-> & _ & ->). split.
  - apply all_accepted_app. split; [exact A1|].
    eapply accepted_quiet; [|exact H2].
    destruct (first_reply_control 0 _); run_rules; reflexivity.
  - exists (o n EDialogCandidates). split; [left; reflexivity|].
    destruct (first_reply_control 0 _) as [i|]; [eauto|].
    injection H2 as <- _. discriminate.
Qed.


(** *** The run of a reply *)

Lemma reply_failed_yields tweetUrl tweetId e :
  yields (fun b => b = false) (reply_failed tweetUrl tweetId e).
Proof.
  unfold reply_failed.
  repeat (eapply yields_bind; [apply yields_any|intros ? _]).
  now apply yields_ret.
Qed.

Ltac quiet_step H :=
  let A := fresh "A" in
  apply bind_inv_val in H as (? & ? & ? & A & H & ->);
  apply accepted_quiet in A;
  [|unfold logInfo, logError, log, delay; run_rules; reflexivity].

Ltac call_step H :=
  let A := fresh "A" in
  apply bind_inv_val in H as (? & ? & ? & A & H & ->);
  apply accepted_call in A.

(** The [try] block returns true only after a click on a control found
    in the dialog, and with no call rejected. *)
Lemma reply_steps_true tweetId replyUrl replyText o n t :
  reply_steps tweetId replyUrl replyText o n = (Val true, t) ->
  all_accepted t
  /\ exists a i, In (EDialogCandidates, a) t
                 /\ first_reply_control 0 (elements a) = Some i.
Proof.
  unfold reply_steps. intros H.
  call_step H.
  apply bind_inv_val in H as (loaded & t3 & t4 & H3 & H & ->).
  apply attempt_call_inv in H3 as [-> ->].
  destruct (throws (o _ (EWaitForSelector "article" 30000))) eqn:T;
    cbn [negb] in H.
  { exfalso.
    do 3 (apply bind_inv_val in H as (? & ? & ? & _ & H & ->)).
    discriminate. }
  quiet_step H. call_step H. quiet_step H. call_step H. call_step H.
  quiet_step H. call_step H. call_step H.
  apply bind_inv_val in H as (clicked & tc & tr & Hc & H & ->).
  apply click_inv in Hc as (Ac & a & Hin & Hfound).
  destruct clicked.
  2:{ exfalso.
      do 3 (apply bind_inv_val in H as (? & ? & ? & _ & H & ->)).
      discriminate. }
  quiet_step H. quiet_step H. call_step H. call_step H. quiet_step H.
  injection H as <-. split.
  - repeat (apply all_accepted_app; split); try assumption;
      try constructor.
    + unfold rejected. cbn [fst snd]. rewrite T. reflexivity.
    + constructor.
  - destruct (Hfound eq_refl) as (i & Hi). exists a, i. split; auto.
    rewrite !in_app_iff. tauto.
Qed.

Lemma stops_open_page replyUrl : stops_at_rejection (open_page replyUrl).
Proof.
  unfold open_page, logInfo, log, getRandomUserAgent, random. stop_rules.
Qed.

Lemma stops_reply_failed tweetUrl tweetId e :
  stops_at_rejection (reply_failed tweetUrl tweetId e).
Proof. unfold reply_failed, logError, log. stop_rules. Qed.

Lemma settles_click o : settles o clickReplyButtonByLabel.
Proof. unfold clickReplyButtonByLabel. run_rules. Qed.

Lemma settles_reply_steps o tweetId replyUrl replyText :
  settles o (reply_steps tweetId replyUrl replyText).
Proof.
  pose proof (settles_click o).
  unfold reply_steps, attempt, logInfo, logError, log, delay. run_rules.
Qed.

(** A reply that returns true has run its [try] block to the end, with no
    call rejected anywhere, and has clicked a control found in the
    dialog. *)
Lemma replyToTweet_true tweetUrl replyText o n t :
  replyToTweet tweetUrl replyText o n = (Val true, t) ->
  all_accepted t
  /\ exists a i, In (EDialogCandidates, a) t
                 /\ first_reply_control 0 (elements a) = Some i.
Proof.
  unfold replyToTweet. destruct (match_status tweetUrl) as [tweetId|].
  - cbv zeta. intros H.
    apply bind_inv_val in H as (u & t0 & t1 & H0 & H & ->).
    match type of H0 with
    | open_page ?url _ _ = _ => pose proof (stops_open_page url o n) as S0
    end.
    rewrite H0 in S0.
    apply try_catch_inv_val in H as [H|(e & t2 & t3 & _ & H & _)].
    + apply reply_steps_true in H as (Ha & a & i & Hin & Hi). split.
      * apply all_accepted_app. auto.
      * exists a, i. split; auto. rewrite !in_app_iff. tauto.
    + apply reply_failed_yields in H. discriminate.
  - intros H.
    apply bind_inv_val in H as (? & ? & ? & _ & H & ->). discriminate.
Qed.

(** The run of a reply is made of its three parts; when no call is
    rejected outside the [try] block it returns, and it returns false if
    a call was rejected inside the [try] block. *)
Lemma reply_run_spec tweetUrl replyText o n :
  let run := reply_parts tweetUrl replyText o n in
  snd (replyToTweet tweetUrl replyText o n)
  = before_try run ++ inside_try run ++ in_catch run
  /\ (all_accepted (outside_try run) ->
      exists success,
        fst (replyToTweet tweetUrl replyText o n) = Val success
        /\ (some_rejected (inside_try run) -> success = false)).
Proof.
  unfold reply_parts, replyToTweet, outside_try.
  destruct (match_status tweetUrl) as [tweetId|].
  2:{ cbn [before_try inside_try in_catch]. split; [now rewrite !app_nil_r|].
      intros _. exists false. split; [reflexivity|].
      intros H. inversion H. }
  cbv zeta. unfold bind, try_catch.
  pose proof (stops_open_page ("https://x.com/i/web/status/" ++ tweetId) o n)
    as S1.
  destruct (open_page _ o n) as [[u|e|] t1];
    cbn [before_try inside_try in_catch fst snd]; [| |contradiction].
  - pose proof (settles_reply_steps o tweetId
                  ("https://x.com/i/web/status/" ++ tweetId) replyText
                  (n + length t1)) as S2.
    destruct (reply_steps _ _ _ o (n + length t1)) as [[b|e|] t2] eqn:E2;
      cbn [before_try inside_try in_catch fst snd] in *;
      [| |congruence].
    + split; [now rewrite app_nil_r|]. intros _. exists b.
      split; [reflexivity|]. intros R. destruct b; [exfalso|reflexivity].
      apply reply_steps_true in E2 as [Ha _].
      exact (accepted_not_rejected _ Ha R).
    + pose proof (stops_reply_failed tweetUrl tweetId e o
                    (n + length t1 + length t2)) as S3.
      pose proof (reply_failed_yields tweetUrl tweetId e o
                    (n + length t1 + length t2)) as Y3.
      destruct (reply_failed _ _ _ o (n + length t1 + length t2))
        as [[b|e'|] t3]; cbn [fst snd]; [| |contradiction].
      * split; [reflexivity|]. intros _. exists b.
        split; [reflexivity|]. intros _. exact (Y3 b t3 eq_refl).
      * split; [reflexivity|]. intros Ha. exfalso.
        destruct S3 as (t' & x & -> & Hx & _).
        apply all_accepted_app in Ha as [_ Ha].
        apply all_accepted_app in Ha as [_ Ha].
        inversion Ha as [|? ? Hx' _]. congruence.
  - split; [now rewrite !app_nil_r|]. intros Ha. exfalso.
    destruct S1 as (t' & x & -> & Hx & _). rewrite app_nil_r in Ha.
    apply all_accepted_app in Ha as [_ Ha].
    inversion Ha as [|? ? Hx' _]. congruence.
Qed.

(** A reply that finds no submit control in the dialog is not a success;
    it is a failure as soon as it returns. *)
Lemma no_control_no_success tweetUrl replyText o n r t :
  replyToTweet tweetUrl replyText o n = (r, t) ->
  (forall a btn, In (EDialogCandidates, a) t ->
                 In btn (elements a) -> ~ submit_control btn) ->
  r <> Val true.
Proof.
  intros Hr Hno ->.
  apply replyToTweet_true in Hr as (_ & a & j & Hin & Hj).
  apply first_reply_control_some in Hj as (x & b & _ & Hx & Hb & _).
  apply (Hno a b Hin); [eapply nth_error_In; eauto|].
  now apply is_reply_control_spec.
Qed.


(** C6 as stated does not hold: the test trims the text before comparing
    it, so a candidate whose text is [Reply] between spaces is clicked
    although neither its text nor its label equals [reply] up to case. *)
Lemma padded_label_is_clicked :
  fst (clickReplyButtonByLabel Worlds.padded_dialog 0) = Val true
  /\ ~ exists btn,
         In btn (elements (Worlds.padded_dialog 0 EDialogCandidates))
         /\ submit_control_exact btn.
Proof.
  split; [vm_compute; reflexivity|].
  intros (btn & [<-|[]] & [[H|H] _]); vm_compute in H; discriminate.
Qed.

(** C6, amended: once the page has answered, [clickReplyButtonByLabel]
    returns true exactly when some candidate of the dialog has a text or a
    label that, trimmed of its surrounding white space, equals [reply] up
    to case, and is visible, not disabled and not marked disabled for
    accessibility; it has then read the candidates and clicked one
    element, the first such candidate in document order, and done nothing
    else; with no such candidate it clicks nothing and returns false.
    A reply that meets no such candidate is never reported as a success:
    [replyToTweet] returns false for it, provided no call is rejected
    outside the [try] block, and a round of [main] that returns has
    recorded the failure for the item. *)
Theorem click_reply_by_label o n :
  let a := o n EDialogCandidates in
  throws a = false ->
  (fst (clickReplyButtonByLabel o n) = Val true <->
   exists btn, In btn (elements a) /\ submit_control btn)
  /\ ((exists btn, In btn (elements a) /\ submit_control btn) ->
      exists i btn,
        clickReplyButtonByLabel o n
        = (Val true, [ (EDialogCandidates, a);
                       (EElementClick i, o (n + 1)%nat (EElementClick i)) ])
        /\ nth_error (elements a) i = Some btn /\ submit_control btn
        /\ forall j btn', (j < i)%nat ->
             nth_error (elements a) j = Some btn' ->
             ~ submit_control btn')
  /\ (forall i,
         In (EElementClick i) (calls (snd (clickReplyButtonByLabel o n))) ->
         fst (clickReplyButtonByLabel o n) = Val true
         /\ exists btn,
              nth_error (elements a) i = Some btn /\ submit_control btn
              /\ forall j btn', (j < i)%nat ->
                   nth_error (elements a) j = Some btn' ->
                   ~ submit_control btn')
  /\ ((forall btn, In btn (elements a) -> ~ submit_control btn) ->
      clickReplyButtonByLabel o n = (Val false, [(EDialogCandidates, a)]))
  /\ (forall tweetUrl replyText o' k r t,
         replyToTweet tweetUrl replyText o' k = (r, t) ->
         (forall a' btn, In (EDialogCandidates, a') t ->
                         In btn (elements a') -> ~ submit_control btn) ->
         r <> Val true
         /\ (all_accepted
               (outside_try (reply_parts tweetUrl replyText o' k)) ->
             r = Val false))
  /\ (forall cannedComments tweetUrl o' k success t,
         reply_round cannedComments tweetUrl o' k = (Val success, t) ->
         (forall a' btn, In (EDialogCandidates, a') t ->
                         In btn (elements a') -> ~ submit_control btn) ->
         success = false
         /\ In (ELog true ("Failed to reply to " ++ tweetUrl)%string)
               (calls t)).
Proof.
  intros a Ha.
  assert (forall tweetUrl replyText o' k r t,
             replyToTweet tweetUrl replyText o' k = (r, t) ->
             (forall a' btn, In (EDialogCandidates, a') t ->
                             In btn (elements a') -> ~ submit_control btn) ->
             r <> Val true
             /\ (all_accepted
                   (outside_try (reply_parts tweetUrl replyText o' k)) ->
                 r = Val false)) as Hreply.
  { intros tweetUrl replyText o' k r t Hr Hno.
    pose proof (no_control_no_success _ _ _ _ _ _ Hr Hno) as Hne.
    split; [exact Hne|]. intros Hout.
    destruct (reply_run_spec tweetUrl replyText o' k) as [_ Hret].
    destruct (Hret Hout) as (b & Eb & _). rewrite Hr in Eb. cbn [fst] in Eb.
    subst r. destruct b; congruence. }
  assert (forall cannedComments tweetUrl o' k success t,
             reply_round cannedComments tweetUrl o' k = (Val success, t) ->
             (forall a' btn, In (EDialogCandidates, a') t ->
                             In btn (elements a') -> ~ submit_control btn) ->
             success = false
             /\ In (ELog true ("Failed to reply to " ++ tweetUrl)%string)
                   (calls t)) as Hround.
  { intros pool url o' k success t H Hno. unfold reply_round in H.
    apply bind_inv_val in H as (text & t1 & t2 & _ & H & ->).
    apply bind_inv_val in H as (u1 & t3 & t4 & _ & H & ->).
    apply bind_inv_val in H as (ok & t5 & t6 & Hr & H & ->).
    apply bind_inv_val in H as (u2 & t7 & t8 & Hl & H & ->).
    apply bind_inv_val in H as (r & t9 & t10 & _ & H & ->).
    apply bind_inv_val in H as (u3 & t11 & t12 & _ & H & ->).
    apply bind_inv_val in H as (u4 & t13 & t14 & _ & H & ->).
    injection H as <- _.
    assert (ok = false) as ->.
    { destruct ok; [exfalso|reflexivity].
      eapply (no_control_no_success _ _ _ _ _ _ Hr); [|reflexivity].
      intros a' btn Hin. apply Hno. rewrite !in_app_iff. tauto. }
    split; [reflexivity|]. cbn [negb] in Hl. unfold logError in Hl.
    rewrite log_run in Hl. injection Hl as _ <-.
    unfold calls. rewrite !map_app, !in_app_iff. cbn [map fst In]. tauto. }
  rewrite (click_run o n Ha). fold a.
  destruct (first_reply_control 0 (elements a)) as [i|] eqn:E.
  - pose proof (first_reply_control_some _ _ _ E)
      as (k & btn & -> & Hn & Hb & Hfirst).
    cbn [Nat.add] in *.
    assert (forall j btn', (j < k)%nat ->
              nth_error (elements a) j = Some btn' -> ~ submit_control btn')
      as Hfirst'.
    { intros j btn' Hj Hj' Hs. apply is_reply_control_spec in Hs.
      rewrite (Hfirst j btn' Hj Hj') in Hs. discriminate. }
    split; [|split; [|split; [|split; [|split]]]]; auto.
    + split; [intros _|reflexivity].
      exists btn. split; [eapply nth_error_In; eauto|].
      now apply is_reply_control_spec.
    + intros _. exists k, btn. split; [reflexivity|].
      split; [exact Hn|]. split; [now apply is_reply_control_spec|].
      exact Hfirst'.
    + intros i [H|[H|[]]]; [discriminate|]. injection H as <-.
      split; [reflexivity|]. exists btn.
      split; [exact Hn|]. split; [now apply is_reply_control_spec|].
      exact Hfirst'.
    + intros Hno. exfalso. apply (Hno btn).
      * eapply nth_error_In; eauto.
      * now apply is_reply_control_spec.
  - pose proof (proj1 (first_reply_control_none _ _) E) as Hnone.
    assert (~ exists btn, In btn (elements a) /\ submit_control btn) as Hex.
    { intros (btn & Hin & Hs).
      apply is_reply_control_spec in Hs. rewrite (Hnone btn Hin) in Hs.
      discriminate. }
    split; [|split; [|split; [|split; [|split]]]]; auto.
    + split; [discriminate|]. intros H. contradiction.
    + intros H. contradiction.
    + intros i [H|[]]. discriminate.
Qed.

Lemma click_reply_by_label_witness :
  exists i btn,
    clickReplyButtonByLabel Worlds.padded_dialog 0
    = (Val true,
       [ (EDialogCandidates, Worlds.padded_dialog 0 EDialogCandidates);
         (EElementClick i, Worlds.padded_dialog 1 (EElementClick i)) ])
    /\ nth_error (elements (Worlds.padded_dialog 0 EDialogCandidates)) i
       = Some btn
    /\ submit_control btn
    /\ forall j btn', (j < i)%nat ->
         nth_error (elements (Worlds.padded_dialog 0 EDialogCandidates)) j
         = Some btn' ->
         ~ submit_control btn'.
Proof.
  apply (proj1 (proj2 (click_reply_by_label Worlds.padded_dialog 0
                         eq_refl))).
  exists Worlds.padded_button. split; [left; reflexivity|].
  apply is_reply_control_spec. reflexivity.
Defined.


(** *** The batch *)

(** C4 as stated does not hold.  When the tab of an item has crashed, the
    navigation throws inside the [try] block and the screenshot of the
    [catch] block throws in its turn: [replyToTweet] gives no boolean, the
    exception leaves the loop of [main], and the second item is never
    opened.  The same happens when the browser refuses to open the page,
    which is asked for before the [try] block. *)
Lemma one_failure_aborts_batch :
  fst (replyToTweet "https://x.com/a/status/1" (Some "hi")
         Worlds.crashed_tab 0) = Throw "Error: Page crashed!"
  /\ fst (reply_all Worlds.two_tweets ["hi"] Worlds.crashed_tab 0)
     = Throw "Error: Page crashed!"
  /\ ~ In (EGoto "https://x.com/i/web/status/2")
          (calls (snd (reply_all Worlds.two_tweets ["hi"]
                         Worlds.crashed_tab 0)))
  /\ fst (reply_all Worlds.two_tweets ["hi"] Worlds.no_new_page 0)
     = Throw "Error: Target closed".
Proof.
  split; [vm_compute; reflexivity|].
  split; [vm_compute; reflexivity|].
  split; [|vm_compute; reflexivity].
  vm_compute. intros H.
  repeat (destruct H as [H|H]; [discriminate|]). exact H.
Qed.

Lemma getCannedReply_run cannedComments o n :
  getCannedReply cannedComments o n
  = (Val (pick cannedComments (drawn (o n ERandom))),
     [(ERandom, o n ERandom)]).
Proof. reflexivity. Qed.

(** A round returns what its reply returns. *)
Lemma reply_round_run cannedComments tweetUrl o n success t0 :
  replyToTweet tweetUrl (pick cannedComments (drawn (o n ERandom))) o (n + 2)
  = (Val success, t0) ->
  exists t, reply_round cannedComments tweetUrl o n = (Val success, t).
Proof.
  intros H. unfold reply_round.
  eapply bind_returns; [apply getCannedReply_run|].
  eapply bind_returns; [unfold logInfo; apply log_run|].
  cbn [length]. replace (n + 1 + 1)%nat with (n + 2)%nat by lia.
  eapply bind_returns; [exact H|].
  generalize (n + 2 + length t0)%nat. intros k.
  destruct success;
    cbv beta iota zeta
      delta [bind perform ret log logInfo logError delay random negb];
    eexists; reflexivity.
Qed.

(** When no call is rejected outside the [try] blocks, the loop makes all
    its rounds. *)
Lemma batch_run cannedComments tweetUrls :
  forall o n,
    Forall (fun run => all_accepted (outside_try run))
           (batch_parts cannedComments tweetUrls o n) ->
    exists outcomes t,
      reply_all tweetUrls cannedComments o n = (Val outcomes, t)
      /\ Forall2 (fun run success =>
                    some_rejected (inside_try run) -> success = false)
           (batch_parts cannedComments tweetUrls o n) outcomes.
Proof.
  unfold reply_all.
  induction tweetUrls as [|u rest IH]; intros o n H;
    cbn [batch_parts for_of] in *.
  - exists [], []. split; [reflexivity|constructor].
  - inversion H as [|run runs Hrun Hrest]; subst run runs. clear H.
    destruct (reply_run_spec u (pick cannedComments (drawn (o n ERandom)))
                o (n + 2)) as [_ Hret].
    destruct (Hret Hrun) as (b & Eb & Hb). clear Hret.
    destruct (replyToTweet u _ o (n + 2)) as [r0 t0] eqn:E0.
    cbn [fst] in Eb. subst r0.
    destruct (reply_round_run _ _ _ _ _ _ E0) as (t & Er).
    rewrite Er in Hrest |- *.
    destruct (IH o (n + length t)%nat Hrest) as (bs & t' & Ebs & F2).
    exists (b :: bs), (t ++ t' ++ []). split.
    + unfold bind. rewrite Er, Ebs. reflexivity.
    + constructor; [exact Hb|exact F2].
Qed.

(** A loop that returns has run its body once for each element, in order,
    one run after the other. *)
Lemma for_of_rounds {A B} (body : A -> M B) o (xs : list A) :
  forall n bs t,
    for_of xs body o n = (Val bs, t) ->
    length bs = length xs
    /\ forall j x, nth_error xs j = Some x ->
         exists b tj pre post,
           body x o (n + length pre) = (Val b, tj)
           /\ nth_error bs j = Some b
           /\ t = pre ++ tj ++ post.
Proof.
  induction xs as [|x xs IH]; intros n bs t H; cbn [for_of] in H.
  - injection H as <- <-. split; [reflexivity|].
    intros [|j] y; discriminate.
  - apply bind_inv_val in H as (b & t1 & t2 & Hb & H & ->).
    apply bind_inv_val in H as (bs' & t3 & t4 & Hbs & H & ->).
    injection H as <- <-.
    apply IH in Hbs as [Hlen Hrounds].
    split; [cbn [length]; congruence|].
    intros [|j] y Hy; cbn [nth_error] in *.
    + injection Hy as <-. exists b, t1, [], (t3 ++ []).
      cbn [length app]. rewrite Nat.add_0_r. auto.
    + destruct (Hrounds j y Hy) as (b' & tj & pre & post & Hrun & Hn & ->).
      exists b', tj, (t1 ++ pre), post.
      rewrite length_app, Nat.add_assoc.
      repeat split; auto. now rewrite app_nil_r, <- !app_assoc.
Qed.


(** C4, amended.  The run of [replyToTweet] is made of the calls before
    its [try] block (the opening of the page of the item), those inside
    it, and those of its [catch] block.  As long as no call is rejected
    outside the [try] block, [replyToTweet] returns one boolean, and that
    boolean is false whenever a call was rejected inside the [try] block
    (a wait that times out, a control that is missing, any exception).
    As long as this holds of the rounds that the loop of [main] reaches,
    the loop runs one round for every item of the list, in order, even if
    every item fails, and gives one boolean for each. *)
Theorem batch_survives_item_failures o tweetUrls cannedComments n :
  (forall tweetUrl replyText k,
      let run := reply_parts tweetUrl replyText o k in
      snd (replyToTweet tweetUrl replyText o k)
      = before_try run ++ inside_try run ++ in_catch run
      /\ (all_accepted (outside_try run) ->
          exists success,
            fst (replyToTweet tweetUrl replyText o k) = Val success
            /\ (some_rejected (inside_try run) -> success = false)))
  /\ (Forall (fun run => all_accepted (outside_try run))
             (batch_parts cannedComments tweetUrls o n) ->
      exists outcomes t,
        reply_all tweetUrls cannedComments o n = (Val outcomes, t)
        /\ length outcomes = length tweetUrls
        /\ Forall2 (fun run success =>
                      some_rejected (inside_try run) -> success = false)
             (batch_parts cannedComments tweetUrls o n) outcomes
        /\ forall j tweetUrl,
             nth_error tweetUrls j = Some tweetUrl ->
             exists success tj pre post,
               reply_round cannedComments tweetUrl o (n + length pre)
               = (Val success, tj)
               /\ nth_error outcomes j = Some success
               /\ t = pre ++ tj ++ post).
Proof.
  split; [intros tweetUrl replyText k; apply reply_run_spec|].
  intros H.
  destruct (batch_run cannedComments tweetUrls o n H)
    as (outcomes & t & E & F2).
  exists outcomes, t. split; [exact E|].
  apply for_of_rounds in E as [Hlen Hrounds]. auto.
Qed.

(** The close of the page of the first item is rejected inside its [try]
    block: the [catch] block closes the page, the item fails and the
    second one is replied to. *)
Lemma batch_survives_item_failures_witness :
  exists outcomes t,
    reply_all Worlds.two_tweets ["hi"] (Worlds.stubborn_page 21) 0
    = (Val outcomes, t)
    /\ length outcomes = length Worlds.two_tweets
    /\ Forall2 (fun run success =>
                  some_rejected (inside_try run) -> success = false)
         (batch_parts ["hi"] Worlds.two_tweets (Worlds.stubborn_page 21) 0)
         outcomes
    /\ forall j tweetUrl,
         nth_error Worlds.two_tweets j = Some tweetUrl ->
         exists success tj pre post,
           reply_round ["hi"] tweetUrl (Worlds.stubborn_page 21)
             (0 + length pre)
           = (Val success, tj)
           /\ nth_error outcomes j = Some success
           /\ t = pre ++ tj ++ post.
Proof.
  apply (proj2 (batch_survives_item_failures (Worlds.stubborn_page 21)
                  Worlds.two_tweets ["hi"] 0)).
  vm_compute. repeat constructor.
Defined.

Example rejected_close_is_survived :
  fst (reply_all Worlds.two_tweets ["hi"] (Worlds.stubborn_page 21) 0)
  = Val [false; true]
  /\ map (fun run => existsb rejected (inside_try run))
         (batch_parts ["hi"] Worlds.two_tweets (Worlds.stubborn_page 21) 0)
     = [true; false].
Proof. vm_compute. split; reflexivity. Qed.

(** On the pages where every navigation fails, both items are tried and
    both are reported as failures. *)
Example all_items_fail :
  fst (reply_all Worlds.two_tweets ["hi"] Worlds.failing_pages 0)
  = Val [false; false]
  /\ Forall (fun run => all_accepted (outside_try run))
       (batch_parts ["hi"] Worlds.two_tweets Worlds.failing_pages 0).
Proof. split; [vm_compute; reflexivity|vm_compute; repeat constructor]. Qed.

(** *** Fatal configuration errors *)

(** C5: when an input file is missing, or [auth.json] lacks a usable
    [auth_token] or [ct0], both scripts call [process.exit(1)] after an
    error message and nothing else: no call on the browser, no file
    written; and a script whose [main] returns ends with the exit code 0. *)
Theorem fatal_configuration_exits_early :
  (forall proxy fs o n,
      tweetsFile fs = None \/ commentsFile fs = None
      \/ authFile fs = AuthMissing
      \/ (exists auth_token ct0,
             authFile fs = AuthJson auth_token ct0
             /\ (truthy auth_token = false \/ truthy ct0 = false)) ->
      fst (Dispatcher.script proxy fs o n) = Exited 1
      /\ exit_code (fst (Dispatcher.script proxy fs o n)) = Some 1%Z
      /\ Forall harmless (snd (Dispatcher.script proxy fs o n)))
  /\ (forall fuel proxy auth keywordList o n,
         auth = AuthMissing
         \/ (exists auth_token ct0,
                auth = AuthJson auth_token ct0
                /\ (truthy auth_token = false \/ truthy ct0 = false)) ->
         fst (Scraper.script fuel proxy auth keywordList o n) = Exited 1
         /\ exit_code (fst (Scraper.script fuel proxy auth keywordList o n))
            = Some 1%Z
         /\ Forall harmless
              (snd (Scraper.script fuel proxy auth keywordList o n)))
  /\ (forall proxy tweets comments auth_token ct0 o n t,
         truthy auth_token = true -> truthy ct0 = true ->
         Dispatcher.main proxy (Cookies (show_opt ct0) (show_opt auth_token))
           (read_lines tweets) (read_lines comments) o n = (Val tt, t) ->
         exit_code
           (fst (Dispatcher.script proxy
                   (Files (Some tweets) (Some comments)
                      (AuthJson auth_token ct0)) o n)) = Some 0%Z)
  /\ (forall fuel proxy auth_token ct0 keywordList o n t,
         truthy auth_token = true -> truthy ct0 = true ->
         Scraper.main fuel proxy (Cookies (show_opt ct0) (show_opt auth_token))
           keywordList o n = (Val tt, t) ->
         exit_code
           (fst (Scraper.script fuel proxy (AuthJson auth_token ct0)
                   keywordList o n)) = Some 0%Z).
Proof.
  assert (forall msg code o n,
             fst (exit_after (logError msg) code o n) = Exited code
             /\ Forall harmless (snd (exit_after (logError msg) code o n)))
    as HD by (intros; split; [reflexivity|repeat constructor]).
  assert (forall msg code o n,
             fst (exit_after (Scraper.logAny msg) code o n) = Exited code
             /\ Forall harmless
                  (snd (exit_after (Scraper.logAny msg) code o n)))
    as HS by (intros; split; [reflexivity|repeat constructor]).
  split; [|split; [|split]].
  - intros proxy fs o n H. unfold Dispatcher.script.
    destruct (tweetsFile fs) as [tweets|];
      [|destruct (HD "Missing tweets_to_reply.txt file! Run the scraping script first."
                     1%Z o n) as [-> ?]; auto].
    destruct (commentsFile fs) as [comments|];
      [|destruct (HD "Missing comments.txt file!" 1%Z o n) as [-> ?]; auto].
    destruct (authFile fs) as [| |auth_token ct0] eqn:EA.
    + destruct (HD "Missing auth.json file!" 1%Z o n) as [-> ?]; auto.
    + exfalso. destruct H as [H|[H|[H|(? & ? & H & _)]]]; discriminate.
    + assert (negb (truthy auth_token) || negb (truthy ct0) = true)%bool as C.
      { destruct H as [H|[H|[H|(a & c & H & Hf)]]]; try discriminate.
        injection H as -> ->. destruct Hf as [-> | ->]; cbn;
          [reflexivity|apply orb_true_r]. }
      rewrite C.
      destruct (HD "auth.json must have both 'auth_token' and 'ct0'!"
                  1%Z o n) as [-> ?]; auto.
  - intros fuel proxy auth keywordList o n H. unfold Scraper.script.
    destruct auth as [| |auth_token ct0].
    + destruct (HS "Missing auth.json file!" 1%Z o n) as [-> ?]; auto.
    + exfalso. destruct H as [H|(? & ? & H & _)]; discriminate.
    + assert (negb (truthy auth_token) || negb (truthy ct0) = true)%bool as C.
      { destruct H as [H|(a & c & H & Hf)]; try discriminate.
        injection H as -> ->. destruct Hf as [-> | ->]; cbn;
          [reflexivity|apply orb_true_r]. }
      rewrite C.
      destruct (HS "auth.json must have both 'auth_token' and 'ct0'!"
                  1%Z o n) as [-> ?]; auto.
  - intros proxy tweets comments auth_token ct0 o n t Ha Hc E.
    unfold Dispatcher.script. cbn [tweetsFile commentsFile authFile].
    rewrite Ha, Hc. cbn [negb orb]. unfold run_main. rewrite E. reflexivity.
  - intros fuel proxy auth_token ct0 keywordList o n t Ha Hc E.
    unfold Scraper.script. rewrite Ha, Hc. cbn [negb orb].
    unfold run_main. rewrite E. reflexivity.
Qed.

Lemma fatal_configuration_exits_early_witness :
  fst (Dispatcher.script "" (Files None (Some "hi") AuthMissing)
         Worlds.still_page 0) = Exited 1
  /\ exit_code (fst (Dispatcher.script "" (Files None (Some "hi") AuthMissing)
                       Worlds.still_page 0)) = Some 1%Z
  /\ Forall harmless
       (snd (Dispatcher.script "" (Files None (Some "hi") AuthMissing)
               Worlds.still_page 0)).
Proof.
  apply (proj1 fatal_configuration_exits_early ""
           (Files None (Some "hi") AuthMissing) Worlds.still_page 0).
  left. reflexivity.
Defined.

End DispatcherFacts.

(* ================================================================== *)
(** * Part III: the rest of the code *)
(* ================================================================== *)

(** ** Identifiers, file names and the hand-off between the scripts *)

Module StringMore.

Import JsString Spec MoreSpec StringFacts.

Lemma all_chars_app (f : ascii -> bool) (a b : string) :
  all_chars f (a ++ b)%string = (all_chars f a && all_chars f b)%bool.
Proof.
  induction a as [|c a IH]; simpl; [reflexivity|].
  now rewrite IH, andb_assoc.
Qed.

Lemma match_status_cons (c : ascii) (r : string) :
  match_status (String c r)
  = match status_here (String c r) with
    | Some d => Some d
    | None => match_status r
    end.
Proof. reflexivity. Qed.

(** X2: the identifier that [replyToTweet] extracts is a non-empty run of
    digits that follows [status/] in the URL and is not followed by a
    digit. *)
Theorem extracted_id_is_numeric (s id : string) :
  match_status s = Some id ->
  id <> "" /\ all_chars is_digit id = true
  /\ exists pre rest,
       s = (pre ++ "status/" ++ id ++ rest)%string
       /\ forall c r, rest = String c r -> is_digit c = false.
Proof.
  assert (forall t, status_here t = Some id ->
            id <> "" /\ all_chars is_digit id = true
            /\ exists rest,
                 t = ("status/" ++ id ++ rest)%string
                 /\ forall c r, rest = String c r -> is_digit c = false)
    as Here.
  { intros t H. unfold status_here in H.
    destruct (strip_prefix "status/" t) as [r|] eqn:Hp; [|discriminate].
    apply strip_prefix_inv in Hp.
    destruct (is_empty (fst (span is_digit r))) eqn:He; [discriminate|].
    injection H as <-. split; [now apply is_empty_false|].
    split; [apply span_all|].
    exists (snd (span is_digit r)). split.
    - now rewrite <- span_app.
    - intros c r'. apply span_rest_stops. }
  induction s as [|c s IH]; intros H.
  - cbn in H. discriminate.
  - rewrite match_status_cons in H.
    destruct (status_here (String c s)) as [d|] eqn:E.
    + injection H as ->. apply Here in E as (Hne & Hd & rest & E & Hr).
      repeat split; auto. exists "", rest. auto.
    + destruct (IH H) as (Hne & Hd & pre & rest & -> & Hr).
      repeat split; auto. exists (String c pre), rest. auto.
Qed.

Lemma extracted_id_is_numeric_witness :
  "179" <> "" /\ all_chars is_digit "179" = true
  /\ exists pre rest,
       "https://x.com/a/status/179/photo/1"
       = (pre ++ "status/" ++ "179" ++ rest)%string
       /\ forall c r, rest = String c r -> is_digit c = false.
Proof.
  apply (extracted_id_is_numeric "https://x.com/a/status/179/photo/1" "179").
  reflexivity.
Defined.

(** The first slash of a string cuts it in one way only. *)
Lemma first_slash_unique (a a' r r' : string) :
  all_chars not_slash a = true -> all_chars not_slash a' = true ->
  (a ++ String "/" r)%string = (a' ++ String "/" r')%string ->
  a = a' /\ r = r'.
Proof.
  revert a'. induction a as [|c a IH]; intros [|c' a'] Ha Ha' E;
    simpl in *.
  - injection E as ->. auto.
  - injection E as <- _. discriminate.
  - injection E as -> _. discriminate.
  - injection E as -> E.
    apply andb_true_iff in Ha as [_ Ha].
    apply andb_true_iff in Ha' as [_ Ha'].
    destruct (IH a' Ha Ha' E) as [-> ->]. auto.
Qed.

Lemma status_here_in_user (c : ascii) (u id : string) :
  all_chars not_slash (String c u) = true ->
  status_here (String c u ++ "/status/" ++ id)%string = None.
Proof.
  intros Hu. destruct (status_here _) as [d|] eqn:E; [|reflexivity].
  exfalso. apply status_here_spec in E as (x & r & E & Hx).
  change ("/status/" ++ id)%string
    with (String "/" ("status/" ++ id))%string in E.
  change ("status/" ++ String x r)%string
    with ("status" ++ String "/" (String x r))%string in E.
  apply first_slash_unique in E as [_ E]; [|assumption|reflexivity].
  injection E as <- _. discriminate.
Qed.

Lemma match_status_after_user (user id : string) :
  all_chars not_slash user = true ->
  id <> "" -> all_chars is_digit id = true ->
  match_status (user ++ "/status/" ++ id)%string = Some id.
Proof.
  intros Hu Hne Hd. induction user as [|c u IH].
  - change ("" ++ "/status/" ++ id)%string
      with (String "/" ("status/" ++ id))%string.
    rewrite match_status_cons.
    change (status_here (String "/" ("status/" ++ id))) with (@None string).
    assert (status_here ("status/" ++ id)%string = Some id) as E.
    { unfold status_here. rewrite strip_prefix_app.
      rewrite (span_whole is_digit id Hd). cbn [fst].
      apply is_empty_false in Hne. now rewrite Hne. }
    destruct ("status/" ++ id)%string eqn:Es; [discriminate|].
    rewrite match_status_cons, E. reflexivity.
  - change ((String c u ++ "/status/" ++ id)%string)
      with (String c (u ++ "/status/" ++ id))%string.
    rewrite match_status_cons.
    change (String c (u ++ "/status/" ++ id))%string
      with (String c u ++ "/status/" ++ id)%string.
    rewrite (status_here_in_user c u id Hu).
    apply IH. simpl in Hu. now apply andb_true_iff in Hu as [_ Hu].
Qed.

(** X3: the dispatcher extracts from every URL that the filter of the
    scraper accepts the identifier that ends it, so it never takes such a
    URL for a malformed one. *)
Theorem accepted_url_gives_its_id (href : string) :
  is_tweet_url href = true ->
  exists user id,
    href = ("https://x.com/" ++ user ++ "/status/" ++ id)%string
    /\ match_status href = Some id.
Proof.
  intros H. apply is_tweet_url_spec in H
    as (user & id & -> & Hu & Hns & Hi & Hd).
  exists user, id. split; [reflexivity|].
  cbn. now apply match_status_after_user.
Qed.

Lemma accepted_url_gives_its_id_witness :
  exists user id,
    "https://x.com/status/status/7"
    = ("https://x.com/" ++ user ++ "/status/" ++ id)%string
    /\ match_status "https://x.com/status/status/7" = Some id.
Proof.
  apply (accepted_url_gives_its_id "https://x.com/status/status/7").
  reflexivity.
Defined.


(** X4: the filter of the scraper accepts nothing that goes on after the
    digits of a canonical URL with something that is not a digit: the
    links to [/photo/1], [/analytics] and the like, and the links with a
    query, are left out. *)
Theorem longer_links_are_refused (href : string) (c : ascii) (r : string) :
  is_tweet_url href = true -> is_digit c = false ->
  is_tweet_url (href ++ String c r)%string = false.
Proof.
  intros H Hc. apply is_tweet_url_spec in H
    as (user & id & -> & Hu & Hns & Hi & Hd).
  unfold is_tweet_url.
  rewrite !append_assoc, strip_prefix_app.
  change ("/status/" ++ id ++ String c r)%string
    with (String "/" ("status/" ++ id ++ String c r))%string.
  rewrite span_stop by (auto; reflexivity).
  change (String "/" ("status/" ++ id ++ String c r))%string
    with ("/status/" ++ (id ++ String c r))%string.
  rewrite strip_prefix_app, all_chars_app. cbn [all_chars].
  rewrite Hc. cbn. now rewrite !andb_false_r.
Qed.

Lemma longer_links_are_refused_witness :
  is_tweet_url ("https://x.com/a/status/179" ++ "/photo/1")%string = false.
Proof.
  apply (longer_links_are_refused "https://x.com/a/status/179" "/" "photo/1");
    reflexivity.
Defined.

(** *** What the dispatcher reads of what the scraper wrote *)

Lemma trimStart_fixed (s : string) (c : ascii) :
  first_char s = Some c -> is_space c = false -> trimStart s = s.
Proof.
  destruct s as [|x r]; simpl; [discriminate|].
  intros H Hc. injection H as ->. now rewrite Hc.
Qed.

Lemma trimEnd_fixed (s : string) :
  (forall c, last_char s = Some c -> is_space c = false) -> trimEnd s = s.
Proof.
  induction s as [|x r IH]; intros H; [reflexivity|].
  cbn [trimEnd]. destruct r as [|y r'].
  - cbn. rewrite (H x eq_refl). reflexivity.
  - rewrite IH by (intros c Hc; apply H; exact Hc).
    cbn [is_empty]. now rewrite andb_false_r.
Qed.

Lemma last_char_app (a b : string) :
  b <> "" -> last_char (a ++ b)%string = last_char b.
Proof.
  intros Hb. induction a as [|x a IH]; [reflexivity|].
  simpl append. cbn [last_char]. rewrite IH.
  destruct (a ++ b)%string eqn:E; [|reflexivity].
  destruct a; [simpl in E; congruence|discriminate].
Qed.

Lemma last_char_all (f : ascii -> bool) (s : string) (c : ascii) :
  all_chars f s = true -> last_char s = Some c -> f c = true.
Proof.
  induction s as [|x r IH]; [discriminate|].
  cbn [all_chars last_char]. intros H. apply andb_true_iff in H as [Hx Hr].
  destruct r as [|y r'].
  - intros E. injection E as <-. exact Hx.
  - apply IH, Hr.
Qed.

Lemma digit_not_space (c : ascii) : is_digit c = true -> is_space c = false.
Proof.
  unfold is_digit, is_space. intros H.
  apply andb_true_iff in H as [L U].
  apply Nat.leb_le in L. apply Nat.leb_le in U.
  repeat match goal with
         | |- context [(?a <=? ?b)%nat] => destruct (Nat.leb_spec a b)
         | |- context [(?a =? ?b)%nat] => destruct (Nat.eqb_spec a b)
         end; try reflexivity; lia.
Qed.

Lemma trim_canonical (u : string) : canonical_url u -> trim u = u.
Proof.
  intros (user & id & -> & _ & _ & Hi & Hd). unfold trim.
  rewrite (trimStart_fixed _ "h"%char) by reflexivity.
  apply trimEnd_fixed. intros c Hc.
  rewrite <- !append_assoc in Hc. rewrite last_char_app in Hc by assumption.
  apply digit_not_space. eapply last_char_all; eauto.
Qed.

(** X5: the dispatcher reads back the list that the scraper wrote: for a
    list of canonical URLs that is not empty and holds no line feed, the
    lines read from the joined text are the list itself. *)
Theorem list_written_is_list_read (urls : list string) :
  urls <> [] -> Forall canonical_url urls ->
  Forall (fun u => no_LF u = true) urls ->
  Dispatcher.read_lines (join newline urls) = urls.
Proof.
  intros Hne Hc Hl. unfold Dispatcher.read_lines.
  rewrite (split_lines_join urls Hne Hl).
  clear Hne Hl. induction Hc as [|u l Hu _ IH]; [reflexivity|].
  cbn [map filter]. rewrite (trim_canonical u Hu).
  destruct Hu as (user & id & -> & _). cbn [append is_empty negb].
  f_equal. exact IH.
Qed.

Lemma list_written_is_list_read_witness :
  Dispatcher.read_lines (join newline Worlds.two_tweets) = Worlds.two_tweets.
Proof.
  apply (list_written_is_list_read Worlds.two_tweets).
  - discriminate.
  - repeat constructor; apply is_tweet_url_spec; reflexivity.
  - repeat constructor.
Defined.

(** X6: the name under which a keyword enters the file name of the
    screenshot has the length of the keyword and holds only letters,
    digits and underscores, and a keyword made of such characters is kept
    as it is. *)
Theorem sanitized_name_is_plain (keyword : string) :
  String.length (sanitize keyword) = String.length keyword
  /\ all_chars name_char (sanitize keyword) = true
  /\ (all_chars name_char keyword = true -> sanitize keyword = keyword).
Proof.
  induction keyword as [|c r (IH1 & IH2 & IH3)]; [repeat split|].
  cbn [sanitize String.length all_chars]. unfold name_char at 1.
  split; [now rewrite IH1|]. split.
  - destruct (is_alnum c) eqn:E; [now rewrite E|exact IH2].
  - unfold name_char at 1. intros H. apply andb_true_iff in H as [Hc Hr].
    rewrite (IH3 Hr). destruct (is_alnum c) eqn:E; [reflexivity|].
    cbn in Hc. apply Ascii.eqb_eq in Hc. now subst c.
Qed.


Lemma sanitized_name_is_plain_witness :
  all_chars name_char "give_rep1" = true
  /\ sanitize "give_rep1" = "give_rep1".
Proof.
  split; [reflexivity|].
  apply (proj2 (proj2 (sanitized_name_is_plain "give_rep1"))).
  reflexivity.
Defined.

End StringMore.

(** ** Counting the calls that succeed *)

Module RunMore.

Import Common Spec MoreSpec RunFacts.
Local Open Scope js_scope.

Lemma succeeded_app ev (t1 t2 : list entry) :
  succeeded ev (t1 ++ t2) = (succeeded ev t1 + succeeded ev t2)%nat.
Proof. unfold succeeded. now rewrite filter_app, length_app. Qed.

Lemma succeeded_none {A} ev (m : M A) o n :
  only (fun e => e <> ev) m -> succeeded ev (snd (m o n)) = 0%nat.
Proof.
  intros H. specialize (H o n). unfold succeeded.
  induction H as [|[e a] t He _ IH]; [reflexivity|].
  cbn [filter fst snd]. cbn [fst] in He.
  destruct ev, e; try exact IH; congruence.
Qed.

Lemma once_bind_quiet {A B} ev (m : M A) (k : A -> M B) :
  only (fun e => e <> ev) m -> (forall a, once_iff_returns ev (k a)) ->
  once_iff_returns ev (bind m k).
Proof.
  intros Hm Hk o n. pose proof (succeeded_none ev m o n Hm) as Z.
  unfold bind. destruct (m o n) as [[a|?|] t1]; cbn [snd] in Z; auto.
  specialize (Hk a o (n + length t1)%nat).
  destruct (k a o (n + length t1)%nat) as [r t2].
  rewrite succeeded_app, Z. exact Hk.
Qed.

Lemma returns_without_bind {A B} ev (m : M A) (k : A -> M B) :
  returns_without ev m -> (forall a, returns_without ev (k a)) ->
  returns_without ev (bind m k).
Proof.
  intros Hm Hk o n. destruct (Hm o n) as (Z & a & E).
  unfold bind. destruct (m o n) as [r t1]. cbn [fst snd] in *. subst r.
  destruct (Hk a o (n + length t1)%nat) as (Z2 & b & E2).
  destruct (k a o (n + length t1)%nat) as [r t2]. cbn [fst snd] in *.
  rewrite succeeded_app, Z, Z2. eauto.
Qed.

Lemma returns_without_ret {A} ev (a : A) : returns_without ev (ret a).
Proof. intros o n. split; [reflexivity|now exists a]. Qed.

Lemma returns_without_perform ev e :
  e <> ev -> returns_without ev (perform e).
Proof.
  intros H o n. split; [|now eexists].
  apply (succeeded_none ev (perform e) o n).
  now apply only_perform.
Qed.

(** The close that ends a computation: it succeeds exactly when the
    computation returns. *)
Lemma once_close_page {A} (k : answer -> M A) :
  (forall a, returns_without EPageClose (k a)) ->
  once_iff_returns EPageClose (bind (call EPageClose) k).
Proof.
  intros Hk o n. unfold bind, call. cbv zeta.
  destruct (throws (o n EPageClose)) eqn:T.
  - unfold succeeded. cbn. now rewrite T.
  - destruct (Hk (o n EPageClose) o (n + 1)%nat) as (Z & a & E).
    cbn [length]. destruct (k _ o (n + 1)%nat) as [r t]. cbn [fst snd] in *.
    subst r. rewrite succeeded_app, Z. unfold succeeded. cbn. now rewrite T.
Qed.

Lemma once_close_browser {A} (k : answer -> M A) :
  (forall a, returns_without EBrowserClose (k a)) ->
  once_iff_returns EBrowserClose (bind (call EBrowserClose) k).
Proof.
  intros Hk o n. unfold bind, call. cbv zeta.
  destruct (throws (o n EBrowserClose)) eqn:T.
  - unfold succeeded. cbn. now rewrite T.
  - destruct (Hk (o n EBrowserClose) o (n + 1)%nat) as (Z & a & E).
    cbn [length]. destruct (k _ o (n + 1)%nat) as [r t]. cbn [fst snd] in *.
    subst r. rewrite succeeded_app, Z. unfold succeeded. cbn. now rewrite T.
Qed.

Lemma once_try_catch {A} ev (m : M A) (h : string -> M A) :
  once_iff_returns ev m -> (forall e, once_iff_returns ev (h e)) ->
  once_iff_returns ev (try_catch m h).
Proof.
  intros Hm Hh o n. specialize (Hm o n). unfold try_catch.
  destruct (m o n) as [[a|e|] t1]; auto.
  specialize (Hh e o (n + length t1)%nat).
  destruct (h e o (n + length t1)%nat) as [r t2].
  rewrite succeeded_app, Hm. exact Hh.
Qed.

End RunMore.

(** ** The scraper, beyond its output *)

Module ScraperMore.

Import JsString Common Scraper Spec MoreSpec StringFacts RunFacts
  RejectionFacts ScraperFacts RunMore.
Local Open Scope js_scope.

(** X7: when the navigation to the search page of a keyword fails,
    [scrapeUrlsForKeyword] returns the empty list after a message that
    shows the exception: it does not look at the page, takes no screenshot
    and throws nothing. *)
Theorem failed_search_gives_empty_list fuel keyword o n :
  let a := o (n + 2)%nat (EGoto (search_url keyword)) in
  throws a = true ->
  fst (scrapeUrlsForKeyword fuel keyword o n) = Val []
  /\ calls (snd (scrapeUrlsForKeyword fuel keyword o n))
     = [ ERandom;
         ELog false ("Navigating to search page for keyword: " ++ keyword);
         EGoto (search_url keyword);
         ERandom; ELog false ("Error: " ++ error a) ].
Proof.
  intros a H. unfold a in *. clear a.
  unfold scrapeUrlsForKeyword, caught, try_catch, logAny, log, random,
    bind, call, perform, ret.
  cbn -[collect_loop search_url append]. rewrite H.
  cbn -[search_url append]. split; reflexivity.
Qed.


Lemma failed_search_gives_empty_list_witness :
  fst (scrapeUrlsForKeyword 20 "giverep" Worlds.crashed_tab 0) = Val []
  /\ calls (snd (scrapeUrlsForKeyword 20 "giverep" Worlds.crashed_tab 0))
     = [ ERandom;
         ELog false ("Navigating to search page for keyword: " ++ "giverep");
         EGoto (search_url "giverep");
         ERandom; ELog false "Error: Error: Page crashed!" ].
Proof.
  apply (failed_search_gives_empty_list 20 "giverep" Worlds.crashed_tab 0).
  reflexivity.
Defined.

Lemma only_calls {A} (P : event -> Prop) (m : M A) o n r t ev :
  only P m -> m o n = (r, t) -> In ev (calls t) -> P ev.
Proof.
  intros Hm E Hin. specialize (Hm o n). rewrite E in Hm. cbn [snd] in Hm.
  unfold calls in Hin. apply in_map_iff in Hin as ([ev' a] & <- & Hin).
  eapply Forall_forall in Hm; [|exact Hin]. exact Hm.
Qed.

Lemma calls_app (t1 t2 : list entry) : calls (t1 ++ t2) = calls t1 ++ calls t2.
Proof. apply map_app. Qed.

Lemma screenshots_app (t1 t2 : list entry) :
  screenshots (t1 ++ t2) = screenshots t1 ++ screenshots t2.
Proof. apply flat_map_app. Qed.

Lemma navigated_app (t1 t2 : list entry) :
  navigated (t1 ++ t2) = (navigated t1 || navigated t2)%bool.
Proof. apply existsb_app. Qed.

Lemma gotos_app (t1 t2 : list entry) : gotos (t1 ++ t2) = gotos t1 ++ gotos t2.
Proof. apply flat_map_app. Qed.

Lemma screenshots_none {A} (m : M A) o n r t :
  only not_screenshot m -> m o n = (r, t) -> screenshots t = [].
Proof.
  intros H E. specialize (H o n). rewrite E in H. cbn [snd] in H. clear E.
  induction H as [|[ev a] l Hev _ IH]; [reflexivity|].
  cbn [screenshots flat_map fst]. fold (screenshots l). rewrite IH.
  destruct ev; try reflexivity. now elim (Hev path).
Qed.

Lemma gotos_none {A} (m : M A) o n r t :
  only not_goto m -> m o n = (r, t) -> gotos t = [] /\ navigated t = false.
Proof.
  intros H E. specialize (H o n). rewrite E in H. cbn [snd] in H. clear E.
  induction H as [|[ev a] l Hev _ [IH1 IH2]]; [split; reflexivity|].
  cbn [gotos navigated flat_map existsb fst].
  fold (gotos l). fold (navigated l). rewrite IH1, IH2.
  destruct ev; try (split; reflexivity). now elim (Hev url).
Qed.

Lemma scrape_parts_quiet fuel :
  (forall msg, only not_screenshot (logAny msg))
  /\ (forall msg, only not_goto (logAny msg))
  /\ (forall set h k, only not_screenshot (collect_loop fuel set h k))
  /\ (forall set h k, only not_goto (collect_loop fuel set h k)).
Proof.
  repeat split; intros.
  - apply only_logAny; intros p; discriminate.
  - apply only_logAny; intros p; discriminate.
  - apply only_collect_loop; intros; intros p; discriminate.
  - apply only_collect_loop; intros; intros p; discriminate.
Qed.

(** X8: a call of [scrapeUrlsForKeyword] that returns has taken one
    screenshot, named after the sanitized keyword, when the navigation
    succeeded and the list returned is empty, and none otherwise. *)
Theorem screenshot_marks_empty_search fuel keyword o n r t :
  scrapeUrlsForKeyword fuel keyword o n = (Val r, t) ->
  screenshots t
  = if (navigated t && (length r =? 0)%nat)%bool
    then [("no_tweets_" ++ sanitize keyword ++ ".png")%string]
    else [].
Proof.
  destruct (scrape_parts_quiet fuel) as (Ls & Lg & Cs & Cg).
  unfold scrapeUrlsForKeyword. intros H.
  apply bind_inv_val in H as (u & t1 & t2 & H1 & H2 & ->).
  apply bind_inv_val in H2 as (ok & t3 & t4 & H3 & H4 & ->).
  pose proof (screenshots_none _ _ _ _ _ (Ls _) H1) as S1.
  pose proof (gotos_none _ _ _ _ _ (Lg _) H1) as [_ G1].
  apply caught_call_inv in H3 as [-> ->].
  rewrite !screenshots_app, !navigated_app, S1, G1.
  cbn [screenshots navigated flat_map existsb fst snd app orb].
  destruct (throws (o _ (EGoto _))); cbn [negb orb andb] in *.
  - apply bind_inv_val in H4 as (w & t5 & t6 & H5 & H6 & ->).
    injection H6 as <- <-. rewrite app_nil_r.
    rewrite (screenshots_none _ _ _ _ _ (Ls _) H5).
    now rewrite (proj2 (gotos_none _ _ _ _ _ (Lg _) H5)).
  - apply bind_inv_val in H4 as (w & t5 & t6 & H5 & H6 & ->).
    apply bind_inv_val in H6 as (h & t7 & t8 & H7 & H8 & ->).
    apply bind_inv_val in H8 as (set & t9 & t10 & H9 & H10 & ->).
    apply bind_inv_val in H10 as (x & t11 & t12 & H11 & H12 & ->).
    apply bind_inv_val in H12 as (y & t13 & t14 & H13 & H14 & ->).
    injection H14 as <- <-.
    apply screenshots_none in H5;
      [|apply only_attempt; run_rules; intros p; discriminate].
    apply screenshots_none in H7; [|run_rules; intros p; discriminate].
    apply screenshots_none in H9; [|apply Cs].
    apply screenshots_none in H11; [|apply Ls].
    rewrite !screenshots_app, H5, H7, H9, H11. cbn [app].
    rewrite app_nil_r.
    destruct set as [|x0 set].
    + change (length [] =? 0)%nat with true in H13.
      apply bind_inv_val in H13 as (z & t15 & t16 & H15 & H16 & ->).
      apply bind_inv_val in H16 as (z' & t17 & t18 & H17 & H18 & ->).
      apply call_inv in H17 as (-> & _ & ->). injection H18 as _ <-.
      rewrite screenshots_app, (screenshots_none _ _ _ _ _ (Ls _) H15).
      reflexivity.
    + change (length (x0 :: set) =? 0)%nat with false in H13.
      injection H13 as _ <-. reflexivity.
Qed.

Lemma screenshot_marks_empty_search_witness :
  let t := snd (scrapeUrlsForKeyword 20 "giverep" MoreWorlds.empty_page 0) in
  screenshots t
  = if (navigated t && (length (@nil string) =? 0)%nat)%bool
    then [("no_tweets_" ++ sanitize "giverep" ++ ".png")%string]
    else [].
Proof.
  apply (screenshot_marks_empty_search 20 "giverep" MoreWorlds.empty_page 0).
  vm_compute. reflexivity.
Defined.

(** *** Opening the session *)

Lemma pick_userAgent (r : JsNumber.draw) :
  exists ua, pick userAgents r = Some ua /\ In ua userAgents.
Proof.
  apply DispatcherFacts.pick_some; [discriminate|].
  vm_compute. reflexivity.
Qed.

Lemma user_agent_is_configured_aux o n :
  exists ua,
    getRandomUserAgent o n = (Val (Some ua), [(ERandom, o n ERandom)])
    /\ In ua userAgents.
Proof.
  destruct (pick_userAgent (drawn (o n ERandom))) as (ua & E & Hin).
  exists ua. split; [|exact Hin].
  unfold getRandomUserAgent, random, bind, perform, ret.
  cbv beta iota zeta. rewrite E. reflexivity.
Qed.

(** X1: [getRandomUserAgent] never gives [undefined]: for every draw of
    [Math.random] it returns one of the three configured strings, after
    that one call to the random source. *)
Theorem user_agent_is_configured o n :
  exists ua,
    getRandomUserAgent o n = (Val (Some ua), [(ERandom, o n ERandom)])
    /\ In ua userAgents.
Proof. apply user_agent_is_configured_aux. Qed.

Lemma browser_calls_app (t1 t2 : list entry) :
  browser_calls (t1 ++ t2) = browser_calls t1 ++ browser_calls t2.
Proof. unfold browser_calls. now rewrite calls_app, filter_app. Qed.

Lemma plays_ret {A} (a : A) : plays [] (ret a).
Proof. intros o n. exists 0%nat. repeat split. cbn. lia. Qed.

Lemma plays_perform (ev : event) :
  is_browser_call ev = false -> plays [] (perform ev).
Proof.
  intros H o n. exists 0%nat. unfold browser_calls. cbn.
  rewrite H. repeat split. lia.
Qed.

Lemma plays_call (ev : event) :
  is_browser_call ev = true -> plays [ev] (call ev).
Proof.
  intros H o n. exists 1%nat. unfold browser_calls, call. cbn.
  rewrite H. repeat split; [lia|]. now destruct (throws (o n ev)).
Qed.

Lemma plays_bind {A B} (L1 L2 : list event) (m : M A) (k : A -> M B) :
  plays L1 m -> (forall a, plays L2 (k a)) -> plays (L1 ++ L2) (bind m k).
Proof.
  intros Hm Hk o n. destruct (Hm o n) as (k1 & E1 & B1 & R1).
  unfold bind. destruct (m o n) as [[a|?|] t1]; cbn [fst snd] in *.
  - destruct (Hk a o (n + length t1)%nat) as (k2 & E2 & B2 & R2).
    destruct (k a o (n + length t1)%nat) as [r t2]; cbn [fst snd] in *.
    exists (length L1 + k2)%nat. subst k1.
    rewrite browser_calls_app, E1, E2, firstn_all, firstn_app_2, length_app.
    repeat split; [lia|]. destruct r; auto; lia.
  - exists k1. rewrite E1, length_app, firstn_app.
    replace (k1 - length L1)%nat with 0%nat by lia.
    cbn [firstn]. rewrite app_nil_r. repeat split; auto; lia.
  - contradiction.
Qed.

Lemma plays_quiet_bind {A B} (L : list event) (m : M A) (k : A -> M B) :
  plays [] m -> (forall a, plays L (k a)) -> plays L (bind m k).
Proof. intros Hm Hk. apply (plays_bind [] L); assumption. Qed.

Lemma plays_logAny msg : plays [] (logAny msg).
Proof.
  unfold logAny, random, log.
  repeat first [ apply plays_quiet_bind; [|intros ?]
               | apply plays_ret | apply plays_perform; reflexivity ].
Qed.

Lemma plays_delay d : plays [] (delay d).
Proof.
  unfold delay.
  repeat first [ apply plays_quiet_bind; [|intros ?]
               | apply plays_ret | apply plays_perform; reflexivity ].
Qed.

Lemma plays_getRandomUserAgent : plays [] getRandomUserAgent.
Proof.
  unfold getRandomUserAgent, random.
  repeat first [ apply plays_quiet_bind; [|intros ?]
               | apply plays_ret | apply plays_perform; reflexivity ].
Qed.

(** What follows the choice of the user agent in [initializeBrowser]. *)
Lemma plays_login proxy c ua :
  plays (login_sequence (launchArgs proxy) ua c)
    (logAny ("User-Agent: " ++ show_opt (Some ua))%string ;;
     logAny "Launching browser..." ;;
     call (ELaunch (launchArgs proxy)) ;;
     call ENewPage ;;
     call (ESetUserAgent (Some ua)) ;;
     call (ESetDefaultNavigationTimeout 60000) ;;
     logAny "Opening https://x.com/ for login..." ;;
     call (EGoto "https://x.com/") ;;
     logAny "Setting Twitter auth cookies..." ;;
     call (ESetCookie (ct0_value c) (auth_token_value c)) ;;
     logAny "Reloading page to apply authentication..." ;;
     call EReload ;;
     delay (Millis 1000) ;;
     logAny "Should be logged in now!").
Proof.
  unfold login_sequence.
  apply plays_quiet_bind; [apply plays_logAny|intros ?].
  apply plays_quiet_bind; [apply plays_logAny|intros ?].
  apply (plays_bind [_]); [apply plays_call; reflexivity|intros ?].
  apply (plays_bind [_]); [apply plays_call; reflexivity|intros ?].
  apply (plays_bind [_]); [apply plays_call; reflexivity|intros ?].
  apply (plays_bind [_]); [apply plays_call; reflexivity|intros ?].
  apply plays_quiet_bind; [apply plays_logAny|intros ?].
  apply (plays_bind [_]); [apply plays_call; reflexivity|intros ?].
  apply plays_quiet_bind; [apply plays_logAny|intros ?].
  apply (plays_bind [_]); [apply plays_call; reflexivity|intros ?].
  apply plays_quiet_bind; [apply plays_logAny|intros ?].
  apply (plays_bind [_] []); [apply plays_call; reflexivity|intros ?].
  apply plays_quiet_bind; [apply plays_delay|intros ?].
  apply plays_logAny.
Qed.

(** The call on the browser that a run made last is the last of the
    beginning of the sequence that it played. *)
Lemma last_call_of_prefix (L : list event) k (t' : list entry) (x : entry) :
  browser_calls (t' ++ [x]) = firstn k L ->
  is_browser_call (fst x) = true -> (k <= length L)%nat ->
  (1 <= k)%nat /\ nth_error L (k - 1) = Some (fst x).
Proof.
  intros H Hx Hk. rewrite browser_calls_app in H.
  unfold browser_calls at 2 in H. cbn [calls map filter] in H.
  rewrite Hx in H.
  pose proof (f_equal (@length event) H) as Hl.
  rewrite length_app, length_firstn in Hl. cbn [length] in Hl.
  split; [lia|].
  replace (k - 1)%nat with (length (browser_calls t')) by lia.
  rewrite <- (firstn_skipn k L), <- H, <- app_assoc.
  rewrite nth_error_app2 by lia. now rewrite Nat.sub_diag.
Qed.

Lemma login_plays proxy c o n :
  exists ua k,
    In ua userAgents
    /\ browser_calls (snd (initializeBrowser proxy c o n))
       = firstn k (login_sequence (launchArgs proxy) ua c)
    /\ (k <= 7)%nat
    /\ match fst (initializeBrowser proxy c o n) with
       | Val _ => k = 7%nat
       | Throw _ => True
       | Diverge => False
       end.
Proof.
  unfold initializeBrowser.
  set (pre := if is_empty proxy then ret tt
              else logAny ("Using proxy: " ++ proxy)%string).
  assert (plays [] pre) as Hpre
      by (unfold pre; destruct (is_empty proxy);
          [apply plays_ret|apply plays_logAny]).
  destruct ((pre ;; _) o n) as [r t] eqn:E. cbn [fst snd].
  apply bind_inv in E as [(u & t0 & t' & E0 & E & ->)|[(e & E & ->)|[E ->]]].
  - pose proof (Hpre o n) as (k0 & B0 & L0 & _). rewrite E0 in B0.
    cbn [snd length] in *. replace k0 with 0%nat in B0 by lia.
    cbn [firstn] in B0.
    destruct (user_agent_is_configured_aux o (n + length t0)%nat)
      as (ua & Eua & Hin).
    apply bind_inv in E as [(v & t1 & t2 & E1 & E & ->)|[(e & E & _)|[E _]]];
      rewrite Eua in *; try discriminate.
    injection E1 as <- <-.
    match type of E with
    | ?m o ?i = _ =>
        destruct ((plays_login proxy c ua
                   : plays (login_sequence (launchArgs proxy) ua c) m) o i)
          as (k & Ek & Bk & Rk)
    end.
    rewrite E in Ek, Rk. cbn [fst snd] in *.
    exists ua, k. rewrite !browser_calls_app, B0, Ek.
    repeat split; auto.
  - pose proof (Hpre o n) as (k0 & B0 & L0 & _). rewrite E in B0.
    cbn [snd length] in *. replace k0 with 0%nat in B0 by lia.
    destruct (pick_userAgent JsNumber.draw_zero) as (ua & _ & Hin).
    exists ua, 0%nat. rewrite B0. repeat split; auto. lia.
  - pose proof (Hpre o n) as (k0 & _ & _ & R0). rewrite E in R0.
    contradiction.
Qed.

Lemma stops_login proxy c : stops_at_rejection (initializeBrowser proxy c).
Proof.
  unfold initializeBrowser, getRandomUserAgent, logAny, random, log, delay.
  destruct (is_empty proxy); stop_rules.
Qed.

Lemma login_calls_browser proxy c :
  only (fun ev => never_rejects ev = true \/ is_browser_call ev = true)
       (initializeBrowser proxy c).
Proof.
  unfold initializeBrowser, getRandomUserAgent, logAny, random, log, delay.
  run_rules; auto.
Qed.

(** The two facts about a log-in put together. *)
Lemma login_run (L : list event) k (m : M unit) o n :
  stops_at_rejection m ->
  only (fun ev => never_rejects ev = true \/ is_browser_call ev = true) m ->
  browser_calls (snd (m o n)) = firstn k L -> (k <= length L)%nat ->
  match fst (m o n) with
  | Val _ => k = length L
  | Throw _ => True
  | Diverge => False
  end ->
  match m o n with
  | (Val _, t) => k = length L /\ all_accepted t
  | (Throw e, t) =>
      (1 <= k <= length L)%nat
      /\ exists t' x,
           t = t' ++ [x] /\ all_accepted t' /\ rejected x = true
           /\ e = error (snd x) /\ nth_error L (k - 1) = Some (fst x)
  | (Diverge, _) => False
  end.
Proof.
  intros Hs Ho Hb Hk Hr. specialize (Hs o n). specialize (Ho o n).
  destruct (m o n) as [[u|e|] t]; cbn [fst snd] in *; auto.
  destruct Hs as (t' & x & -> & Hx & He & Ht').
  assert (is_browser_call (fst x) = true) as Bx.
  { apply Forall_app in Ho as [_ Ho]. inversion Ho as [|? ? Hx' _].
    unfold rejected in Hx. apply andb_true_iff in Hx as [Hx _].
    apply negb_true_iff in Hx. destruct Hx' as [Hx'|Hx']; congruence. }
  destruct (last_call_of_prefix L k t' x Hb Bx Hk) as [H1 Hn].
  split; [lia|]. exists t', x. auto.
Qed.

(** X15: [initializeBrowser] of the scraper makes its calls on the browser
    in one fixed order, each at most once: launch with the three flags
    (and the proxy flag when a proxy is set), new page, user agent (one of
    the configured ones), default navigation time-out, navigation to the
    site, cookies [ct0] and [auth_token], reload.  It returns only after
    all seven, none of them rejected.  A call that is rejected makes it
    throw what the call was rejected with: that call is the last one
    made, so that nothing is tried again and the calls that follow in the
    sequence are not made, and no call before it was rejected. *)
Theorem login_sequence_is_fixed proxy c o n :
  exists ua k,
    In ua userAgents
    /\ browser_calls (snd (initializeBrowser proxy c o n))
       = firstn k (login_sequence (launchArgs proxy) ua c)
    /\ match initializeBrowser proxy c o n with
       | (Val _, t) => k = 7%nat /\ all_accepted t
       | (Throw e, t) =>
           (1 <= k <= 7)%nat
           /\ exists t' x,
                t = t' ++ [x] /\ all_accepted t' /\ rejected x = true
                /\ e = error (snd x)
                /\ nth_error (login_sequence (launchArgs proxy) ua c) (k - 1)
                   = Some (fst x)
       | (Diverge, _) => False
       end.
Proof.
  destruct (login_plays proxy c o n) as (ua & k & Hin & Hb & Hk & Hr).
  exists ua, k. split; [exact Hin|]. split; [exact Hb|].
  apply (login_run (login_sequence (launchArgs proxy) ua c) k
           (initializeBrowser proxy c) o n
           (stops_login proxy c) (login_calls_browser proxy c) Hb Hk Hr).
Qed.


(** *** Closing the browser *)

Lemma gather_never_closes fuel proxy c keywordList :
  only (fun e => e <> EBrowserClose) (gather fuel proxy c keywordList).
Proof.
  assert (forall set h k,
            only (fun e => e <> EBrowserClose) (collect_loop fuel set h k))
    as L by (intros; apply only_collect_loop; intros; discriminate).
  assert (forall keyword,
            only (fun e => e <> EBrowserClose)
                 (scrapeUrlsForKeyword fuel keyword)) as S.
  { intros keyword. unfold scrapeUrlsForKeyword, logAny, random, log.
    run_rules; discriminate. }
  assert (forall keywords acc,
            only (fun e => e <> EBrowserClose)
                 (scrape_all fuel keywords acc)) as SA.
  { induction keywords as [|kw rest IH]; intros acc; cbn [scrape_all].
    - apply only_ret.
    - apply only_bind; [apply S|intros ?; apply IH]. }
  unfold gather, initializeBrowser, getRandomUserAgent, logAny, random, log,
    delay.
  run_rules; discriminate.
Qed.

(** X9: [main] of the scraper has closed the browser, once, when it
    returns; when it throws (a page call of the scroll loop, the write of
    the file or the close itself fails) or never ends, no close has
    succeeded: the browser is left running. *)
Theorem browser_is_closed_iff_main_returns fuel proxy c keywordList o n :
  match main fuel proxy c keywordList o n with
  | (Val _, t) => succeeded EBrowserClose t = 1%nat
  | (_, t) => succeeded EBrowserClose t = 0%nat
  end.
Proof.
  revert o n. change (once_iff_returns EBrowserClose
                        (main fuel proxy c keywordList)).
  unfold main. apply once_bind_quiet; [apply gather_never_closes|].
  intros allUrls. unfold save.
  apply once_bind_quiet.
  - unfold logAny, random, log.
    destruct (0 <? length allUrls)%nat; run_rules; discriminate.
  - intros _. apply once_close_browser. intros _.
    unfold logAny, random, log.
    repeat first [ apply returns_without_bind; [|intros ?]
                 | apply returns_without_ret
                 | apply returns_without_perform; discriminate ].
Qed.

(** *** One search for each keyword *)

Lemma scrape_gotos fuel keyword o n r t :
  scrapeUrlsForKeyword fuel keyword o n = (Val r, t) ->
  gotos t = [search_url keyword].
Proof.
  destruct (scrape_parts_quiet fuel) as (Ls & Lg & Cs & Cg).
  unfold scrapeUrlsForKeyword. intros H.
  apply bind_inv_val in H as (u & t1 & t2 & H1 & H2 & ->).
  apply bind_inv_val in H2 as (ok & t3 & t4 & H3 & H4 & ->).
  apply gotos_none in H1 as [G1 _]; [|apply Lg].
  apply caught_call_inv in H3 as [-> ->].
  rewrite !gotos_app, G1. cbn [gotos flat_map fst app].
  f_equal.
  destruct (throws (o _ (EGoto _))); cbn [negb] in H4.
  - apply bind_inv_val in H4 as (w & t5 & t6 & H5 & H6 & ->).
    injection H6 as _ <-. apply gotos_none in H5 as [G5 _]; [|apply Lg].
    now rewrite gotos_app, G5.
  - apply bind_inv_val in H4 as (w & t5 & t6 & H5 & H6 & ->).
    apply bind_inv_val in H6 as (h & t7 & t8 & H7 & H8 & ->).
    apply bind_inv_val in H8 as (set & t9 & t10 & H9 & H10 & ->).
    apply bind_inv_val in H10 as (x & t11 & t12 & H11 & H12 & ->).
    apply bind_inv_val in H12 as (y & t13 & t14 & H13 & H14 & ->).
    injection H14 as _ <-.
    apply gotos_none in H5 as [G5 _];
      [|apply only_attempt; run_rules; intros p; discriminate].
    apply gotos_none in H7 as [G7 _]; [|run_rules; intros p; discriminate].
    apply gotos_none in H9 as [G9 _]; [|apply Cg].
    apply gotos_none in H11 as [G11 _]; [|apply Lg].
    apply gotos_none in H13 as [G13 _].
    + now rewrite !gotos_app, G5, G7, G9, G11, G13.
    + destruct (length set =? 0)%nat; [|apply only_ret].
      apply only_bind; [apply Lg|intros ?].
      run_rules; intros p; discriminate.
Qed.

Lemma scrape_all_gotos fuel keywords :
  forall acc o n urls t,
    scrape_all fuel keywords acc o n = (Val urls, t) ->
    gotos t = map search_url keywords.
Proof.
  induction keywords as [|kw rest IH]; intros acc o n urls t H;
    cbn [scrape_all] in H.
  - injection H as _ <-. reflexivity.
  - apply bind_inv_val in H as (r & t1 & t2 & H1 & H2 & ->).
    apply scrape_gotos in H1. apply IH in H2.
    now rewrite gotos_app, H1, H2.
Qed.

Lemma init_gotos proxy c o n u t :
  initializeBrowser proxy c o n = (Val u, t) -> gotos t = ["https://x.com/"].
Proof.
  unfold initializeBrowser. intros H.
  apply bind_inv_val in H as (x0 & t0 & t' & H0 & H & ->).
  apply gotos_none in H0 as [G0 _];
    [|destruct (is_empty proxy); [apply only_ret|];
      apply only_logAny; intros p; discriminate].
  apply bind_inv_val in H as (ua & t1 & t2 & H1 & H & ->).
  apply gotos_none in H1 as [G1 _];
    [|unfold getRandomUserAgent, random; run_rules; intros p; discriminate].
  do 7 (apply bind_inv_val in H as (? & ? & ? & Hq & H & ->);
        apply gotos_none in Hq as [?G _];
        [|first [apply only_logAny; intros p; discriminate
                |run_rules; intros p; discriminate]]).
  apply bind_inv_val in H as (? & ? & ? & Hg & H & ->).
  apply call_inv in Hg as (_ & _ & ->).
  do 5 (apply bind_inv_val in H as (? & ? & ? & Hq & H & ->);
        apply gotos_none in Hq as [?G _];
        [|first [apply only_logAny; intros p; discriminate
                |apply only_delay; intros p; discriminate
                |run_rules; intros p; discriminate]]).
  apply gotos_none in H as [Gend _];
    [|apply only_logAny; intros p; discriminate].
  rewrite !gotos_app.
  repeat match goal with
         | G' : gotos _ = [] |- _ => rewrite G'; clear G'
         end.
  reflexivity.
Qed.

(** X17: a run of the scraper that gathers its set has navigated once to
    the site, to log in, and then once to the search page of each keyword,
    the keywords being taken in lower case, each once, in the order of
    their first occurrence. *)
Theorem one_search_per_keyword fuel proxy c keywordList o n urls t :
  gather fuel proxy c keywordList o n = (Val urls, t) ->
  gotos t
  = "https://x.com/" :: map search_url (uniq (map toLowerCase keywordList))
  /\ NoDup (uniq (map toLowerCase keywordList)).
Proof.
  unfold gather. intros H.
  apply bind_inv_val in H as (u & t1 & t2 & H1 & H2 & ->).
  apply init_gotos in H1. apply scrape_all_gotos in H2.
  rewrite gotos_app, H1, H2. split; [reflexivity|apply uniq_NoDup].
Qed.

Lemma one_search_per_keyword_witness :
  gotos (snd (gather 20 "" Worlds.some_cookies targetKeywords
                Worlds.still_page 0))
  = "https://x.com/" :: map search_url (uniq (map toLowerCase targetKeywords))
  /\ NoDup (uniq (map toLowerCase targetKeywords)).
Proof.
  apply (one_search_per_keyword 20 "" Worlds.some_cookies targetKeywords
           Worlds.still_page 0 ["https://x.com/a/status/1"]).
  vm_compute. reflexivity.
Defined.


(** *** How long the scraper insists *)

Lemma collections_app (t1 t2 : list entry) :
  collections (t1 ++ t2) = (collections t1 + collections t2)%nat.
Proof. unfold collections. now rewrite filter_app, length_app. Qed.

Lemma collections_none {A} (m : M A) o n r t :
  only not_links m -> m o n = (r, t) -> collections t = 0%nat.
Proof.
  intros H E. specialize (H o n). rewrite E in H. cbn [snd] in H. clear E.
  unfold collections.
  induction H as [|[ev a] l He _ IH]; [reflexivity|].
  cbn [filter fst]. unfold not_links in He. cbn [fst] in He.
  destruct ev; try exact IH. congruence.
Qed.

Lemma loop_body_collects_once set last tries o n s t :
  loop_body set last tries o n = (Val s, t) -> collections t = 1%nat.
Proof.
  unfold loop_body. intros H.
  apply bind_inv_val in H as (a & t1 & t2 & H1 & H2 & ->).
  apply call_inv in H1 as (_ & _ & ->).
  apply collections_none in H2.
  - rewrite collections_app, H2. reflexivity.
  - cbv zeta. apply only_bind; [apply only_logAny; discriminate|intros _].
    destruct (_ <=? _)%nat; [apply only_ret|apply scroll_on_no_links].
Qed.

(** A loop that returns has filled the quota or has seen the twenty
    stalls, one turn each at least. *)
Lemma collect_loop_cause fuel :
  forall set last tries o n set' t,
    collect_loop fuel set last tries o n = (Val set', t) ->
    (maxTweetsPerKeyword <= length set')%nat
    \/ (maxScrollTries <= tries + collections t)%nat.
Proof.
  induction fuel as [|fuel IH]; intros set last tries o n set' t;
    cbn [collect_loop];
    destruct ((length set <? maxTweetsPerKeyword)%nat
              && (tries <? maxScrollTries)%nat)%bool eqn:C;
    intros H; try discriminate;
    try (injection H as <- <-;
         apply andb_false_iff in C as [C|C]; apply Nat.ltb_ge in C;
         [left; exact C|right; cbn; lia]).
  apply bind_inv_val in H as (s & t1 & t2 & H1 & H2 & ->).
  pose proof (loop_body_collects_once _ _ _ _ _ _ _ H1) as C1.
  pose proof (loop_body_step set last tries o n) as S. rewrite H1 in S.
  pose proof (loop_body_result _ _ _ _ _ _ _ H1) as R. cbv zeta in R.
  rewrite collections_app, C1.
  destruct s as [s'|s' l k].
  - injection H2 as <- _. destruct R as [[E L]|(? & ? & E & _)];
      [|discriminate].
    injection E as ->. left. exact L.
  - destruct S as (i & _ & S). cbv zeta in S.
    apply IH in H2 as [H2|H2]; [left; exact H2|right].
    destruct S as [(_ & _ & ->)|(_ & _ & ->)]; lia.
Qed.

(** X19: after a navigation that succeeded, [scrapeUrlsForKeyword] gives
    up with fewer than 100 URLs only after it has collected the links of
    the page twenty times at least: the stall limit is never cut short. *)
Theorem short_list_means_twenty_tries fuel keyword o n r t :
  scrapeUrlsForKeyword fuel keyword o n = (Val r, t) ->
  navigated t = true ->
  (length r < maxTweetsPerKeyword)%nat ->
  (maxScrollTries <= collections t)%nat.
Proof.
  destruct (scrape_parts_quiet fuel) as (Ls & Lg & Cs & Cg).
  unfold scrapeUrlsForKeyword. intros H.
  apply bind_inv_val in H as (u & t1 & t2 & H1 & H2 & ->).
  apply bind_inv_val in H2 as (ok & t3 & t4 & H3 & H4 & ->).
  pose proof (gotos_none _ _ _ _ _ (Lg _) H1) as [_ G1].
  apply caught_call_inv in H3 as [-> ->].
  rewrite !navigated_app, G1.
  cbn [navigated existsb fst snd orb].
  destruct (throws (o _ (EGoto _))); cbn [negb orb] in *.
  - apply bind_inv_val in H4 as (w & t5 & t6 & H5 & H6 & ->).
    injection H6 as _ <-. rewrite app_nil_r.
    now rewrite (proj2 (gotos_none _ _ _ _ _ (Lg _) H5)).
  - intros _ Hlen.
    apply bind_inv_val in H4 as (w & t5 & t6 & H5 & H6 & ->).
    apply bind_inv_val in H6 as (h & t7 & t8 & H7 & H8 & ->).
    apply bind_inv_val in H8 as (set & t9 & t10 & H9 & H10 & ->).
    apply bind_inv_val in H10 as (x & t11 & t12 & H11 & H12 & ->).
    apply bind_inv_val in H12 as (y & t13 & t14 & H13 & H14 & ->).
    unfold ret in H14.
    assert (E : r = firstn maxTweetsPerKeyword set) by congruence.
    subst r. clear H14.
    apply collect_loop_cause in H9 as [Q|Q].
    + rewrite firstn_length_le in Hlen by exact Q. lia.
    + rewrite !collections_app. cbn [Nat.add] in Q. lia.
Qed.

Lemma short_list_means_twenty_tries_witness :
  (maxScrollTries
   <= collections (snd (scrapeUrlsForKeyword 20 "giverep"
                          Worlds.still_page 0)))%nat.
Proof.
  apply (short_list_means_twenty_tries 20 "giverep" Worlds.still_page 0
           ["https://x.com/a/status/1"]).
  - vm_compute. reflexivity.
  - vm_compute. reflexivity.
  - vm_compute. lia.
Defined.

End ScraperMore.

(** ** The dispatcher, item by item *)

Module DispatcherMore.

Import JsString Common Dom Dispatcher Spec MoreSpec StringFacts RunFacts
  RejectionFacts DispatcherFacts RunMore.
Local Open Scope js_scope.

Ltac once_rules :=
  repeat first
    [ apply once_close_page; intros ?;
      unfold logInfo, logError, log;
      repeat first [ apply returns_without_bind; [|intros ?]
                   | apply returns_without_ret
                   | apply returns_without_perform; discriminate ]
    | apply once_bind_quiet;
      [ unfold clickReplyButtonByLabel, attempt, getRandomUserAgent,
          logInfo, logError, log, delay, random;
        run_rules; discriminate
      | intros ? ]
    | match goal with
      | |- once_iff_returns _ (if ?b then _ else _) => destruct b
      end ].

Lemma once_reply_failed tweetUrl tweetId e :
  once_iff_returns EPageClose (reply_failed tweetUrl tweetId e).
Proof. unfold reply_failed. once_rules. Qed.

Lemma once_reply_steps tweetId replyUrl replyText :
  once_iff_returns EPageClose (reply_steps tweetId replyUrl replyText).
Proof. unfold reply_steps. once_rules. Qed.

Lemma reply_closes_its_page tweetUrl replyText o n :
  match replyToTweet tweetUrl replyText o n with
  | (Val _, t) =>
      succeeded EPageClose t = if has_id tweetUrl then 1%nat else 0%nat
  | (_, t) => succeeded EPageClose t = 0%nat
  end.
Proof.
  unfold replyToTweet, has_id.
  destruct (match_status tweetUrl) as [tweetId|].
  - revert o n.
    match goal with
    | |- forall o n, match ?m o n with _ => _ end =>
        change (once_iff_returns EPageClose m)
    end.
    once_rules. apply once_try_catch;
      [apply once_reply_steps|intros e; apply once_reply_failed].
  - reflexivity.
Qed.

(** X10: a call of [replyToTweet] on a URL with an identifier has closed
    the page that it opened, once, when it returns, whether the reply
    succeeded or not; when it throws, no close has succeeded; on a URL
    without identifier it closes nothing. *)
Theorem page_is_closed_iff_reply_returns tweetUrl replyText o n :
  match replyToTweet tweetUrl replyText o n with
  | (Val _, t) =>
      succeeded EPageClose t = if has_id tweetUrl then 1%nat else 0%nat
  | (_, t) => succeeded EPageClose t = 0%nat
  end.
Proof. apply reply_closes_its_page. Qed.


(** *** Time spent sleeping *)

Lemma slept_app (t1 t2 : list entry) :
  slept (t1 ++ t2) = (slept t1 + slept t2)%Z.
Proof.
  unfold slept. induction t1 as [|[ev a] t IH]; cbn [app fold_right fst].
  - reflexivity.
  - rewrite IH. destruct ev; try reflexivity. destruct d; lia.
Qed.

Lemma sleeps_quiet {A} (m : M A) : only no_sleep m -> sleeps_at_most 0%Z m.
Proof.
  intros H o n. specialize (H o n).
  induction H as [|[ev a] t He _ IH]; [cbn; lia|].
  cbn [slept fold_right fst] in *. fold (slept t).
  destruct ev; try exact IH. destruct d; [now elim (He ms)|exact IH].
Qed.

Lemma sleeps_delay ms : (0 <= ms)%Z -> sleeps_at_most ms (delay (Millis ms)).
Proof. intros H o n. cbn. lia. Qed.

Lemma sleeps_weaken {A} h h' (m : M A) :
  sleeps_at_most h m -> (h <= h')%Z -> sleeps_at_most h' m.
Proof. intros H L o n. specialize (H o n). lia. Qed.

Lemma sleeps_bind {A B} h1 h2 (m : M A) (k : A -> M B) :
  sleeps_at_most h1 m -> (forall a, sleeps_at_most h2 (k a)) ->
  (0 <= h2)%Z -> sleeps_at_most (h1 + h2) (bind m k).
Proof.
  intros Hm Hk H2 o n. specialize (Hm o n). unfold bind.
  destruct (m o n) as [[a|?|] t1]; cbn [snd] in *; try lia.
  specialize (Hk a o (n + length t1)%nat).
  destruct (k a o (n + length t1)%nat) as [r t2]. cbn [snd] in *.
  rewrite slept_app. lia.
Qed.

Lemma sleeps_try_catch {A} h1 h2 (m : M A) (h : string -> M A) :
  sleeps_at_most h1 m -> (forall e, sleeps_at_most h2 (h e)) ->
  sleeps_at_most (h1 + h2) (try_catch m h).
Proof.
  intros Hm Hh o n. specialize (Hm o n). unfold try_catch.
  pose proof (Hh "" o 0%nat) as P.
  destruct (m o n) as [[a|e|] t1]; cbn [snd] in *; try lia.
  specialize (Hh e o (n + length t1)%nat).
  destruct (h e o (n + length t1)%nat) as [r t2]. cbn [snd] in *.
  rewrite slept_app. lia.
Qed.

Ltac quiet_sleep :=
  apply sleeps_quiet;
  unfold clickReplyButtonByLabel, attempt, getRandomUserAgent,
    getCannedReply, logInfo, logError, log, random;
  run_rules; intros ?; discriminate.

Lemma sleeps_reply_failed tweetUrl tweetId e :
  sleeps_at_most 0%Z (reply_failed tweetUrl tweetId e).
Proof. unfold reply_failed. quiet_sleep. Qed.

(** The sleeps of the [try] block: 1000, 800, 1000 and 3000 ms. *)
Lemma sleeps_reply_steps tweetId replyUrl replyText :
  sleeps_at_most 5800%Z (reply_steps tweetId replyUrl replyText).
Proof.
  unfold reply_steps.
  apply (sleeps_bind 0%Z 5800%Z); [quiet_sleep| |lia]. intros _.
  apply (sleeps_bind 0%Z 5800%Z); [quiet_sleep| |lia]. intros [|]; cbn [negb].
  - apply (sleeps_bind 1000%Z 4800%Z); [apply sleeps_delay; lia| |lia]. intros _.
    apply (sleeps_bind 0%Z 4800%Z); [quiet_sleep| |lia]. intros _.
    apply (sleeps_bind 800%Z 4000%Z); [apply sleeps_delay; lia| |lia]. intros _.
    apply (sleeps_bind 0%Z 4000%Z); [quiet_sleep| |lia]. intros _.
    apply (sleeps_bind 0%Z 4000%Z); [quiet_sleep| |lia]. intros _.
    apply (sleeps_bind 1000%Z 3000%Z); [apply sleeps_delay; lia| |lia]. intros _.
    apply (sleeps_bind 0%Z 3000%Z); [quiet_sleep| |lia]. intros _.
    apply (sleeps_bind 0%Z 3000%Z); [quiet_sleep| |lia]. intros _.
    apply (sleeps_bind 0%Z 3000%Z); [quiet_sleep| |lia]. intros [|].
    + apply (sleeps_bind 0%Z 3000%Z); [quiet_sleep| |lia]. intros _.
      apply (sleeps_bind 3000%Z 0%Z); [apply sleeps_delay; lia| |lia]. intros _.
      quiet_sleep.
    + apply (sleeps_weaken 0%Z); [quiet_sleep|lia].
  - apply (sleeps_weaken 0%Z); [quiet_sleep|lia].
Qed.

Lemma sleeps_replyToTweet tweetUrl replyText :
  sleeps_at_most 5800%Z (replyToTweet tweetUrl replyText).
Proof.
  unfold replyToTweet. destruct (match_status tweetUrl) as [tweetId|].
  - apply (sleeps_bind 0%Z 5800%Z); [quiet_sleep| |lia]. intros _.
    apply (sleeps_try_catch 5800%Z 0%Z);
      [apply sleeps_reply_steps|intros e; apply sleeps_reply_failed].
  - apply (sleeps_weaken 0%Z); [quiet_sleep|lia].
Qed.

(** One round of the loop of [main] that returns has slept its pacing
    delay and, before it, the sleeps of the reply at most. *)
Lemma reply_round_sleep cannedComments tweetUrl o n success t :
  reply_round cannedComments tweetUrl o n = (Val success, t) ->
  (5000 <= slept t <= 17799)%Z.
Proof.
  unfold reply_round. intros H.
  apply bind_inv_val in H as (text & t1 & t2 & H1 & H & ->).
  apply bind_inv_val in H as (u1 & t3 & t4 & H3 & H & ->).
  apply bind_inv_val in H as (ok & t5 & t6 & H5 & H & ->).
  apply bind_inv_val in H as (u2 & t7 & t8 & H7 & H & ->).
  apply bind_inv_val in H as (r & t9 & t10 & H9 & H & ->).
  apply bind_inv_val in H as (u3 & t11 & t12 & H11 & H & ->).
  apply bind_inv_val in H as (u4 & t13 & t14 & H13 & H & ->).
  injection H as _ <-. rewrite delay_run in H13. injection H13 as _ <-.
  assert (forall A (m : M A) i x tx,
            sleeps_at_most 0%Z m -> m o i = (Val x, tx) -> slept tx = 0%Z)
    as Q.
  { intros A m i x tx Hm E. specialize (Hm o i). rewrite E in Hm.
    cbn [snd] in Hm. lia. }
  apply Q in H1; [|quiet_sleep]. apply Q in H3; [|quiet_sleep].
  apply Q in H7; [|destruct ok; quiet_sleep].
  apply Q in H9; [|quiet_sleep]. apply Q in H11; [|quiet_sleep].
  pose proof (sleeps_replyToTweet tweetUrl text o (n + length t1 + length t3))
    as S5.
  rewrite H5 in S5. cbn [snd] in S5.
  pose proof (replyDelay_range r).
  rewrite !slept_app, H1, H3, H7, H9, H11. cbn [slept fold_right fst]. lia.
Qed.

(** X13: a loop of [main] that returns has slept, in the sleeps of the
    script itself, at least 5 s and at most 17.799 s for each item of the
    list: the pacing delay, and the fixed sleeps of a reply. *)
Theorem batch_sleeps_in_proportion tweetUrls cannedComments o n outcomes t :
  reply_all tweetUrls cannedComments o n = (Val outcomes, t) ->
  (5000 * Z.of_nat (length tweetUrls) <= slept t
   <= 17799 * Z.of_nat (length tweetUrls))%Z.
Proof.
  unfold reply_all. revert n outcomes t.
  induction tweetUrls as [|u rest IH]; intros n outcomes t H;
    cbn [for_of] in H.
  - injection H as _ <-. cbn. lia.
  - apply bind_inv_val in H as (b & t1 & t2 & H1 & H & ->).
    apply bind_inv_val in H as (bs & t3 & t4 & H3 & H & ->).
    injection H as _ <-.
    apply reply_round_sleep in H1. apply IH in H3.
    rewrite !slept_app. cbn [length slept fold_right]. lia.
Qed.

Lemma batch_sleeps_in_proportion_witness :
  (5000 * Z.of_nat (length Worlds.two_tweets)
   <= slept (snd (reply_all Worlds.two_tweets ["hi"] Worlds.failing_pages
                    0%nat))
   <= 17799 * Z.of_nat (length Worlds.two_tweets))%Z.
Proof.
  apply (batch_sleeps_in_proportion Worlds.two_tweets ["hi"]
           Worlds.failing_pages 0 [false; false]).
  vm_compute. reflexivity.
Defined.


(** *** The steps of a reply *)

Lemma touched_app (t1 t2 : list entry) :
  touched (t1 ++ t2) = touched t1 ++ touched t2.
Proof. unfold touched, calls. now rewrite map_app, filter_app. Qed.

Lemma touched_none {A} (m : M A) o n :
  only leaves_tweet m -> touched (snd (m o n)) = [].
Proof.
  intros H. specialize (H o n). unfold touched, calls.
  induction H as [|[ev a] t He _ IH]; [reflexivity|].
  cbn [map filter fst]. unfold leaves_tweet in He. cbn [fst] in He.
  now rewrite He.
Qed.

Lemma waits_quiet {A} (m : M A) : only leaves_tweet m -> waits_for_article m.
Proof. intros H o n. left. now apply touched_none. Qed.

Lemma waits_bind_quiet {A B} (m : M A) (k : A -> M B) :
  only leaves_tweet m -> (forall a, waits_for_article (k a)) ->
  waits_for_article (bind m k).
Proof.
  intros Hm Hk o n. pose proof (touched_none m o n Hm) as Z.
  unfold bind. destruct (m o n) as [[a|?|] t1]; cbn [snd] in *; auto.
  specialize (Hk a o (n + length t1)%nat).
  destruct (k a o (n + length t1)%nat) as [r t2]. cbn [snd] in *.
  rewrite touched_app, Z. destruct Hk as [Hk|(x & Hin & Hx)]; [now left|].
  right. exists x. split; [|exact Hx]. apply in_or_app. now right.
Qed.

Lemma waits_try_catch {A} (m : M A) (h : string -> M A) :
  waits_for_article m -> (forall e, only leaves_tweet (h e)) ->
  waits_for_article (try_catch m h).
Proof.
  intros Hm Hh o n. specialize (Hm o n). unfold try_catch.
  destruct (m o n) as [[a|e|] t1]; cbn [snd] in *; auto.
  pose proof (touched_none (h e) o (n + length t1)%nat (Hh e)) as Z.
  destruct (h e o (n + length t1)%nat) as [r t2]. cbn [snd] in *.
  rewrite touched_app, Z, app_nil_r.
  destruct Hm as [Hm|(x & Hin & Hx)]; [now left|].
  right. exists x. split; [|exact Hx]. apply in_or_app. now left.
Qed.

(** The wait for the article decides: what follows a wait that failed
    leaves the page alone. *)
Lemma waits_after_article {B} (k : bool -> M B) :
  only leaves_tweet (k false) ->
  waits_for_article
    (bind (attempt (call (EWaitForSelector "article" 30000))) k).
Proof.
  intros Hk o n.
  unfold bind at 1, attempt, try_catch, bind, call, ret. cbv zeta.
  destruct (throws (o n (EWaitForSelector "article" 30000))) eqn:T;
    cbn [length app Nat.add].
  - pose proof (touched_none (k false) o (n + 1)%nat Hk) as Z.
    destruct (k false o (n + 1)%nat) as [r t]. cbn [snd] in *.
    left. unfold touched, calls in *.
    cbn [map filter fst touches_tweet app]. exact Z.
  - destruct (k true o (n + 1)%nat) as [r t]. cbn [snd].
    right. eexists. split; [left; reflexivity|exact T].
Qed.

Ltac leave_tweet :=
  unfold clickReplyButtonByLabel, attempt, getRandomUserAgent,
    logInfo, logError, log, delay, random;
  run_rules; reflexivity.

(** X12: whatever the outcome of [replyToTweet], if it has scrolled to
    the tweet, clicked, typed or searched the dialog, then the wait for
    the article of the tweet had succeeded: after a time-out of that
    wait, or a failure before it, the content of the page is left
    alone. *)
Theorem tweet_is_touched_only_after_article tweetUrl replyText o n :
  touched (snd (replyToTweet tweetUrl replyText o n)) = []
  \/ exists a,
       In (EWaitForSelector "article" 30000, a)
          (snd (replyToTweet tweetUrl replyText o n))
       /\ throws a = false.
Proof.
  revert o n. change (waits_for_article (replyToTweet tweetUrl replyText)).
  unfold replyToTweet. destruct (match_status tweetUrl) as [tweetId|].
  - apply waits_bind_quiet; [leave_tweet|intros ?].
    apply waits_try_catch; [|intros e; unfold reply_failed; leave_tweet].
    unfold reply_steps.
    apply waits_bind_quiet; [leave_tweet|intros ?].
    apply waits_after_article. cbn [negb]. leave_tweet.
  - apply waits_quiet. leave_tweet.
Qed.




Lemma browser_calls_none {A} (m : M A) o n r t :
  only off_browser m -> m o n = (r, t) -> browser_calls t = [].
Proof.
  intros H E. specialize (H o n). rewrite E in H. cbn [snd] in H. clear E.
  unfold browser_calls, calls.
  induction H as [|[ev a] l He _ IH]; [reflexivity|].
  cbn [map filter fst]. unfold off_browser in He. cbn [fst] in He.
  now rewrite He.
Qed.

Lemma browser_call_made ev o n a t :
  is_browser_call ev = true -> call ev o n = (Val a, t) ->
  browser_calls t = [ev].
Proof.
  intros Hb H. apply call_inv in H as (_ & _ & ->).
  unfold browser_calls. cbn. now rewrite Hb.
Qed.

Lemma click_true_calls o n t :
  clickReplyButtonByLabel o n = (Val true, t) ->
  exists i, browser_calls t = [EDialogCandidates; EElementClick i].
Proof.
  unfold clickReplyButtonByLabel. intros H.
  apply bind_inv_val in H as (a & t1 & t2 & H1 & H2 & ->).
  apply call_inv in H1 as (-> & _ & ->).
  destruct (first_reply_control 0 _) as [i|]; [|discriminate].
  apply bind_inv_val in H2 as (x & t3 & t4 & H3 & H4 & ->).
  unfold perform in H3. unfold ret in H4.
  injection H3 as _ <-. injection H4 as <-.
  exists i. reflexivity.
Qed.

Ltac off_browser_tac :=
  unfold logInfo, logError, log, delay, random;
  run_rules; reflexivity.

(** The [try] block that returns true has gone through all its steps. *)
Lemma reply_steps_true_calls tweetId replyUrl replyText o n t :
  reply_steps tweetId replyUrl replyText o n = (Val true, t) ->
  exists i,
    browser_calls t
    = [ EGoto replyUrl; EWaitForSelector "article" 30000; EScrollIntoView;
        EWaitForSelector reply_selector 15000; EClick reply_selector;
        EWaitForSelector textarea_selector 15000;
        EType textarea_selector replyText;
        EDialogCandidates; EElementClick i;
        EScreenshot ("reply_sent_" ++ tweetId ++ ".png")%string;
        EPageClose ].
Proof.
  unfold reply_steps. intros H.
  apply bind_inv_val in H as (u1 & t1 & t2 & H1 & H & ->).
  apply browser_call_made in H1; [|reflexivity].
  apply bind_inv_val in H as (loaded & t3 & t4 & H3 & H & ->).
  apply attempt_call_inv in H3 as [-> ->].
  destruct (throws (o _ (EWaitForSelector "article" 30000))); cbn [negb] in H.
  { exfalso.
    do 3 (apply bind_inv_val in H as (? & ? & ? & _ & H & ->)).
    discriminate. }
  apply bind_inv_val in H as (? & ? & ? & Hd1 & H & ->).
  apply browser_calls_none in Hd1; [|off_browser_tac].
  apply bind_inv_val in H as (? & ? & ? & Hs & H & ->).
  apply browser_call_made in Hs; [|reflexivity].
  apply bind_inv_val in H as (? & ? & ? & Hd2 & H & ->).
  apply browser_calls_none in Hd2; [|off_browser_tac].
  apply bind_inv_val in H as (? & ? & ? & Hw1 & H & ->).
  apply browser_call_made in Hw1; [|reflexivity].
  apply bind_inv_val in H as (? & ? & ? & Hc & H & ->).
  apply browser_call_made in Hc; [|reflexivity].
  apply bind_inv_val in H as (? & ? & ? & Hd3 & H & ->).
  apply browser_calls_none in Hd3; [|off_browser_tac].
  apply bind_inv_val in H as (? & ? & ? & Hw2 & H & ->).
  apply browser_call_made in Hw2; [|reflexivity].
  apply bind_inv_val in H as (? & ? & ? & Hty & H & ->).
  apply browser_call_made in Hty; [|reflexivity].
  apply bind_inv_val in H as (clicked & tc & tr & Hk & H & ->).
  destruct clicked.
  2:{ exfalso.
      do 3 (apply bind_inv_val in H as (? & ? & ? & _ & H & ->)).
      discriminate. }
  apply click_true_calls in Hk as (i & Hk).
  apply bind_inv_val in H as (? & ? & ? & Hl1 & H & ->).
  apply browser_calls_none in Hl1; [|off_browser_tac].
  apply bind_inv_val in H as (? & ? & ? & Hd4 & H & ->).
  apply browser_calls_none in Hd4; [|off_browser_tac].
  apply bind_inv_val in H as (? & ? & ? & Hshot & H & ->).
  apply browser_call_made in Hshot; [|reflexivity].
  apply bind_inv_val in H as (? & ? & ? & Hclose & H & ->).
  apply browser_call_made in Hclose; [|reflexivity].
  apply bind_inv_val in H as (? & ? & ? & Hl2 & H & ->).
  apply browser_calls_none in Hl2; [|off_browser_tac].
  injection H as <-.
  exists i. rewrite !ScraperMore.browser_calls_app.
  rewrite H1, Hd1, Hs, Hd2, Hw1, Hc, Hd3, Hw2, Hty, Hk, Hl1, Hd4, Hshot,
    Hclose, Hl2.
  reflexivity.
Qed.

(** X11: a reply is reported as a success only after the whole sequence
    went through without a failure: no call of the run was rejected, and
    its calls on the browser are a new page with one of the configured
    user agents, the navigation to the page of the identifier extracted
    from the URL, the article, the scroll, the reply control, the text
    typed in the text area, the submit control found and clicked, the
    screenshot and the close, in this order and nothing else. *)
Theorem success_means_full_sequence tweetUrl replyText o n t :
  replyToTweet tweetUrl replyText o n = (Val true, t) ->
  all_accepted t
  /\ exists id ua i,
       match_status tweetUrl = Some id /\ In ua userAgents
       /\ browser_calls t = reply_sequence id ua replyText i.
Proof.
  intros H. split; [exact (proj1 (replyToTweet_true _ _ _ _ _ H))|].
  revert H.
  unfold replyToTweet. destruct (match_status tweetUrl) as [id|].
  2:{ intros H. apply bind_inv_val in H as (? & ? & ? & _ & H & ->).
      discriminate. }
  cbv zeta. intros H.
  apply bind_inv_val in H as (? & to & ? & Ho & H & ->).
  unfold open_page in Ho.
  apply bind_inv_val in Ho as (? & ? & ? & Hl & Ho & ->).
  apply browser_calls_none in Hl; [|off_browser_tac].
  apply bind_inv_val in Ho as (? & ? & ? & Hn & Ho & ->).
  apply browser_call_made in Hn; [|reflexivity].
  apply bind_inv_val in Ho as (v & tu & ? & Hu & Ho & ->).
  match type of Hu with
  | getRandomUserAgent o ?i = _ =>
      destruct (ScraperMore.user_agent_is_configured_aux o i)
        as (ua & Eua & Hin)
  end.
  rewrite Eua in Hu. injection Hu as <- <-.
  apply bind_inv_val in Ho as (? & ? & ? & Hs & Ho & ->).
  apply browser_call_made in Hs; [|reflexivity].
  injection Ho as _ <-.
  apply try_catch_inv_val in H as [H|(e & t1 & t2 & _ & H & _)].
  2:{ apply reply_failed_yields in H. discriminate. }
  apply reply_steps_true_calls in H as (i & H).
  exists id, ua, i. split; [reflexivity|]. split; [exact Hin|].
  rewrite !ScraperMore.browser_calls_app, Hl, Hn, Hs, H. reflexivity.
Qed.


Lemma success_means_full_sequence_witness :
  all_accepted (snd (replyToTweet "https://x.com/a/status/1" (Some "hi")
                       Worlds.padded_dialog 0))
  /\ exists id ua i,
       match_status "https://x.com/a/status/1" = Some id /\ In ua userAgents
       /\ browser_calls
            (snd (replyToTweet "https://x.com/a/status/1" (Some "hi")
                    Worlds.padded_dialog 0))
          = reply_sequence id ua (Some "hi") i.
Proof.
  apply (success_means_full_sequence "https://x.com/a/status/1" (Some "hi")
           Worlds.padded_dialog 0).
  vm_compute. reflexivity.
Defined.

(** *** The whole batch *)

Lemma only_for_of {A B} (P : event -> Prop) (body : A -> M B) xs :
  (forall x, only P (body x)) -> only P (for_of xs body).
Proof.
  intros H. induction xs as [|x xs IH]; cbn [for_of]; [apply only_ret|].
  apply only_bind; [apply H|intros b].
  apply only_bind; [apply IH|intros bs]. apply only_ret.
Qed.

Lemma reply_round_keeps_browser cannedComments tweetUrl :
  only (fun e => e <> EBrowserClose) (reply_round cannedComments tweetUrl).
Proof.
  unfold reply_round, replyToTweet, reply_steps, reply_failed,
    clickReplyButtonByLabel, attempt, getCannedReply, getRandomUserAgent,
    logInfo, logError, log, delay, random.
  run_rules; discriminate.
Qed.

(** X14: [main] of the dispatcher has closed the browser, once, when it
    returns; when it throws, in the log-in, in a round of the loop or in
    the close itself, no close has succeeded: the browser is left
    running. *)
Theorem dispatcher_closes_browser_iff_returns proxy c tweetUrls
    cannedComments o n :
  match Dispatcher.main proxy c tweetUrls cannedComments o n with
  | (Val _, t) => succeeded EBrowserClose t = 1%nat
  | (_, t) => succeeded EBrowserClose t = 0%nat
  end.
Proof.
  revert o n.
  change (once_iff_returns EBrowserClose
            (Dispatcher.main proxy c tweetUrls cannedComments)).
  unfold Dispatcher.main.
  apply once_bind_quiet.
  { unfold Dispatcher.initializeBrowser, getRandomUserAgent, logInfo, log,
      delay, random.
    run_rules; discriminate. }
  intros _. apply once_bind_quiet.
  { unfold reply_all. apply only_for_of. apply reply_round_keeps_browser. }
  intros _. apply once_close_browser. intros _.
  unfold logInfo, log.
  repeat first [ apply returns_without_bind; [|intros ?]
               | apply returns_without_ret
               | apply returns_without_perform; discriminate ].
Qed.

Lemma reply_round_pages cannedComments tweetUrl o n success t :
  reply_round cannedComments tweetUrl o n = (Val success, t) ->
  succeeded EPageClose t = if has_id tweetUrl then 1%nat else 0%nat.
Proof.
  unfold reply_round. intros H.
  assert (forall A (m : M A) i r tx,
            only (fun e => e <> EPageClose) m -> m o i = (r, tx) ->
            succeeded EPageClose tx = 0%nat) as Q.
  { intros A m i r tx Hm E.
    pose proof (succeeded_none EPageClose m o i Hm) as Z.
    now rewrite E in Z. }
  apply bind_inv_val in H as (text & t1 & t2 & H1 & H & ->).
  apply bind_inv_val in H as (u1 & t3 & t4 & H3 & H & ->).
  apply bind_inv_val in H as (ok & t5 & t6 & H5 & H & ->).
  apply bind_inv_val in H as (u2 & t7 & t8 & H7 & H & ->).
  apply bind_inv_val in H as (r & t9 & t10 & H9 & H & ->).
  apply bind_inv_val in H as (u3 & t11 & t12 & H11 & H & ->).
  apply bind_inv_val in H as (u4 & t13 & t14 & H13 & H & ->).
  injection H as _ <-.
  apply Q in H1;
    [|unfold getCannedReply, random; run_rules; discriminate].
  apply Q in H3; [|unfold logInfo, log; run_rules; discriminate].
  apply Q in H7;
    [|destruct ok; unfold logError, log; run_rules; discriminate].
  apply Q in H9; [|unfold random; run_rules; discriminate].
  apply Q in H11; [|unfold logInfo, log; run_rules; discriminate].
  apply Q in H13; [|unfold delay; run_rules; discriminate].
  pose proof (reply_closes_its_page tweetUrl text o
                (n + length t1 + length t3)) as P.
  rewrite H5 in P.
  rewrite !succeeded_app, H1, H3, P, H7, H9, H11, H13. cbn. lia.
Qed.

(** X18: a loop of [main] that returns has closed as many pages as the
    list holds URLs with an identifier: one close for each such item and
    none for the others. *)
Theorem one_page_closed_per_item tweetUrls cannedComments o n outcomes t :
  reply_all tweetUrls cannedComments o n = (Val outcomes, t) ->
  succeeded EPageClose t = length (filter has_id tweetUrls).
Proof.
  unfold reply_all. revert n outcomes t.
  induction tweetUrls as [|u rest IH]; intros n outcomes t H;
    cbn [for_of] in H.
  - injection H as _ <-. reflexivity.
  - apply bind_inv_val in H as (b & t1 & t2 & H1 & H & ->).
    apply bind_inv_val in H as (bs & t3 & t4 & H3 & H & ->).
    injection H as _ <-.
    apply reply_round_pages in H1. apply IH in H3.
    rewrite !succeeded_app, H1, H3. cbn [filter].
    destruct (has_id u); cbn [length succeeded filter]; lia.
Qed.

Lemma one_page_closed_per_item_witness :
  succeeded EPageClose
    (snd (reply_all Worlds.two_tweets ["hi"] Worlds.failing_pages 0))
  = length (filter has_id Worlds.two_tweets).
Proof.
  apply (one_page_closed_per_item Worlds.two_tweets ["hi"]
           Worlds.failing_pages 0 [false; false]).
  vm_compute. reflexivity.
Defined.


(** *** Opening the session *)

Lemma plays_logInfo msg : plays [] (logInfo msg).
Proof.
  unfold logInfo, log.
  repeat first [ apply ScraperMore.plays_quiet_bind; [|intros ?]
               | apply ScraperMore.plays_ret
               | apply ScraperMore.plays_perform; reflexivity ].
Qed.

Lemma plays_dispatcher_login proxy c ua :
  plays (login_sequence (launchArgs proxy) ua c)
    (logInfo ("User-Agent: " ++ show_opt (Some ua))%string ;;
     logInfo "Launching browser..." ;;
     call (ELaunch (launchArgs proxy)) ;;
     call ENewPage ;;
     call (ESetUserAgent (Some ua)) ;;
     call (ESetDefaultNavigationTimeout 60000) ;;
     logInfo "Opening https://x.com/ for login..." ;;
     call (EGoto "https://x.com/") ;;
     logInfo "Setting Twitter auth cookies..." ;;
     call (ESetCookie (ct0_value c) (auth_token_value c)) ;;
     logInfo "Reloading page to apply authentication..." ;;
     call EReload ;;
     delay (Millis 2000) ;;
     logInfo "Should be logged in now!").
Proof.
  unfold login_sequence.
  apply ScraperMore.plays_quiet_bind; [apply plays_logInfo|intros ?].
  apply ScraperMore.plays_quiet_bind; [apply plays_logInfo|intros ?].
  apply (ScraperMore.plays_bind [_]);
    [apply ScraperMore.plays_call; reflexivity|intros ?].
  apply (ScraperMore.plays_bind [_]);
    [apply ScraperMore.plays_call; reflexivity|intros ?].
  apply (ScraperMore.plays_bind [_]);
    [apply ScraperMore.plays_call; reflexivity|intros ?].
  apply (ScraperMore.plays_bind [_]);
    [apply ScraperMore.plays_call; reflexivity|intros ?].
  apply ScraperMore.plays_quiet_bind; [apply plays_logInfo|intros ?].
  apply (ScraperMore.plays_bind [_]);
    [apply ScraperMore.plays_call; reflexivity|intros ?].
  apply ScraperMore.plays_quiet_bind; [apply plays_logInfo|intros ?].
  apply (ScraperMore.plays_bind [_]);
    [apply ScraperMore.plays_call; reflexivity|intros ?].
  apply ScraperMore.plays_quiet_bind; [apply plays_logInfo|intros ?].
  apply (ScraperMore.plays_bind [_] []);
    [apply ScraperMore.plays_call; reflexivity|intros ?].
  apply ScraperMore.plays_quiet_bind; [apply ScraperMore.plays_delay|intros ?].
  apply plays_logInfo.
Qed.

Lemma dispatcher_login_plays proxy c o n :
  exists ua k,
    In ua userAgents
    /\ browser_calls (snd (Dispatcher.initializeBrowser proxy c o n))
       = firstn k (login_sequence (launchArgs proxy) ua c)
    /\ (k <= 7)%nat
    /\ match fst (Dispatcher.initializeBrowser proxy c o n) with
       | Val _ => k = 7%nat
       | Throw _ => True
       | Diverge => False
       end.
Proof.
  unfold Dispatcher.initializeBrowser.
  set (pre := if is_empty proxy then ret tt
              else logInfo ("Using proxy: " ++ proxy)%string).
  assert (plays [] pre) as Hpre
      by (unfold pre; destruct (is_empty proxy);
          [apply ScraperMore.plays_ret|apply plays_logInfo]).
  destruct ((pre ;; _) o n) as [r t] eqn:E. cbn [fst snd].
  apply bind_inv in E as [(u & t0 & t' & E0 & E & ->)|[(e & E & ->)|[E ->]]].
  - pose proof (Hpre o n) as (k0 & B0 & L0 & _). rewrite E0 in B0.
    cbn [snd length] in *. replace k0 with 0%nat in B0 by lia.
    cbn [firstn] in B0.
    destruct (ScraperMore.user_agent_is_configured_aux o (n + length t0)%nat)
      as (ua & Eua & Hin).
    apply bind_inv in E as [(v & t1 & t2 & E1 & E & ->)|[(e & E & _)|[E _]]];
      rewrite Eua in *; try discriminate.
    injection E1 as <- <-.
    match type of E with
    | ?m o ?i = _ =>
        destruct ((plays_dispatcher_login proxy c ua
                   : plays (login_sequence (launchArgs proxy) ua c) m) o i)
          as (k & Ek & Bk & Rk)
    end.
    rewrite E in Ek, Rk. cbn [fst snd] in *.
    exists ua, k. rewrite !ScraperMore.browser_calls_app, B0, Ek.
    repeat split; auto.
  - pose proof (Hpre o n) as (k0 & B0 & L0 & _). rewrite E in B0.
    cbn [snd length] in *. replace k0 with 0%nat in B0 by lia.
    destruct (ScraperMore.pick_userAgent JsNumber.draw_zero)
      as (ua & _ & Hin).
    exists ua, 0%nat. rewrite B0. repeat split; auto. lia.
  - pose proof (Hpre o n) as (k0 & _ & _ & R0). rewrite E in R0.
    contradiction.
Qed.

Lemma stops_dispatcher_login proxy c :
  stops_at_rejection (Dispatcher.initializeBrowser proxy c).
Proof.
  unfold Dispatcher.initializeBrowser, getRandomUserAgent, logInfo, random,
    log, delay.
  destruct (is_empty proxy); stop_rules.
Qed.

Lemma dispatcher_login_calls_browser proxy c :
  only (fun ev => never_rejects ev = true \/ is_browser_call ev = true)
       (Dispatcher.initializeBrowser proxy c).
Proof.
  unfold Dispatcher.initializeBrowser, getRandomUserAgent, logInfo, random,
    log, delay.
  run_rules; auto.
Qed.

(** X16: [initializeBrowser] of the dispatcher makes the same calls on
    the browser as the one of the scraper, in the same fixed order, each
    at most once: launch, new page, user agent (one of the configured
    ones), default navigation time-out, navigation to the site, cookies,
    reload.  It returns only after all seven, none of them rejected.  A
    call that is rejected makes it throw what the call was rejected with:
    that call is the last one made, so that the calls that follow in the
    sequence are not made, and no call before it was rejected. *)
Theorem dispatcher_login_sequence_is_fixed proxy c o n :
  exists ua k,
    In ua userAgents
    /\ browser_calls (snd (Dispatcher.initializeBrowser proxy c o n))
       = firstn k (login_sequence (launchArgs proxy) ua c)
    /\ match Dispatcher.initializeBrowser proxy c o n with
       | (Val _, t) => k = 7%nat /\ all_accepted t
       | (Throw e, t) =>
           (1 <= k <= 7)%nat
           /\ exists t' x,
                t = t' ++ [x] /\ all_accepted t' /\ rejected x = true
                /\ e = error (snd x)
                /\ nth_error (login_sequence (launchArgs proxy) ua c) (k - 1)
                   = Some (fst x)
       | (Diverge, _) => False
       end.
Proof.
  destruct (dispatcher_login_plays proxy c o n)
    as (ua & k & Hin & Hb & Hk & Hr).
  exists ua, k. split; [exact Hin|]. split; [exact Hb|].
  apply (ScraperMore.login_run (login_sequence (launchArgs proxy) ua c) k
           (Dispatcher.initializeBrowser proxy c) o n
           (stops_dispatcher_login proxy c)
           (dispatcher_login_calls_browser proxy c) Hb Hk Hr).
Qed.

(** *** The text that is typed *)

Lemma replyToTweet_types_its_text tweetUrl replyText :
  only (types_only replyText) (replyToTweet tweetUrl replyText).
Proof.
  unfold replyToTweet, open_page, reply_steps, reply_failed,
    clickReplyButtonByLabel, attempt, getRandomUserAgent, logInfo, logError,
    log, delay, random.
  run_rules; intros sel x E; try discriminate. now injection E.
Qed.

Lemma round_types_its_text cannedComments tweetUrl o n selector text :
  In (EType selector text)
     (calls (snd (reply_round cannedComments tweetUrl o n))) ->
  text = pick cannedComments (drawn (o n ERandom)).
Proof.
  set (text0 := pick cannedComments (drawn (o n ERandom))).
  assert (getCannedReply cannedComments o n
          = (Val text0, [(ERandom, o n ERandom)])) as E by reflexivity.
  unfold reply_round. rewrite (bind_val _ _ o n text0 _ E). cbn [snd].
  rewrite ScraperMore.calls_app, in_app_iff.
  intros [[H|[]]|H]; [discriminate|].
  match type of H with
  | In _ (calls (snd (?m _ _))) =>
      assert (only (types_only text0) m) as Hm
  end.
  { pose proof (replyToTweet_types_its_text tweetUrl text0).
    unfold logInfo, logError, log, delay, random.
    run_rules; intros sel x Ex; discriminate. }
  match type of H with
  | In _ (calls (snd (?m ?o' ?i))) =>
      destruct (m o' i) as [r t] eqn:Er
  end.
  eapply ScraperMore.only_calls in Hm; [|exact Er|exact H].
  eapply Hm. reflexivity.
Qed.

(** X20: the only text that a round of the loop of [main] types is the
    one that [getCannedReply] chose for it with its first draw; with a
    pool that is not empty this is a line of the pool, and with a pool of
    one line it is that line for every item. *)
Theorem typed_text_is_the_canned_reply cannedComments tweetUrl o n :
  (forall selector text,
      In (EType selector text)
         (calls (snd (reply_round cannedComments tweetUrl o n))) ->
      text = pick cannedComments (drawn (o n ERandom)))
  /\ (cannedComments <> [] ->
      (Z.of_nat (length cannedComments) < 2 ^ 32)%Z ->
      exists line,
        pick cannedComments (drawn (o n ERandom)) = Some line
        /\ In line cannedComments)
  /\ (forall line, cannedComments = [line] ->
        pick cannedComments (drawn (o n ERandom)) = Some line).
Proof.
  split; [|split].
  - intros selector text. apply round_types_its_text.
  - intros Hne Hlen. now apply pick_some.
  - intros line ->.
    destruct (pick_some [line] (drawn (o n ERandom))) as (x & E & [<-|[]]);
      [discriminate|vm_compute; reflexivity|exact E].
Qed.

Lemma typed_text_is_the_canned_reply_witness :
  exists line,
    pick ["hi"] (drawn (Worlds.padded_dialog 0 ERandom)) = Some line
    /\ In line ["hi"].
Proof.
  apply (proj1 (proj2 (typed_text_is_the_canned_reply ["hi"]
                         "https://x.com/a/status/1" Worlds.padded_dialog 0))).
  - discriminate.
  - vm_compute. reflexivity.
Defined.

End DispatcherMore.
